(** * ReservoirSamplingOp (caffe2/operators/reservoir_sampling.cc)

    A shallow embedding of [ReservoirSamplingOp::RunOnDevice] and
    [ReservoirSamplingOp::countNewEntries], of the constructor and of the
    arities of the operator schema, and the properties of the reservoir
    they maintain.

    Conventions of the embedding.
    - Integers are [Z]; the two narrowing conversions of the source
      ([int32_t countNewEntries()], [std::min<size_t>]) are written out.
    - The operator is instantiated in one of its two coherent arities:
      3 inputs / 2 outputs (no object ids) or 6 inputs / 4 outputs
      (object ids, OBJECT_TO_POS_MAP and POS_TO_OBJECT).  The blobs beyond
      the arity are never read.  POS_TO_OBJECT is an array the caller
      provides; the operator never resizes it.
    - RESERVOIR, NUM_VISITED, OBJECT_TO_POS_MAP and POS_TO_OBJECT are
      updated in place (EnforceInplace), so one [State] is threaded through
      a call and is returned also when a CAFFE_ENFORCE throws: what was
      written before the throw stays written.
    - The random generator of the context is part of the state; a draw of
      [std::uniform_int_distribution<int64_t>(a, b)] is an operation of the
      [RandGenerator] interface. *)

From stdpp Require Import gmap list.
From Stdlib Require Import ZArith Lia Strings.Byte.

Local Open Scope Z_scope.

(** ** Errors *)

(** Every CAFFE_ENFORCE of the source throws the same exception type; the
    constructors name the kind of condition it guards, after the taxonomy
    of the specification: the shape checks (lines 26, 30, 32, 65, 86, 158)
    are ShapeMismatch, the checks of the capacity and of the sign of the
    counter (lines 19, 67) ConfigurationError, the length of the id vector
    (line 87) SizeMismatch, and the two checks on the loop's own bookkeeping
    (lines 114, 135) InternalConsistencyFault. *)
Inductive CoreError : Type :=
  | ConfigurationError
  | ShapeMismatch
  | SizeMismatch
  | InternalConsistencyFault.

Inductive Outcome : Type :=
  | Done
  | EnforceNotMet (e : CoreError).

#[global] Instance CoreError_eq_dec : EqDecision CoreError.
Proof. solve_decision. Defined.

#[global] Instance Outcome_eq_dec : EqDecision Outcome.
Proof. solve_decision. Defined.

(** ** Tensors *)

Definition Block : Type := list byte.

Record TypeMeta : Type := { type_id : Z; itemsize : Z }.

#[global] Instance TypeMeta_eq_dec : EqDecision TypeMeta.
Proof. solve_decision. Defined.

(** The DATA input: its dimensions, element type and raw bytes. *)
Record Tensor : Type := {
  dims : list Z;
  meta : TypeMeta;
  raw_data : list byte
}.

Definition ndim (t : Tensor) : Z := Z.of_nat (length (dims t)).

(** [p[i]] for a pointer [p] to the int64 cells of a tensor.  An index
    outside the array is undefined behaviour in the source (it reads the
    memory behind the caller's buffer); there the embedding reads 0, and the
    statements about the index take an owner array with a cell for every
    slot.  [owner_target] below gives the index of every access, in range or
    not. *)
Definition cell (p : list Z) (i : Z) : Z := default 0 (p !! Z.to_nat i).

Definition dim (d : list Z) (i : nat) : Z := default 0 (d !! i).

Definition product (d : list Z) : Z := foldr Z.mul 1 d.

(** [Tensor::size_from_dim(k)]. *)
Definition size_from_dim (k : nat) (t : Tensor) : Z := product (drop k (dims t)).

(** The OBJECT_ID input: only its number of dimensions, its size and its
    cells are read. *)
Record IdTensor : Type := {
  oid_ndim : Z;
  oid_data : list Z
}.

Definition oid_size (t : IdTensor) : Z := Z.of_nat (length (oid_data t)).

(** NUM_VISITED: a tensor that must be a scalar holding an int64. *)
Record CounterTensor : Type := {
  nv_ndim : Z;
  nv_value : Z
}.

(** The RESERVOIR output.  [r_dims = None] is a tensor that was never
    given a shape (its size is -1).  The storage is kept at slot
    granularity: slot [p] stands for the bytes
    [p * block_bytesize, (p + 1) * block_bytesize) behind [output_data];
    [None] is storage that was reserved and never written. *)
Record Reservoir : Type := {
  r_dims : option (list Z);
  r_meta : option TypeMeta;
  r_slots : list (option Block)
}.

Definition r_size (r : Reservoir) : Z :=
  match r_dims r with
  | None => -1
  | Some d => product d
  end.

Definition r_ndim (r : Reservoir) : Z :=
  match r_dims r with
  | None => 0
  | Some d => Z.of_nat (length d)
  end.

Definition r_dim (r : Reservoir) (i : nat) : Z :=
  match r_dims r with
  | None => 0
  | Some d => dim d i
  end.

(** Modelled from the spec: [Tensor::Reserve] is not part of the operator's
    file.  It preallocates storage for [capacity] rows without changing the
    occupied size and is idempotent. *)
Definition Reserve (newCapacity : list Z) (r : Reservoir) : Reservoir :=
  {| r_dims := r_dims r;
     r_meta := r_meta r;
     r_slots := r_slots r ++
       replicate (Z.to_nat (dim newCapacity 0) - length (r_slots r))%nat None |}.

(** Modelled from the spec: [Tensor::Resize] is not part of the operator's
    file.  It sets the logical shape; within the reserved storage no slot
    changes. *)
Definition Resize (d : list Z) (r : Reservoir) : Reservoir :=
  {| r_dims := Some d; r_meta := r_meta r; r_slots := r_slots r |}.

(** Modelled from the spec: [Tensor::raw_mutable_data(meta)] is not part of
    the operator's file.  It gives the storage the element type of the
    rows. *)
Definition raw_mutable_data (m : TypeMeta) (r : Reservoir) : Reservoir :=
  {| r_dims := r_dims r; r_meta := Some m; r_slots := r_slots r |}.

(** Modelled from the spec: [Tensor::CopyFrom] is not part of the
    operator's file.  It is called with a source of zero rows only: the
    reservoir adopts the shape and the element type of the source, and no
    data is copied. *)
Definition CopyFrom (src : Tensor) (r : Reservoir) : Reservoir :=
  {| r_dims := Some (dims src); r_meta := Some (meta src); r_slots := r_slots r |}.

(** [CopyItems] of one block to [output_data + pos * block_bytesize]. *)
Definition writeBlock (pos : Z) (b : Block) (r : Reservoir) : Reservoir :=
  {| r_dims := r_dims r;
     r_meta := r_meta r;
     r_slots := <[Z.to_nat pos := Some b]> (r_slots r) |}.

(** ** The random generator of the context *)

Class RandGenerator (G : Type) : Type := {
  uniform_int_distribution : Z → Z → G → Z * G;
  uniform_int_distribution_range :
    ∀ a b g, a ≤ b →
      a ≤ (uniform_int_distribution a b g).1 ∧
      (uniform_int_distribution a b g).1 ≤ b
}.

(** A generator that replays a tape of draws.  A cell outside the requested
    interval, or the end of the tape, yields the lower bound. *)
Definition tape_draw (a b : Z) (t : list Z) : Z * list Z :=
  match t with
  | [] => (a, [])
  | x :: t' => (if decide (a ≤ x ∧ x ≤ b) then x else a, t')
  end.

Lemma tape_draw_range (a b : Z) (t : list Z) :
  a ≤ b → a ≤ (tape_draw a b t).1 ∧ (tape_draw a b t).1 ≤ b.
Proof.
  intros Hab. destruct t as [|x t']; simpl; [lia|].
  case_decide; simpl; lia.
Qed.

#[global] Instance TapeGenerator : RandGenerator (list Z) :=
  {| uniform_int_distribution := tape_draw;
     uniform_int_distribution_range := tape_draw_range |}.

(** ** The operator and its blobs *)

Record ReservoirSamplingOp : Type := {
  numToCollect_ : Z;
  key_tracking : bool
}.

(** The constructor: [CAFFE_ENFORCE(numToCollect_ > 0)]. *)
Definition construct (num_to_collect : Z) (tracking : bool)
    : CoreError + ReservoirSamplingOp :=
  if decide (0 < num_to_collect)
  then inr {| numToCollect_ := num_to_collect; key_tracking := tracking |}
  else inl ConfigurationError.

(** With [key_tracking op] the operator has 6 inputs and 4 outputs, so
    [InputSize() > OBJECT_ID], [OutputSize() > OBJECT_TO_POS_MAP] and
    [OutputSize() > POS_TO_OBJECT] all hold; without it none does. *)

Record Batch : Type := {
  DATA : Tensor;
  OBJECT_ID : IdTensor
}.

Record State (G : Type) : Type := {
  RESERVOIR : Reservoir;
  NUM_VISITED : CounterTensor;
  OBJECT_TO_POS_MAP : gmap Z Z;
  POS_TO_OBJECT : list Z;
  RandGen : G
}.

Arguments RESERVOIR {G} _.
Arguments NUM_VISITED {G} _.
Arguments OBJECT_TO_POS_MAP {G} _.
Arguments POS_TO_OBJECT {G} _.
Arguments RandGen {G} _.

Definition num_visited {G} (st : State G) : Z := nv_value (NUM_VISITED st).

Definition set_RESERVOIR {G} (r : Reservoir) (st : State G) : State G :=
  {| RESERVOIR := r;
     NUM_VISITED := NUM_VISITED st;
     OBJECT_TO_POS_MAP := OBJECT_TO_POS_MAP st;
     POS_TO_OBJECT := POS_TO_OBJECT st;
     RandGen := RandGen st |}.

Definition set_num_visited {G} (v : Z) (st : State G) : State G :=
  {| RESERVOIR := RESERVOIR st;
     NUM_VISITED := {| nv_ndim := nv_ndim (NUM_VISITED st); nv_value := v |};
     OBJECT_TO_POS_MAP := OBJECT_TO_POS_MAP st;
     POS_TO_OBJECT := POS_TO_OBJECT st;
     RandGen := RandGen st |}.

Definition set_RandGen {G} (g : G) (st : State G) : State G :=
  {| RESERVOIR := RESERVOIR st;
     NUM_VISITED := NUM_VISITED st;
     OBJECT_TO_POS_MAP := OBJECT_TO_POS_MAP st;
     POS_TO_OBJECT := POS_TO_OBJECT st;
     RandGen := g |}.

Definition set_index {G} (m : gmap Z Z) (p : list Z) (st : State G) : State G :=
  {| RESERVOIR := RESERVOIR st;
     NUM_VISITED := NUM_VISITED st;
     OBJECT_TO_POS_MAP := m;
     POS_TO_OBJECT := p;
     RandGen := RandGen st |}.

(** ** Integer conversions *)

(** Conversion to [int32_t] (two's complement). *)
Definition to_int32 (z : Z) : Z := (z + 2147483648) mod 4294967296 - 2147483648.

(** Conversion to [size_t] (64 bits). *)
Definition to_size_t (z : Z) : Z := z mod 18446744073709551616.

(** The largest [int64_t].  NUM_VISITED holds an [int64_t] (line 66): the
    value [v + 1] that the embedding gives the increment of line 132 is the
    one the code computes while [v < INT64_MAX]; at [INT64_MAX] the
    increment overflows.  Statements about a counter that starts anywhere
    carry the bound that keeps the rows of the call below it. *)
Definition INT64_MAX : Z := 9223372036854775807.

(** ** The operator *)

(** [std::count_if] over the object ids: the ids that the map does not hold. *)
Definition count_absent (m : gmap Z Z) (ids : list Z) : Z :=
  Z.of_nat (length (filter (λ oid, m !! oid = None) ids)).

(** [MapType64To32::emplace]: an existing key keeps its value. *)
Definition emplace (k v : Z) (m : gmap Z Z) : gmap Z Z :=
  match m !! k with
  | Some _ => m
  | None => <[k := v]> m
  end.

(** Lines 31-33: the dimensions after the first agree. *)
Definition same_row_shape (out_dims in_dims : list Z) : bool :=
  forallb (λ i, bool_decide (dim out_dims i = dim in_dims i))
          (seq 1 (length in_dims - 1)).

Definition block_bytesize (input : Tensor) : Z :=
  size_from_dim 1 input * itemsize (meta input).

(** The bytes of row [i]: [block_bytesize] bytes from
    [input_data + i * block_bytesize]. *)
Definition block_at (input : Tensor) (i : Z) : Block :=
  take (Z.to_nat (block_bytesize input))
       (drop (Z.to_nat (i * block_bytesize input)) (raw_data input)).

Section Operator.
Context {G : Type} `{RandGenerator G}.

(** [countNewEntries], lines 152-168.  OBJECT_TO_POS_MAP_IN is the map of
    the state (in place). *)
Definition countNewEntries (op : ReservoirSamplingOp) (batch : Batch)
    (st : State G) : CoreError + Z :=
  if key_tracking op then
    if decide (oid_ndim (OBJECT_ID batch) = 1)
    then inr (to_int32 (count_absent (OBJECT_TO_POS_MAP st)
                                     (oid_data (OBJECT_ID batch))))
    else inl ShapeMismatch
  else inr (to_int32 (dim (dims (DATA batch)) 0)).

(** Lines 92-93: the row's key is already in the pool. *)
Definition already_in_pool (op : ReservoirSamplingOp) (batch : Batch)
    (i : Z) (st : State G) : bool :=
  key_tracking op &&
  bool_decide (is_Some (OBJECT_TO_POS_MAP st
                          !! cell (oid_data (OBJECT_ID batch)) i)).

(** Lines 97-110: the slot of the row, or -1 to discard it, and the
    generator after the draw (if one was made). *)
Definition choose_pos (op : ReservoirSamplingOp) (st : State G) : Z * G :=
  if decide (num_visited st < numToCollect_ op) then
    (num_visited st, RandGen st)
  else
    let '(r, g) := uniform_int_distribution 0 (num_visited st) (RandGen st) in
    (if decide (numToCollect_ op ≤ r) then -1 else r, g).

(** Lines 79-81 and the test of line 123.  [pos_to_object_data] is
    [pos_to_object->mutable_data<int64_t>()]: a tensor without cells owns no
    storage and gives the null pointer, and the bind is then skipped; the
    object ids and the map are there exactly when keys are tracked. *)
Definition binds_owners (op : ReservoirSamplingOp) (st : State G) : bool :=
  key_tracking op && bool_decide (POS_TO_OBJECT st ≠ []).

(** Lines 123-129.  The write of line 126 at an index outside the owner
    array is undefined behaviour in the source (nothing sizes the array:
    lines 76-78 resize the reservoir); the embedding leaves the array as it
    is there. *)
Definition bind_slot (op : ReservoirSamplingOp) (batch : Batch) (i pos : Z)
    (st : State G) : State G :=
  if binds_owners op st then
    let old_oid := cell (POS_TO_OBJECT st) pos in
    let new_oid := cell (oid_data (OBJECT_ID batch)) i in
    set_index (emplace new_oid pos (delete old_oid (OBJECT_TO_POS_MAP st)))
              (<[Z.to_nat pos := new_oid]> (POS_TO_OBJECT st)) st
  else st.

(** The body of the loop, lines 92-132.  The increment of line 132 is the
    one of the integers: it is the [int64_t] one while the count is below
    [INT64_MAX]. *)
Definition sample_row (op : ReservoirSamplingOp) (batch : Batch) (i : Z)
    (st : State G) : Outcome * State G :=
  if already_in_pool op batch i st then (Done, st)
  else
    let '(pos, g) := choose_pos op st in
    let st := set_RandGen g st in
    if decide (pos < 0) then
      if decide (numToCollect_ op ≤ num_visited st)
      then (Done, set_num_visited (num_visited st + 1) st)
      else (EnforceNotMet InternalConsistencyFault, st)
    else
      let st := set_RESERVOIR
                  (writeBlock pos (block_at (DATA batch) i) (RESERVOIR st)) st in
      let st := bind_slot op batch i pos st in
      (Done, set_num_visited (num_visited st + 1) st).

(** The slot that the block of the row is copied to (lines 116-121): none
    when the row is skipped as already in the pool, or discarded. *)
Definition copy_target (op : ReservoirSamplingOp) (batch : Batch) (i : Z)
    (st : State G) : option Z :=
  if already_in_pool op batch i st then None
  else
    let pos := (choose_pos op st).1 in
    if decide (pos < 0) then None else Some pos.

(** The cell of [pos_to_object_data] that the row reads (line 124) and
    writes (line 126): the slot of the copy, when the bind is made. *)
Definition owner_target (op : ReservoirSamplingOp) (batch : Batch) (i : Z)
    (st : State G) : option Z :=
  if binds_owners op st then copy_target op batch i st else None.

(** The state after a row that is not in the pool, by the slot chosen
    (lines 112-132 without the branch that throws). *)
Definition after_row (op : ReservoirSamplingOp) (batch : Batch) (i : Z)
    (st : State G) : State G :=
  let pos := (choose_pos op st).1 in
  let st1 := set_RandGen (choose_pos op st).2 st in
  if decide (pos < 0) then set_num_visited (num_visited st + 1) st1
  else
    set_num_visited (num_visited st + 1)
      (bind_slot op batch i pos
         (set_RESERVOIR
            (writeBlock pos (block_at (DATA batch) i) (RESERVOIR st1)) st1)).

(** The loop, lines 91-133, over the row numbers [rows]. *)
Fixpoint run_rows (op : ReservoirSamplingOp) (batch : Batch) (rows : list Z)
    (st : State G) : Outcome * State G :=
  match rows with
  | [] => (Done, st)
  | i :: rest =>
      match sample_row op batch i st with
      | (Done, st') => run_rows op batch rest st'
      | failed => failed
      end
  end.

(** The cells the loop touches, row by row: the slot copied to and the owner
    cell read and written, for every row the loop reaches. *)
Fixpoint loop_targets (op : ReservoirSamplingOp) (batch : Batch)
    (rows : list Z) (st : State G) : list (option Z * option Z) :=
  match rows with
  | [] => []
  | i :: rest =>
      (copy_target op batch i st, owner_target op batch i st) ::
      match sample_row op batch i st with
      | (Done, st') => loop_targets op batch rest st'
      | _ => []
      end
  end.

(** Lines 30-33: the reservoir and the batch agree on the number of
    dimensions and on every dimension after the first. *)
Definition row_shape_matches (output : Reservoir) (input : Tensor) : bool :=
  bool_decide (r_ndim output = ndim input) &&
  same_row_shape (default [] (r_dims output)) (dims input).

(** Line 52: the rows the reservoir holds before the call. *)
Definition output_batch_size (output_initialized : bool) (output : Reservoir) : Z :=
  if output_initialized then r_dim output 0 else 0.

(** Lines 51-53: the shape the reservoir is resized to. *)
Definition grown_dims (op : ReservoirSamplingOp) (input : Tensor)
    (batch_size num_new_entries : Z) : list Z :=
  let num_to_copy := Z.min num_new_entries (numToCollect_ op) in
  <[0%nat := Z.min (to_size_t (numToCollect_ op))
                   (to_size_t (batch_size + num_to_copy))]> (dims input).

(** Lines 36-40 and 51-58, and the second Resize of lines 76-78 (it is
    applied to the reservoir again, with the same shape): the state in which
    the loop starts. *)
Definition prepare (op : ReservoirSamplingOp) (batch : Batch)
    (num_new_entries : Z) (st : State G) : State G :=
  let input := DATA batch in
  let output_initialized := bool_decide (0 < r_size (RESERVOIR st)) in
  let st := set_RESERVOIR
              (Reserve (<[0%nat := numToCollect_ op]> (dims input)) (RESERVOIR st)) st in
  let batch_size := output_batch_size output_initialized (RESERVOIR st) in
  let new_dims := grown_dims op input batch_size num_new_entries in
  let st := if decide (batch_size < numToCollect_ op)
            then set_RESERVOIR (Resize new_dims (RESERVOIR st)) st else st in
  let st := set_RESERVOIR (raw_mutable_data (meta input) (RESERVOIR st)) st in
  if key_tracking op && bool_decide (batch_size < numToCollect_ op)
  then set_RESERVOIR (Resize new_dims (RESERVOIR st)) st else st.

(** [RunOnDevice], lines 22-137. *)
Definition RunOnDevice (op : ReservoirSamplingOp) (batch : Batch)
    (st : State G) : Outcome * State G :=
  let output := RESERVOIR st in
  let input := DATA batch in
  if decide (ndim input < 1) then (EnforceNotMet ShapeMismatch, st) else
  let output_initialized := bool_decide (0 < r_size output) in
  if output_initialized && negb (row_shape_matches output input)
  then (EnforceNotMet ShapeMismatch, st) else
  let num_entries := dim (dims input) 0 in
  let st := set_RESERVOIR
              (Reserve (<[0%nat := numToCollect_ op]> (dims input)) output) st in
  if decide (num_entries = 0) then
    (Done, if output_initialized then st
           else set_RESERVOIR (CopyFrom input (RESERVOIR st)) st)
  else
  match countNewEntries op batch st with
  | inl e => (EnforceNotMet e, st)
  | inr num_new_entries =>
    let batch_size := output_batch_size output_initialized (RESERVOIR st) in
    let new_dims := grown_dims op input batch_size num_new_entries in
    let st := if decide (batch_size < numToCollect_ op)
              then set_RESERVOIR (Resize new_dims (RESERVOIR st)) st else st in
    let st := set_RESERVOIR (raw_mutable_data (meta input) (RESERVOIR st)) st in
    if decide (nv_ndim (NUM_VISITED st) ≠ 0)
    then (EnforceNotMet ShapeMismatch, st) else
    if decide (num_visited st < 0)
    then (EnforceNotMet ConfigurationError, st) else
    let start_num_visited := num_visited st in
    let st := if key_tracking op && bool_decide (batch_size < numToCollect_ op)
              then set_RESERVOIR (Resize new_dims (RESERVOIR st)) st else st in
    if key_tracking op && negb (bool_decide (oid_ndim (OBJECT_ID batch) = 1))
    then (EnforceNotMet ShapeMismatch, st) else
    if key_tracking op &&
       negb (bool_decide (oid_size (OBJECT_ID batch) = num_entries))
    then (EnforceNotMet SizeMismatch, st) else
    match run_rows op batch (seqZ 0 num_entries) st with
    | (Done, st) =>
        if decide (num_visited st = start_num_visited + num_new_entries)
        then (Done, st)
        else (EnforceNotMet InternalConsistencyFault, st)
    | failed => failed
    end
  end.

(** Successive calls on one state: the first failure ends the run. *)
Fixpoint feed (op : ReservoirSamplingOp) (batches : list Batch)
    (st : State G) : Outcome * State G :=
  match batches with
  | [] => (Done, st)
  | b :: rest =>
      match RunOnDevice op b st with
      | (Done, st') => feed op rest st'
      | failed => failed
      end
  end.

(** *** The loop seen from the stream of rows

    A row that is not in the pool changes the state by its key and its
    block only; [accept_row] is [after_row] with the two read off the batch
    beforehand. *)

Definition bind_key (op : ReservoirSamplingOp) (new_oid pos : Z)
    (st : State G) : State G :=
  if binds_owners op st then
    let old_oid := cell (POS_TO_OBJECT st) pos in
    set_index (emplace new_oid pos (delete old_oid (OBJECT_TO_POS_MAP st)))
              (<[Z.to_nat pos := new_oid]> (POS_TO_OBJECT st)) st
  else st.

Definition accept_row (op : ReservoirSamplingOp) (row : Z * Block)
    (st : State G) : State G :=
  let pos := (choose_pos op st).1 in
  let st1 := set_RandGen (choose_pos op st).2 st in
  if decide (pos < 0) then set_num_visited (num_visited st + 1) st1
  else
    set_num_visited (num_visited st + 1)
      (bind_key op row.1 pos
         (set_RESERVOIR (writeBlock pos row.2 (RESERVOIR st1)) st1)).

Definition accept_rows (op : ReservoirSamplingOp) (rows : list (Z * Block))
    (st : State G) : State G :=
  foldl (λ st row, accept_row op row st) st rows.

(** The shape and element type of the reservoir after a call that
    succeeds (lines 42-48 and 51-58). *)
Definition shape_after (op : ReservoirSamplingOp) (batch : Batch)
    (st : State G) : option (list Z) * option TypeMeta :=
  let input := DATA batch in
  let output := RESERVOIR st in
  let output_initialized := bool_decide (0 < r_size output) in
  if decide (dim (dims input) 0 = 0) then
    if output_initialized then (r_dims output, r_meta output)
    else (Some (dims input), Some (meta input))
  else
    let batch_size := output_batch_size output_initialized output in
    (if decide (batch_size < numToCollect_ op)
     then Some (grown_dims op input batch_size
                           (to_int32 (dim (dims input) 0)))
     else r_dims output,
     Some (meta input)).

(** The preconditions of a call, as lines 26-33, 65-67 and 86-87 check
    them. *)
Definition valid_call (op : ReservoirSamplingOp) (batch : Batch)
    (st : State G) : Prop :=
  1 ≤ ndim (DATA batch) ∧
  (0 < r_size (RESERVOIR st) →
   row_shape_matches (RESERVOIR st) (DATA batch) = true) ∧
  nv_ndim (NUM_VISITED st) = 0 ∧
  0 ≤ num_visited st ∧
  (key_tracking op = true →
   oid_ndim (OBJECT_ID batch) = 1 ∧
   oid_size (OBJECT_ID batch) = dim (dims (DATA batch)) 0).

End Operator.

(** The key and the block of every row of a batch, in order. *)
Definition batch_rows (batch : Batch) : list (Z * Block) :=
  (λ i, (cell (oid_data (OBJECT_ID batch)) i, block_at (DATA batch) i))
    <$> seqZ 0 (dim (dims (DATA batch)) 0).

Definition stream_rows (batches : list Batch) : list (Z * Block) :=
  batches ≫= batch_rows.

(** The state with another shape and element type of the reservoir. *)
Definition set_shape {G} (sh : option (list Z) * option TypeMeta)
    (st : State G) : State G :=
  set_RESERVOIR {| r_dims := sh.1; r_meta := sh.2;
                   r_slots := r_slots (RESERVOIR st) |} st.

(** The state with storage reserved for the capacity. *)
Definition reserve {G} (op : ReservoirSamplingOp) (st : State G) : State G :=
  set_RESERVOIR (Reserve [numToCollect_ op] (RESERVOIR st)) st.

(** A batch of [n] rows of shape [shape], with one id per row when keys
    are tracked and fewer rows than an [int] can count. *)
Definition well_formed_batch (op : ReservoirSamplingOp) (shape : list Z)
    (batch : Batch) : Prop :=
  ∃ n : Z, 0 ≤ n ∧ n < 2147483648 ∧
    dims (DATA batch) = n :: shape ∧
    (key_tracking op = true →
     oid_ndim (OBJECT_ID batch) = 1 ∧ oid_size (OBJECT_ID batch) = n).

(** What successive calls on batches of one row shape keep true: the
    counter is a non-negative scalar and an initialised reservoir has the
    row shape of the batches. *)
Definition stream_inv {G} (shape : list Z) (st : State G) : Prop :=
  nv_ndim (NUM_VISITED st) = 0 ∧
  0 ≤ num_visited st ∧
  (0 < r_size (RESERVOIR st) →
   ∃ d0, r_dims (RESERVOIR st) = Some (d0 :: shape)).

(** The occupied size follows the visit count up to the capacity. *)
Definition occupancy_inv {G} (op : ReservoirSamplingOp) (shape : list Z)
    (st : State G) : Prop :=
  (num_visited st = 0 ∧ ¬ 0 < r_size (RESERVOIR st)) ∨
  (0 < num_visited st ∧
   r_dims (RESERVOIR st) =
     Some (Z.min (numToCollect_ op) (num_visited st) :: shape)).

(** *** Rows held by the reservoir, and the outcomes of the draws *)

#[global] Instance byte_eq_dec : EqDecision byte := Byte.byte_eq_dec.

(** The row that slot [s] holds: the key in the owner array and the block
    in the storage. *)
Definition slot_row {G} (st : State G) (s : nat) : option (Z * Block) :=
  match POS_TO_OBJECT st !! s, r_slots (RESERVOIR st) !! s with
  | Some k, Some (Some b) => Some (k, b)
  | _, _ => None
  end.

(** The rows in the slots below the capacity. *)
Definition held_rows {G} (op : ReservoirSamplingOp) (st : State G)
    : list (option (Z * Block)) :=
  slot_row st <$> seq 0 (Z.to_nat (numToCollect_ op)).

Definition row_present {G} (op : ReservoirSamplingOp) (row : Z * Block)
    (st : State G) : bool :=
  bool_decide (Some row ∈ held_rows op st).

(** The sequences of [k] draws made from visit count [v] on: the draw at
    visit count [v + i] ranges over [0, v + i].  Each draw being uniform on
    its interval, the sequences are equally likely. *)
Fixpoint tapes (v : Z) (k : nat) : list (list Z) :=
  match k with
  | O => [[]]
  | S k' => tapes v k' ≫= λ t, (λ r, t ++ [r]) <$> seqZ 0 (v + Z.of_nat k' + 1)
  end.

(** A row accepted at or above the capacity, by the value [r] drawn for
    it. *)
Definition accept_with_draw {G} (op : ReservoirSamplingOp)
    (row : Z * Block) (r : Z) (st : State G) : State G :=
  if decide (numToCollect_ op ≤ r) then set_num_visited (num_visited st + 1) st
  else
    set_num_visited (num_visited st + 1)
      (bind_key op row.1 r (set_RESERVOIR (writeBlock r row.2 (RESERVOIR st)) st)).

Fixpoint replay {G} (op : ReservoirSamplingOp)
    (rows : list (Z * Block)) (t : list Z) (st : State G) : State G :=
  match rows, t with
  | row :: rows', r :: t' => replay op rows' t' (accept_with_draw op row r st)
  | _, _ => st
  end.

(** The slots below the capacity hold exactly the rows [held]. *)
Definition holds {G} (op : ReservoirSamplingOp) (st : State G)
    (held : list (Z * Block)) : Prop :=
  held_rows op st = Some <$> held.

(** No row was processed between [st] and [st']: counter, index and
    generator are the same, every slot keeps its content, and the slots that
    storage gained (by [Reserve]) were never written. *)
Definition no_row_processed {G} (st st' : State G) : Prop :=
  NUM_VISITED st' = NUM_VISITED st ∧
  OBJECT_TO_POS_MAP st' = OBJECT_TO_POS_MAP st ∧
  POS_TO_OBJECT st' = POS_TO_OBJECT st ∧
  RandGen st' = RandGen st ∧
  ∃ k : nat, r_slots (RESERVOIR st') = r_slots (RESERVOIR st) ++ replicate k None.

(** The number of rows the reservoir's shape declares occupied. *)
Definition occupied_size {G} (st : State G) : Z := r_dim (RESERVOIR st) 0.

(** ** Concrete inputs *)

(** A batch of one-byte rows: row [k] is the byte [payload !! k]. *)
Definition byte_batch (payload : list byte) (ids : list Z) : Batch :=
  {| DATA := {| dims := [Z.of_nat (length payload); 1];
                meta := {| type_id := 1; itemsize := 1 |};
                raw_data := payload |};
     OBJECT_ID := {| oid_ndim := 1; oid_data := ids |} |}.

(** The blobs as the caller creates them: an empty reservoir, a zero
    counter, an empty map and a zero-filled owner array. *)
Definition initial_state (capacity : nat) (tape : list Z) : State (list Z) :=
  {| RESERVOIR := {| r_dims := Some [0]; r_meta := None; r_slots := [] |};
     NUM_VISITED := {| nv_ndim := 0; nv_value := 0 |};
     OBJECT_TO_POS_MAP := ∅;
     POS_TO_OBJECT := replicate capacity 0;
     RandGen := tape |}.

Definition tracking_op (capacity : Z) : ReservoirSamplingOp :=
  {| numToCollect_ := capacity; key_tracking := true |}.

Definition plain_op (capacity : Z) : ReservoirSamplingOp :=
  {| numToCollect_ := capacity; key_tracking := false |}.

(** The initial blobs with another NUM_VISITED tensor. *)
Definition with_counter (c : CounterTensor) (st : State (list Z)) : State (list Z) :=
  {| RESERVOIR := RESERVOIR st;
     NUM_VISITED := c;
     OBJECT_TO_POS_MAP := OBJECT_TO_POS_MAP st;
     POS_TO_OBJECT := POS_TO_OBJECT st;
     RandGen := RandGen st |}.

(** One row and an id vector of two cells. *)
Definition mismatched_batch : Batch := byte_batch ["001"%byte] [5; 6].

(** A batch of zero rows. *)
Definition empty_batch : Batch := byte_batch [] [].

(** One row of zero elements, with key [k]. *)
Definition zero_width_batch (k : Z) : Batch :=
  {| DATA := {| dims := [1; 0];
                meta := {| type_id := 1; itemsize := 1 |};
                raw_data := [] |};
     OBJECT_ID := {| oid_ndim := 1; oid_data := [k] |} |}.

(** Two calls of one row each, with keys 1 and 2. *)
Definition two_rows : list Batch :=
  [byte_batch ["001"%byte] [1]; byte_batch ["002"%byte] [2]].

(** Three rows with keys 1, 2 and 3, in two calls. *)
Definition three_rows : list Batch :=
  [byte_batch ["001"; "002"]%byte [1; 2]; byte_batch ["003"%byte] [3]].

(** ** The schema of the operator *)

(** INPUT_TAGS and OUTPUT_TAGS, lines 143-150. *)
Definition RESERVOIR_IN : Z := 0.
Definition NUM_VISITED_IN : Z := 1.
Definition DATA_TAG : Z := 2.
Definition OBJECT_ID_TAG : Z := 3.
Definition OBJECT_TO_POS_MAP_IN : Z := 4.
Definition POS_TO_OBJECT_IN : Z := 5.
Definition RESERVOIR_TAG : Z := 0.
Definition NUM_VISITED_TAG : Z := 1.
Definition OBJECT_TO_POS_MAP_TAG : Z := 2.
Definition POS_TO_OBJECT_TAG : Z := 3.

(** OPERATOR_SCHEMA, lines 173-177.  [NumInputs] and [NumOutputs] are given
    the set of the numbers allowed (a braced list selects the overload that
    takes a set); [NumInputsOutputs] is the predicate of line 176, with the
    integer division of C++. *)
Definition NumInputs : list Z := [3; 6].
Definition NumOutputs : list Z := [2; 4].

Definition NumInputsOutputs (n_in n_out : Z) : bool :=
  bool_decide (Z.quot n_in 3 = Z.quot n_out 2).

Definition EnforceInplace : list (Z * Z) := [(0, 0); (1, 1); (4, 2); (5, 3)].

(** The numbers of inputs and outputs the schema accepts. *)
Definition schema_accepts (n_in n_out : Z) : bool :=
  bool_decide (n_in ∈ NumInputs) && bool_decide (n_out ∈ NumOutputs) &&
  NumInputsOutputs n_in n_out.

(** ** The index of keys *)

(** Every entry of the map points below the capacity, at a slot whose owner
    is the key of the entry. *)
Definition index_sound {G} (op : ReservoirSamplingOp) (st : State G) : Prop :=
  ∀ k s, OBJECT_TO_POS_MAP st !! k = Some s →
    0 ≤ s ∧ s < numToCollect_ op ∧ POS_TO_OBJECT st !! Z.to_nat s = Some k.

(** The slots that have been written: those below the visit count, up to
    the capacity. *)
Definition written_slots {G} (op : ReservoirSamplingOp) (st : State G) : Z :=
  Z.max 0 (Z.min (num_visited st) (numToCollect_ op)).

(** The owner of every written slot is mapped to the slot. *)
Definition index_complete {G} (op : ReservoirSamplingOp) (st : State G) : Prop :=
  ∀ s, 0 ≤ s → s < written_slots op st →
    ∃ k, POS_TO_OBJECT st !! Z.to_nat s = Some k ∧
         OBJECT_TO_POS_MAP st !! k = Some s.

(** The owner cells below the capacity that were never assigned. *)
Definition stale_cells {G} (op : ReservoirSamplingOp) (st : State G) : list Z :=
  drop (Z.to_nat (written_slots op st))
       (take (Z.to_nat (numToCollect_ op)) (POS_TO_OBJECT st)).

(** ** Well-formed input *)

(** The invariant of a tensor that holds its data: no dimension is
    negative and the buffer has [size * itemsize] bytes. *)
Definition tensor_filled (input : Tensor) : Prop :=
  Forall (λ d, 0 ≤ d) (dims input) ∧
  0 ≤ itemsize (meta input) ∧
  Z.of_nat (length (raw_data input)) = product (dims input) * itemsize (meta input).

(** ** The content of the reservoir *)

(** Every key of the map points at a slot that holds a block which [R]
    relates to the key. *)
Definition keyed_content {G} (R : Z → Block → Prop) (st : State G) : Prop :=
  ∀ k s, OBJECT_TO_POS_MAP st !! k = Some s →
    ∃ b, r_slots (RESERVOIR st) !! Z.to_nat s = Some (Some b) ∧ R k b.
(** ** Facts about one row *)

Section RowFacts.
Context {G : Type} `{RandGenerator G}.
Implicit Types (op : ReservoirSamplingOp) (batch : Batch) (st : State G).

Lemma num_visited_set_RESERVOIR r st :
  num_visited (set_RESERVOIR r st) = num_visited st.
Proof. done. Qed.

Lemma choose_pos_append op st :
  num_visited st < numToCollect_ op →
  choose_pos op st = (num_visited st, RandGen st).
Proof. intros Hv. unfold choose_pos. by rewrite decide_True. Qed.

Lemma choose_pos_draw op st :
  numToCollect_ op ≤ num_visited st →
  choose_pos op st =
    let r := (uniform_int_distribution 0 (num_visited st) (RandGen st)).1 in
    (if decide (numToCollect_ op ≤ r) then -1 else r,
     (uniform_int_distribution 0 (num_visited st) (RandGen st)).2).
Proof.
  intros Hv. unfold choose_pos. rewrite decide_False by lia.
  by destruct (uniform_int_distribution 0 (num_visited st) (RandGen st)).
Qed.

Lemma choose_pos_range op st :
  0 ≤ num_visited st →
  (choose_pos op st).1 = -1 ∨
  (0 ≤ (choose_pos op st).1 ∧ (choose_pos op st).1 < numToCollect_ op).
Proof.
  intros Hv. destruct (decide (num_visited st < numToCollect_ op)) as [Hlt|Hge].
  - rewrite choose_pos_append by done. simpl. right. lia.
  - rewrite choose_pos_draw by lia. simpl.
    pose proof (uniform_int_distribution_range 0 (num_visited st) (RandGen st) Hv)
      as [Hlo Hhi].
    case_decide; [by left | right; lia].
Qed.

Lemma binds_owners_plain op st :
  key_tracking op = false → binds_owners op st = false.
Proof. intros Hk. unfold binds_owners. by rewrite Hk. Qed.

Lemma binds_owners_true op st :
  key_tracking op = true → POS_TO_OBJECT st ≠ [] → binds_owners op st = true.
Proof.
  intros Hk Hp. unfold binds_owners. rewrite Hk. by apply bool_decide_eq_true_2.
Qed.

Lemma binds_owners_cells op st (pos : Z) :
  key_tracking op = true → 0 ≤ pos →
  pos < Z.of_nat (length (POS_TO_OBJECT st)) → binds_owners op st = true.
Proof.
  intros Hk H0 Hlt. apply binds_owners_true; [done|].
  intros Hp. rewrite Hp in Hlt. simpl in Hlt. lia.
Qed.

Lemma binds_owners_inv op st :
  binds_owners op st = true → key_tracking op = true ∧ POS_TO_OBJECT st ≠ [].
Proof.
  unfold binds_owners. intros Hb. apply andb_true_iff in Hb as [Hk Hp].
  by apply bool_decide_eq_true in Hp.
Qed.

Lemma binds_owners_none op st :
  key_tracking op = true → binds_owners op st = false → POS_TO_OBJECT st = [].
Proof.
  intros Hk Hb. unfold binds_owners in Hb. rewrite Hk in Hb.
  apply bool_decide_eq_false in Hb. by apply dec_stable in Hb.
Qed.

Lemma bind_slot_num_visited op batch i pos st :
  num_visited (bind_slot op batch i pos st) = num_visited st.
Proof. unfold bind_slot. by destruct (binds_owners op st). Qed.

Lemma bind_slot_RESERVOIR op batch i pos st :
  RESERVOIR (bind_slot op batch i pos st) = RESERVOIR st.
Proof. unfold bind_slot. by destruct (binds_owners op st). Qed.

Lemma bind_slot_RandGen op batch i pos st :
  RandGen (bind_slot op batch i pos st) = RandGen st.
Proof. unfold bind_slot. by destruct (binds_owners op st). Qed.

Lemma sample_row_in_pool op batch i st :
  already_in_pool op batch i st = true →
  sample_row op batch i st = (Done, st).
Proof. intros Hin. unfold sample_row. by rewrite Hin. Qed.

Lemma sample_row_new op batch i st :
  0 ≤ num_visited st →
  already_in_pool op batch i st = false →
  sample_row op batch i st = (Done, after_row op batch i st).
Proof.
  intros Hv Hnew. unfold sample_row, after_row. rewrite Hnew.
  pose proof (choose_pos_range op st Hv) as Hrange.
  destruct (choose_pos op st) as [pos g] eqn:Hpos. simpl in *.
  destruct (decide (pos < 0)) as [Hneg|Hpos0].
  - rewrite decide_True; [done|].
    change (num_visited (set_RandGen g st)) with (num_visited st).
    destruct (decide (num_visited st < numToCollect_ op)) as [Hlt|Hge]; [|lia].
    rewrite choose_pos_append in Hpos by done.
    injection Hpos as Hp _. lia.
  - by rewrite bind_slot_num_visited.
Qed.

Lemma after_row_num_visited op batch i st :
  num_visited (after_row op batch i st) = num_visited st + 1.
Proof. unfold after_row. by case_decide. Qed.

End RowFacts.

(** ** Append, replace or discard *)

Section RowClaims.
Context {G : Type} `{RandGenerator G}.
Implicit Types (op : ReservoirSamplingOp) (batch : Batch) (st : State G).

Lemma after_row_append op batch i st :
  num_visited st < numToCollect_ op → 0 ≤ num_visited st →
  after_row op batch i st =
    set_num_visited (num_visited st + 1)
      (bind_slot op batch i (num_visited st)
         (set_RESERVOIR
            (writeBlock (num_visited st) (block_at (DATA batch) i) (RESERVOIR st))
            st)).
Proof.
  intros Hlt Hv. unfold after_row. rewrite choose_pos_append by done. simpl.
  rewrite decide_False by lia. by destruct st.
Qed.

Lemma after_row_replace op batch i st :
  numToCollect_ op ≤ num_visited st →
  (uniform_int_distribution 0 (num_visited st) (RandGen st)).1 < numToCollect_ op →
  0 ≤ (uniform_int_distribution 0 (num_visited st) (RandGen st)).1 →
  after_row op batch i st =
    let draw := uniform_int_distribution 0 (num_visited st) (RandGen st) in
    set_num_visited (num_visited st + 1)
      (bind_slot op batch i draw.1
         (set_RESERVOIR
            (writeBlock draw.1 (block_at (DATA batch) i) (RESERVOIR st))
            (set_RandGen draw.2 st))).
Proof.
  intros Hge Hr Hr0. unfold after_row. rewrite choose_pos_draw by done. simpl.
  rewrite (decide_False (P := numToCollect_ op ≤ _)) by lia.
  by rewrite decide_False by lia.
Qed.

Lemma after_row_discard op batch i st :
  numToCollect_ op ≤ num_visited st →
  numToCollect_ op ≤ (uniform_int_distribution 0 (num_visited st) (RandGen st)).1 →
  after_row op batch i st =
    set_num_visited (num_visited st + 1)
      (set_RandGen (uniform_int_distribution 0 (num_visited st) (RandGen st)).2 st).
Proof.
  intros Hge Hr. unfold after_row. rewrite choose_pos_draw by done. simpl.
  rewrite (decide_True (P := numToCollect_ op ≤ _)) by lia.
  by rewrite decide_True by lia.
Qed.

(** C1.  A row that is not a duplicate, processed at visit count [v]
    (non-negative, as line 67 guarantees, and below INT64_MAX, so that the
    int64_t counter can be incremented) in a reservoir whose storage was
    reserved for the capacity and, with key tracking, an owner array that
    has a cell for every slot: if [v < capacity] its block is written to slot
    [v] and no draw is made; otherwise [r] is the draw of the distribution on
    [0, v], it lies in that interval, the block is written to slot [r] when
    [r < capacity] and nothing is written (reservoir and index are left as
    they are) when [r >= capacity].  In the three cases the row succeeds and
    the visit count becomes [v + 1]. *)
Theorem sample_row_append_replace_discard op batch i st :
  0 ≤ num_visited st →
  num_visited st < INT64_MAX →
  numToCollect_ op ≤ Z.of_nat (length (r_slots (RESERVOIR st))) →
  (key_tracking op = true →
   numToCollect_ op ≤ Z.of_nat (length (POS_TO_OBJECT st))) →
  already_in_pool op batch i st = false →
  ∃ st', sample_row op batch i st = (Done, st') ∧
    num_visited st' = num_visited st + 1 ∧
    let v := num_visited st in
    let blk := block_at (DATA batch) i in
    let draw := uniform_int_distribution 0 v (RandGen st) in
    let slots := r_slots (RESERVOIR st) in
    let slots' := r_slots (RESERVOIR st') in
    (v < numToCollect_ op →
       slots' = <[Z.to_nat v := Some blk]> slots ∧
       slots' !! Z.to_nat v = Some (Some blk) ∧
       RandGen st' = RandGen st) ∧
    (numToCollect_ op ≤ v →
       0 ≤ draw.1 ∧ draw.1 ≤ v ∧ RandGen st' = draw.2 ∧
       (draw.1 < numToCollect_ op →
          slots' = <[Z.to_nat draw.1 := Some blk]> slots ∧
          slots' !! Z.to_nat draw.1 = Some (Some blk)) ∧
       (numToCollect_ op ≤ draw.1 →
          RESERVOIR st' = RESERVOIR st ∧
          OBJECT_TO_POS_MAP st' = OBJECT_TO_POS_MAP st ∧
          POS_TO_OBJECT st' = POS_TO_OBJECT st)).
Proof.
  intros Hv _ Hres _ Hnew. exists (after_row op batch i st).
  split; [by apply sample_row_new|].
  split; [apply after_row_num_visited|].
  cbv zeta. split.
  - intros Hlt. rewrite after_row_append by done. simpl.
    rewrite bind_slot_RESERVOIR, bind_slot_RandGen. simpl.
    split_and!; [done| |done].
    apply list_lookup_insert_eq. lia.
  - intros Hge.
    pose proof (uniform_int_distribution_range 0 (num_visited st) (RandGen st) Hv)
      as [Hlo Hhi].
    split_and!; [done|done| | |].
    + destruct (decide (numToCollect_ op ≤
        (uniform_int_distribution 0 (num_visited st) (RandGen st)).1)).
      * by rewrite after_row_discard.
      * rewrite after_row_replace by lia. simpl. by rewrite bind_slot_RandGen.
    + intros Hr. rewrite after_row_replace by lia. simpl.
      rewrite bind_slot_RESERVOIR. simpl. split; [done|].
      apply list_lookup_insert_eq. lia.
    + intros Hr. rewrite after_row_discard by lia. by destruct st.
Qed.

End RowClaims.

(** ** The call as a whole *)

Section CallFacts.
Context {G : Type} `{RandGenerator G}.
Implicit Types (op : ReservoirSamplingOp) (batch : Batch) (st : State G).

Lemma countNewEntries_set_RESERVOIR op batch r st :
  countNewEntries op batch (set_RESERVOIR r st) = countNewEntries op batch st.
Proof. done. Qed.

Lemma countNewEntries_error op batch st e :
  countNewEntries op batch st = inl e → e = ShapeMismatch.
Proof.
  unfold countNewEntries. destruct (key_tracking op); [|done].
  case_decide; congruence.
Qed.

Lemma prepare_num_visited op batch n st :
  NUM_VISITED (prepare op batch n st) = NUM_VISITED st.
Proof. unfold prepare. repeat (case_decide || case_match); done. Qed.

Lemma prepare_OBJECT_TO_POS_MAP op batch n st :
  OBJECT_TO_POS_MAP (prepare op batch n st) = OBJECT_TO_POS_MAP st.
Proof. unfold prepare. repeat (case_decide || case_match); done. Qed.

Lemma prepare_POS_TO_OBJECT op batch n st :
  POS_TO_OBJECT (prepare op batch n st) = POS_TO_OBJECT st.
Proof. unfold prepare. repeat (case_decide || case_match); done. Qed.

Lemma prepare_RandGen op batch n st :
  RandGen (prepare op batch n st) = RandGen st.
Proof. unfold prepare. repeat (case_decide || case_match); done. Qed.

Lemma prepare_slots op batch n st :
  r_slots (RESERVOIR (prepare op batch n st)) =
  r_slots (Reserve (<[0%nat := numToCollect_ op]> (dims (DATA batch)))
                   (RESERVOIR st)).
Proof. unfold prepare. repeat (case_decide || case_match); done. Qed.

Lemma prepare_meta op batch n st :
  r_meta (RESERVOIR (prepare op batch n st)) = Some (meta (DATA batch)).
Proof. unfold prepare. repeat (case_decide || case_match); done. Qed.

Lemma prepare_dims op batch n st :
  r_dims (RESERVOIR (prepare op batch n st)) =
    if decide (output_batch_size (bool_decide (0 < r_size (RESERVOIR st)))
                                 (RESERVOIR st) < numToCollect_ op)
    then Some (grown_dims op (DATA batch)
                 (output_batch_size (bool_decide (0 < r_size (RESERVOIR st)))
                                    (RESERVOIR st)) n)
    else r_dims (RESERVOIR st).
Proof.
  unfold prepare. cbv zeta.
  change (output_batch_size (bool_decide (0 < r_size (RESERVOIR st)))
            (RESERVOIR (set_RESERVOIR _ st)))
    with (output_batch_size (bool_decide (0 < r_size (RESERVOIR st)))
            (RESERVOIR st)).
  destruct (decide (output_batch_size _ (RESERVOIR st) < numToCollect_ op)).
  - rewrite bool_decide_eq_true_2 by done. by destruct (key_tracking op).
  - rewrite bool_decide_eq_false_2 by done. by destruct (key_tracking op).
Qed.

(** A call that passes the checks runs the loop from [prepare] and ends
    with the sanity check of line 135. *)
Lemma RunOnDevice_valid op batch st n :
  valid_call op batch st →
  dim (dims (DATA batch)) 0 ≠ 0 →
  countNewEntries op batch st = inr n →
  RunOnDevice op batch st =
    match run_rows op batch (seqZ 0 (dim (dims (DATA batch)) 0))
                   (prepare op batch n st) with
    | (Done, st') =>
        if decide (num_visited st' = num_visited st + n)
        then (Done, st')
        else (EnforceNotMet InternalConsistencyFault, st')
    | failed => failed
    end.
Proof.
  intros (Hnd & Hshape & Hnv & Hv & Hids) Hne Hcount.
  unfold RunOnDevice, prepare.
  rewrite decide_False by lia.
  assert (Hsh : bool_decide (0 < r_size (RESERVOIR st)) &&
                negb (row_shape_matches (RESERVOIR st) (DATA batch)) = false).
  { case_bool_decide as Hinit; [|done]. by rewrite (Hshape Hinit). }
  rewrite Hsh. cbv zeta.
  rewrite decide_False by done.
  rewrite countNewEntries_set_RESERVOIR, Hcount.
  set (R := Reserve _ (RESERVOIR st)).
  set (bs := output_batch_size _ _).
  assert (Hchk : key_tracking op && negb (bool_decide (oid_ndim (OBJECT_ID batch) = 1))
                 = false ∧
                 key_tracking op &&
                 negb (bool_decide (oid_size (OBJECT_ID batch) =
                                    dim (dims (DATA batch)) 0)) = false).
  { destruct (key_tracking op); [|done]. destruct (Hids eq_refl) as [Hid1 Hid2].
    by rewrite !bool_decide_eq_true_2. }
  destruct Hchk as [Hchk1 Hchk2].
  destruct (decide (bs < numToCollect_ op)) as [Hlt|Hge]; cbn [set_RESERVOIR
    set_num_visited RESERVOIR NUM_VISITED num_visited nv_ndim nv_value].
  - rewrite (decide_False (P := nv_ndim _ ≠ 0)) by (by rewrite Hnv; intros []).
    rewrite !num_visited_set_RESERVOIR.
    rewrite (decide_False (P := _ < 0)) by lia.
    rewrite Hchk1, Hchk2. done.
  - rewrite (decide_False (P := nv_ndim _ ≠ 0)) by (by rewrite Hnv; intros []).
    rewrite !num_visited_set_RESERVOIR.
    rewrite (decide_False (P := _ < 0)) by lia.
    rewrite Hchk1, Hchk2. done.
Qed.

End CallFacts.

(** ** Validation *)

Section Validation.
Context {G : Type} `{RandGenerator G}.
Implicit Types (op : ReservoirSamplingOp) (batch : Batch) (st : State G).

Lemma no_row_processed_refl st : no_row_processed st st.
Proof. repeat split. exists 0%nat. simpl. by rewrite app_nil_r. Qed.

Lemma no_row_processed_reserved op batch st :
  no_row_processed st
    (set_RESERVOIR
       (Reserve (<[0%nat := numToCollect_ op]> (dims (DATA batch))) (RESERVOIR st))
       st).
Proof. repeat split. simpl. eauto. Qed.

Lemma no_row_processed_prepare op batch n st :
  no_row_processed st (prepare op batch n st).
Proof.
  unfold no_row_processed.
  rewrite prepare_num_visited, prepare_OBJECT_TO_POS_MAP, prepare_POS_TO_OBJECT,
    prepare_RandGen, prepare_slots.
  repeat split. simpl. eauto.
Qed.

Lemma run_rows_not_validation op batch rows st e st' :
  run_rows op batch rows st = (EnforceNotMet e, st') → e = InternalConsistencyFault.
Proof.
  revert st. induction rows as [|i rows IH]; intros st; simpl; [done|].
  destruct (sample_row op batch i st) as [[|e0] st0] eqn:Hrow; [by eauto|].
  intros [= -> ->]. unfold sample_row in Hrow.
  repeat (case_match || case_decide); by simplify_eq.
Qed.

(** The state in which a call that throws before the loop stops: the one
    before the call, after [Reserve], or [prepare] of it. *)
Lemma RunOnDevice_validation_failure op batch st e st' :
  RunOnDevice op batch st = (EnforceNotMet e, st') →
  e ≠ InternalConsistencyFault →
  no_row_processed st st' ∧
  (e = SizeMismatch →
   key_tracking op = true ∧
   oid_size (OBJECT_ID batch) ≠ dim (dims (DATA batch)) 0 ∧
   ∃ n, countNewEntries op batch st = inr n ∧ st' = prepare op batch n st).
Proof.
  unfold RunOnDevice. intros Hrun Hne.
  case_decide; [simplify_eq; split; [apply no_row_processed_refl|done]|].
  case_match; [simplify_eq; split; [apply no_row_processed_refl|done]|].
  cbv zeta in Hrun.
  case_decide; [done|].
  rewrite countNewEntries_set_RESERVOIR in Hrun.
  destruct (countNewEntries op batch st) as [e0|n] eqn:Hcount.
  { simplify_eq. split; [apply no_row_processed_reserved|].
    intros ->. unfold countNewEntries in Hcount.
    repeat (case_match || case_decide); by simplify_eq. }
  assert (Hprep : ∀ st0, no_row_processed st st0 →
            no_row_processed st (set_RESERVOIR
              (raw_mutable_data (meta (DATA batch)) (RESERVOIR st0)) st0)).
  { intros st0 (?&?&?&?&?). by repeat split. }
  assert (Hres : ∀ d st0, no_row_processed st st0 →
            no_row_processed st (set_RESERVOIR (Resize d (RESERVOIR st0)) st0)).
  { intros d st0 (?&?&?&?&?). by repeat split. }
  pose proof (no_row_processed_reserved op batch st) as Hr.
  revert Hrun. fold (prepare op batch n st). unfold prepare.
  set (R := Reserve _ (RESERVOIR st)) in *.
  set (bs := output_batch_size _ _).
  set (st1 := if decide (bs < numToCollect_ op) then _ else _).
  assert (Hst1 : no_row_processed st st1).
  { subst st1. destruct (decide (bs < numToCollect_ op));
      [by apply (Hres _ (set_RESERVOIR R st))|done]. }
  set (st2 := set_RESERVOIR (raw_mutable_data _ (RESERVOIR st1)) st1).
  assert (Hst2 : no_row_processed st st2) by by apply Hprep.
  intros Hrun.
  case_decide; [simplify_eq; by split|].
  case_decide; [simplify_eq; by split|].
  set (st3 := if key_tracking op && bool_decide (bs < numToCollect_ op)
              then _ else _) in *.
  assert (Hst3 : no_row_processed st st3).
  { subst st3. destruct (key_tracking op && bool_decide (bs < numToCollect_ op));
      [by apply (Hres _ st2)|done]. }
  case_match eqn:Hc1; [simplify_eq; by split|].
  case_match eqn:Hc2.
  { simplify_eq. split; [done|]. intros _.
    apply andb_true_iff in Hc2 as [Hk Hsz]. apply negb_true_iff in Hsz.
    apply bool_decide_eq_false in Hsz. split_and!; [done|done|]. by exists n. }
  destruct (run_rows op batch _ st3) as [[|e1] st4] eqn:Hrows.
  - case_decide; by simplify_eq.
  - simplify_eq. by apply run_rows_not_validation in Hrows.
Qed.

End Validation.

Section ValidationClaims.
Context {G : Type} `{RandGenerator G}.
Implicit Types (op : ReservoirSamplingOp) (batch : Batch) (st : State G).

Lemma dim_0_nonzero_ndim (d : list Z) : dim d 0 ≠ 0 → 1 ≤ Z.of_nat (length d).
Proof.
  destruct d as [|x d]; [intros Hd; exfalso; apply Hd; reflexivity|].
  simpl. lia.
Qed.

(** C7 (as amended).  For a batch with at least one row, the length of
    the id vector is checked (line 87) after the checks of the row shape,
    of the rank of the id vector and of the counter, after countNewEntries
    has run and after the reservoir has been resized, and before any row is
    processed: a call with an id vector of another length than the number
    of rows fails with SizeMismatch in the state [prepare] builds, so
    counter, index, generator and the content of every slot are those
    before the call, while the shape and the element type of the reservoir
    are already the resized ones.  A batch of zero rows succeeds without the
    id vector being looked at.  No other check fails with SizeMismatch. *)
Theorem size_mismatch_after_resize_before_rows op batch st :
  (key_tracking op = true →
   oid_size (OBJECT_ID batch) ≠ dim (dims (DATA batch)) 0 →
   dim (dims (DATA batch)) 0 ≠ 0 →
   (0 < r_size (RESERVOIR st) →
    row_shape_matches (RESERVOIR st) (DATA batch) = true) →
   oid_ndim (OBJECT_ID batch) = 1 →
   nv_ndim (NUM_VISITED st) = 0 → 0 ≤ num_visited st →
   ∃ n, countNewEntries op batch st = inr n ∧
        RunOnDevice op batch st
          = (EnforceNotMet SizeMismatch, prepare op batch n st) ∧
        no_row_processed st (prepare op batch n st) ∧
        r_meta (RESERVOIR (prepare op batch n st)) = Some (meta (DATA batch)) ∧
        r_dims (RESERVOIR (prepare op batch n st)) =
          if decide (output_batch_size (bool_decide (0 < r_size (RESERVOIR st)))
                                       (RESERVOIR st) < numToCollect_ op)
          then Some (grown_dims op (DATA batch)
                       (output_batch_size
                          (bool_decide (0 < r_size (RESERVOIR st)))
                          (RESERVOIR st)) n)
          else r_dims (RESERVOIR st)) ∧
  (1 ≤ ndim (DATA batch) →
   dim (dims (DATA batch)) 0 = 0 →
   (0 < r_size (RESERVOIR st) →
    row_shape_matches (RESERVOIR st) (DATA batch) = true) →
   (RunOnDevice op batch st).1 = Done) ∧
  (∀ st', RunOnDevice op batch st = (EnforceNotMet SizeMismatch, st') →
     key_tracking op = true ∧
     oid_size (OBJECT_ID batch) ≠ dim (dims (DATA batch)) 0 ∧
     dim (dims (DATA batch)) 0 ≠ 0 ∧
     (∃ n, countNewEntries op batch st = inr n ∧ st' = prepare op batch n st) ∧
     no_row_processed st st').
Proof.
  split_and!.
  - intros Hk Hneq Hne Hshape Hid1 Hnv Hv.
    pose proof (dim_0_nonzero_ndim _ Hne) as Hnd.
    assert (Hsh : bool_decide (0 < r_size (RESERVOIR st)) &&
                  negb (row_shape_matches (RESERVOIR st) (DATA batch)) = false).
    { case_bool_decide as Hinit; [|done]. by rewrite (Hshape Hinit). }
    assert (Hcount : ∃ n, countNewEntries op batch st = inr n).
    { unfold countNewEntries. rewrite Hk, decide_True by done. eauto. }
    destruct Hcount as [n Hcount]. exists n.
    split_and!; [done| |apply no_row_processed_prepare|apply prepare_meta
                |apply prepare_dims].
    unfold RunOnDevice, prepare.
    rewrite decide_False by (unfold ndim; lia). rewrite Hsh. cbv zeta.
    rewrite decide_False by done.
    rewrite countNewEntries_set_RESERVOIR, Hcount.
    set (R := Reserve _ (RESERVOIR st)).
    set (bs := output_batch_size _ _).
    rewrite Hk. cbn [andb].
    rewrite (bool_decide_eq_true_2 (oid_ndim (OBJECT_ID batch) = 1)) by done.
    rewrite (bool_decide_eq_false_2 (oid_size (OBJECT_ID batch) = _)) by done.
    cbn [negb].
    destruct (decide (bs < numToCollect_ op)) as [Hlt|Hge]; cbn [set_RESERVOIR
      set_num_visited RESERVOIR NUM_VISITED num_visited nv_ndim nv_value].
    + rewrite (decide_False (P := nv_ndim _ ≠ 0)) by (by rewrite Hnv; intros []).
      rewrite !num_visited_set_RESERVOIR.
      by rewrite (decide_False (P := _ < 0)) by lia.
    + rewrite (decide_False (P := nv_ndim _ ≠ 0)) by (by rewrite Hnv; intros []).
      rewrite !num_visited_set_RESERVOIR.
      by rewrite (decide_False (P := _ < 0)) by lia.
  - intros Hnd Hzero Hshape. unfold RunOnDevice.
    assert (Hsh : bool_decide (0 < r_size (RESERVOIR st)) &&
                  negb (row_shape_matches (RESERVOIR st) (DATA batch)) = false).
    { case_bool_decide as Hinit; [|done]. by rewrite (Hshape Hinit). }
    rewrite decide_False by lia. rewrite Hsh. cbv zeta.
    by rewrite decide_True by done.
  - intros st' Hrun.
    destruct (RunOnDevice_validation_failure op batch st _ st' Hrun)
      as [Hno Hsz]; [done|].
    destruct (Hsz eq_refl) as (Hk & Hneq & Hprep). split_and!; [done..| |done|done].
    intros Hzero. revert Hrun. unfold RunOnDevice.
    case_decide; [done|]. destruct (_ && _); [done|].
    cbv zeta. by rewrite decide_True.
Qed.

(** C8 (as amended).  For a batch with at least one row: when NUM_VISITED
    is not a scalar the call fails with ShapeMismatch; when it is a scalar
    holding a negative count, and the row-shape check and the check that the
    id input is a vector pass, the call fails with ConfigurationError; in
    both cases no row has been processed.  A batch of zero rows that passes
    the row-shape check succeeds whatever NUM_VISITED is. *)
Theorem nonempty_batch_checks_counter op batch st :
  (dim (dims (DATA batch)) 0 ≠ 0 →
   nv_ndim (NUM_VISITED st) ≠ 0 →
   ∃ st', RunOnDevice op batch st = (EnforceNotMet ShapeMismatch, st') ∧
          no_row_processed st st') ∧
  ((0 < r_size (RESERVOIR st) →
    row_shape_matches (RESERVOIR st) (DATA batch) = true) →
   (dim (dims (DATA batch)) 0 ≠ 0 →
    (key_tracking op = true → oid_ndim (OBJECT_ID batch) = 1) →
    nv_ndim (NUM_VISITED st) = 0 → num_visited st < 0 →
    ∃ st', RunOnDevice op batch st = (EnforceNotMet ConfigurationError, st') ∧
           no_row_processed st st') ∧
   (1 ≤ ndim (DATA batch) → dim (dims (DATA batch)) 0 = 0 →
    (RunOnDevice op batch st).1 = Done)).
Proof.
  split.
  - intros Hne Hnv.
    destruct (RunOnDevice op batch st) as [o st'] eqn:Hrun. exists st'.
    pose proof (dim_0_nonzero_ndim _ Hne) as Hnd.
    revert Hrun. unfold RunOnDevice.
    rewrite decide_False by (unfold ndim; lia).
    destruct (bool_decide (0 < r_size (RESERVOIR st)) &&
              negb (row_shape_matches (RESERVOIR st) (DATA batch))).
    { intros [= <- <-]. split; [done|apply no_row_processed_refl]. }
    cbv zeta.
    rewrite decide_False by done. rewrite countNewEntries_set_RESERVOIR.
    destruct (countNewEntries op batch st) as [e0|n] eqn:Hcount.
    { intros [= <- <-]. apply countNewEntries_error in Hcount as ->.
      split; [done|apply no_row_processed_reserved]. }
    set (R := Reserve _ (RESERVOIR st)).
    set (bs := output_batch_size _ _).
    destruct (decide (bs < numToCollect_ op)); simpl;
      (rewrite decide_True by done); intros [= <- <-];
      (split; [done|]); repeat split; simpl; eauto.
  - intros Hshape.
    assert (Hsh : bool_decide (0 < r_size (RESERVOIR st)) &&
                  negb (row_shape_matches (RESERVOIR st) (DATA batch)) = false).
    { case_bool_decide as Hinit; [|done]. by rewrite (Hshape Hinit). }
    split.
    + intros Hne Hids Hnv Hneg.
      pose proof (dim_0_nonzero_ndim _ Hne) as Hnd.
      unfold RunOnDevice.
      rewrite decide_False by (unfold ndim; lia). rewrite Hsh. cbv zeta.
      rewrite decide_False by done. rewrite countNewEntries_set_RESERVOIR.
      assert (Hcount : ∃ n, countNewEntries op batch st = inr n).
      { unfold countNewEntries. destruct (key_tracking op); [|by eauto].
        rewrite decide_True by auto. by eauto. }
      destruct Hcount as [n ->].
      set (R := Reserve _ (RESERVOIR st)).
      set (bs := output_batch_size _ _).
      destruct (decide (bs < numToCollect_ op)); simpl;
        (rewrite decide_False by (by rewrite Hnv; intros []));
        rewrite !num_visited_set_RESERVOIR;
        (rewrite decide_True by done);
        eexists; (split; [done|]); repeat split; simpl; eauto.
    + intros Hnd Hzero. unfold RunOnDevice.
      rewrite decide_False by lia. rewrite Hsh. cbv zeta.
      by rewrite decide_True by done.
Qed.

(** C9.  A batch of zero rows on a reservoir that was never initialised
    (its size is not positive) succeeds; the reservoir takes the shape of
    the batch (so zero occupied rows) and its element type; no block is
    written (the storage is the old one followed by reserved, unwritten
    slots); counter, index and generator are untouched, so a visit count of
    0 stays 0. *)
Theorem empty_batch_on_empty_reservoir op batch st :
  1 ≤ ndim (DATA batch) →
  dim (dims (DATA batch)) 0 = 0 →
  ¬ 0 < r_size (RESERVOIR st) →
  ∃ st', RunOnDevice op batch st = (Done, st') ∧
    r_dims (RESERVOIR st') = Some (dims (DATA batch)) ∧
    r_meta (RESERVOIR st') = Some (meta (DATA batch)) ∧
    occupied_size st' = 0 ∧
    no_row_processed st st' ∧
    (num_visited st = 0 → num_visited st' = 0).
Proof.
  intros Hnd Hzero Hinit. unfold RunOnDevice.
  rewrite decide_False by lia.
  rewrite (bool_decide_eq_false_2 _ Hinit). simpl.
  rewrite decide_True by done.
  eexists. split; [done|]. unfold occupied_size, r_dim. simpl.
  split_and!; try done.
  repeat split. simpl. eauto.
Qed.

End ValidationClaims.

(** C7 (as stated) fails: the id vector of [mismatched_batch] has two cells
    for one row; the call fails with SizeMismatch after the reservoir, which
    held no row, has been resized to two rows. *)
Lemma size_mismatch_resizes_reservoir :
  (RunOnDevice (tracking_op 2) mismatched_batch (initial_state 2 [])).1
    = EnforceNotMet SizeMismatch ∧
  occupied_size (initial_state 2 []) = 0 ∧
  occupied_size
    (RunOnDevice (tracking_op 2) mismatched_batch (initial_state 2 [])).2 = 2.
Proof. by vm_compute. Qed.

Lemma size_mismatch_after_resize_before_rows_witness :
  ∃ n, countNewEntries (tracking_op 2) mismatched_batch (initial_state 2 [])
         = inr n ∧
       RunOnDevice (tracking_op 2) mismatched_batch (initial_state 2 [])
         = (EnforceNotMet SizeMismatch,
            prepare (tracking_op 2) mismatched_batch n (initial_state 2 [])) ∧
       no_row_processed (initial_state 2 [])
         (prepare (tracking_op 2) mismatched_batch n (initial_state 2 [])).
Proof.
  destruct (size_mismatch_after_resize_before_rows (tracking_op 2)
              mismatched_batch (initial_state 2 [])) as (Hfail & _ & _).
  destruct Hfail as (n & Hcount & Hrun & Hno & _).
  - reflexivity.
  - vm_compute. intros [=].
  - vm_compute. intros [=].
  - vm_compute. intros [=].
  - reflexivity.
  - reflexivity.
  - vm_compute. intros [=].
  - exists n. split_and!; [exact Hcount|exact Hrun|exact Hno].
Defined.

(** C8 (as stated) fails for a batch of zero rows: the call returns at line
    47, before NUM_VISITED is looked at, be it negative or not a scalar. *)
Lemma empty_batch_skips_counter_checks :
  (RunOnDevice (plain_op 2) empty_batch
     (with_counter {| nv_ndim := 0; nv_value := -1 |} (initial_state 2 []))).1
    = Done ∧
  (RunOnDevice (plain_op 2) empty_batch
     (with_counter {| nv_ndim := 1; nv_value := 0 |} (initial_state 2 []))).1
    = Done.
Proof. by vm_compute. Qed.

Lemma nonempty_batch_checks_counter_witness :
  (∃ st', RunOnDevice (tracking_op 2) (byte_batch ["001"%byte] [5])
            (with_counter {| nv_ndim := 1; nv_value := 0 |} (initial_state 2 []))
          = (EnforceNotMet ShapeMismatch, st') ∧
          no_row_processed
            (with_counter {| nv_ndim := 1; nv_value := 0 |} (initial_state 2 []))
            st') ∧
  (∃ st', RunOnDevice (tracking_op 2) (byte_batch ["001"%byte] [5])
            (with_counter {| nv_ndim := 0; nv_value := -1 |} (initial_state 2 []))
          = (EnforceNotMet ConfigurationError, st') ∧
          no_row_processed
            (with_counter {| nv_ndim := 0; nv_value := -1 |} (initial_state 2 []))
            st') ∧
  (RunOnDevice (tracking_op 2) empty_batch
     (with_counter {| nv_ndim := 0; nv_value := -1 |} (initial_state 2 []))).1
    = Done.
Proof.
  split_and!.
  - apply (nonempty_batch_checks_counter (tracking_op 2)
             (byte_batch ["001"%byte] [5])
             (with_counter {| nv_ndim := 1; nv_value := 0 |} (initial_state 2 []))).
    + vm_compute. intros [=].
    + vm_compute. intros [=].
  - apply (nonempty_batch_checks_counter (tracking_op 2)
             (byte_batch ["001"%byte] [5])
             (with_counter {| nv_ndim := 0; nv_value := -1 |} (initial_state 2 []))).
    + vm_compute. intros [=].
    + vm_compute. intros [=].
    + reflexivity.
    + reflexivity.
    + vm_compute. reflexivity.
  - apply (nonempty_batch_checks_counter (tracking_op 2) empty_batch
             (with_counter {| nv_ndim := 0; nv_value := -1 |} (initial_state 2 []))).
    + vm_compute. intros [=].
    + vm_compute. intros [=].
    + reflexivity.
Defined.

Lemma empty_batch_on_empty_reservoir_witness :
  ∃ st', RunOnDevice (tracking_op 2) empty_batch (initial_state 2 []) = (Done, st') ∧
    r_dims (RESERVOIR st') = Some (dims (DATA empty_batch)) ∧
    r_meta (RESERVOIR st') = Some (meta (DATA empty_batch)) ∧
    occupied_size st' = 0 ∧
    no_row_processed (initial_state 2 []) st' ∧
    (num_visited (initial_state 2 []) = 0 → num_visited st' = 0).
Proof.
  apply (empty_batch_on_empty_reservoir (tracking_op 2) empty_batch
           (initial_state 2 [])).
  - vm_compute. intros [=].
  - reflexivity.
  - vm_compute. intros [=].
Defined.

(** ** Rows whose key is in the pool *)

Section KnownKeys.
Context {G : Type} `{RandGenerator G}.
Implicit Types (op : ReservoirSamplingOp) (batch : Batch) (st : State G).

Lemma run_rows_all_in_pool op batch rows st :
  Forall (λ i, already_in_pool op batch i st = true) rows →
  run_rows op batch rows st = (Done, st).
Proof.
  induction 1 as [|i rows Hi _ IH]; [done|].
  simpl. by rewrite sample_row_in_pool.
Qed.

Lemma count_absent_all_present (m : gmap Z Z) (ids : list Z) :
  Forall (λ k, is_Some (m !! k)) ids → count_absent m ids = 0.
Proof.
  unfold count_absent. induction 1 as [|k ids [v Hk] _ IH]; [done|].
  rewrite filter_cons_False; [done|]. by rewrite Hk.
Qed.

Lemma cell_lookup (p : list Z) (i : Z) (x : Z) :
  p !! Z.to_nat i = Some x → cell p i = x.
Proof. intros Hx. unfold cell. by rewrite Hx. Qed.

Lemma cell_elem_of (p : list Z) (i : Z) :
  0 ≤ i → i < Z.of_nat (length p) → cell p i ∈ p.
Proof.
  intros H0 Hlt. destruct (lookup_lt_is_Some_2 p (Z.to_nat i)) as [x Hx]; [lia|].
  rewrite (cell_lookup p i x Hx). by eapply list_elem_of_lookup_2.
Qed.

(** With key tracking, a row whose key is in OBJECT_TO_POS_MAP when the
    row is processed is skipped: the row succeeds and the whole state (visit
    count, reservoir, map, owner array, generator) is the one before it.
    Hence a valid call whose rows all carry keys that the map holds
    succeeds and leaves counter, index, generator and the content of every
    slot as they were. *)
Lemma known_key_row_is_skipped op batch st :
  key_tracking op = true →
  (∀ i, is_Some (OBJECT_TO_POS_MAP st !! cell (oid_data (OBJECT_ID batch)) i) →
        sample_row op batch i st = (Done, st)) ∧
  (valid_call op batch st →
   dim (dims (DATA batch)) 0 ≠ 0 →
   Forall (λ k, is_Some (OBJECT_TO_POS_MAP st !! k)) (oid_data (OBJECT_ID batch)) →
   ∃ st', RunOnDevice op batch st = (Done, st') ∧ no_row_processed st st').
Proof.
  intros Hk. split.
  - intros i Hin. apply sample_row_in_pool. unfold already_in_pool.
    rewrite Hk. simpl. by apply bool_decide_eq_true.
  - intros Hvalid Hne Hall.
    assert (Hcount : countNewEntries op batch st = inr 0).
    { unfold countNewEntries. rewrite Hk.
      destruct Hvalid as (_ & _ & _ & _ & Hids).
      destruct (Hids Hk) as [Hid1 _]. rewrite decide_True by done.
      by rewrite count_absent_all_present. }
    rewrite (RunOnDevice_valid op batch st 0 Hvalid Hne Hcount).
    rewrite run_rows_all_in_pool.
    + rewrite decide_True
        by (unfold num_visited; rewrite prepare_num_visited; lia).
      eexists. split; [done|]. apply no_row_processed_prepare.
    + destruct Hvalid as (_ & _ & _ & _ & Hids).
      destruct (Hids Hk) as [_ Hsize].
      apply Forall_forall. intros i Hi. apply elem_of_seqZ in Hi.
      unfold already_in_pool. rewrite Hk. simpl. apply bool_decide_eq_true.
      rewrite prepare_OBJECT_TO_POS_MAP.
      eapply (proj1 (Forall_forall _ _) Hall).
      apply cell_elem_of; [lia|]. unfold oid_size in Hsize. lia.
Qed.

End KnownKeys.

Lemma sample_row_append_replace_discard_witness :
  ∃ st', sample_row (tracking_op 2)
           (byte_batch ["001"; "002"; "003"]%byte [4; 5; 7]) 2
           (set_num_visited 2
              (prepare (tracking_op 2)
                 (byte_batch ["001"; "002"; "003"]%byte [4; 5; 7]) 3
                 (initial_state 2 [1]))) = (Done, st') ∧
    num_visited st' = 2 + 1 ∧
    r_slots (RESERVOIR st') !! 1%nat = Some (Some ["003"%byte]) ∧
    RandGen st' = [].
Proof.
  destruct (sample_row_append_replace_discard (tracking_op 2)
              (byte_batch ["001"; "002"; "003"]%byte [4; 5; 7]) 2
              (set_num_visited 2
                 (prepare (tracking_op 2)
                    (byte_batch ["001"; "002"; "003"]%byte [4; 5; 7]) 3
                    (initial_state 2 [1]))))
    as (st' & Hrow & Hcount & _ & Hdraw).
  - vm_compute. intros [=].
  - reflexivity.
  - vm_compute. intros [=].
  - intros _. vm_compute. intros [=].
  - reflexivity.
  - exists st'. split; [exact Hrow|]. split; [exact Hcount|].
    destruct Hdraw as (_ & _ & Hgen & Hreplace & _).
    + vm_compute. intros [=].
    + split; [|exact Hgen]. apply Hreplace. vm_compute. reflexivity.
Defined.

(** ** Writes stay inside the capacity *)

Section Frame.
Context {G : Type} `{RandGenerator G}.
Implicit Types (op : ReservoirSamplingOp) (batch : Batch) (st : State G).

Lemma sample_row_frame op batch i st (s : nat) :
  (choose_pos op st).1 < 0 ∨ Z.of_nat s ≠ (choose_pos op st).1 →
  r_slots (RESERVOIR (sample_row op batch i st).2) !! s
    = r_slots (RESERVOIR st) !! s ∧
  POS_TO_OBJECT (sample_row op batch i st).2 !! s = POS_TO_OBJECT st !! s.
Proof.
  intros Hs. unfold sample_row.
  destruct (already_in_pool op batch i st); [done|].
  destruct (choose_pos op st) as [pos g]. simpl in Hs.
  destruct (decide (pos < 0)) as [Hneg|Hpos].
  - by case_decide.
  - destruct Hs as [?|Hs]; [lia|].
    cbn [snd RESERVOIR POS_TO_OBJECT set_num_visited].
    rewrite bind_slot_RESERVOIR. unfold bind_slot.
    destruct (binds_owners op _); simpl;
      rewrite ?list_lookup_insert_ne by lia; done.
Qed.

Lemma choose_pos_below_capacity op st :
  (choose_pos op st).1 < 0 ∨ (choose_pos op st).1 < numToCollect_ op.
Proof.
  unfold choose_pos. case_decide; simpl; [by right|].
  destruct (uniform_int_distribution 0 (num_visited st) (RandGen st)) as [r g].
  simpl. case_decide; [left|right]; lia.
Qed.

Lemma sample_row_frame_capacity op batch i st (s : nat) :
  numToCollect_ op ≤ Z.of_nat s →
  r_slots (RESERVOIR (sample_row op batch i st).2) !! s
    = r_slots (RESERVOIR st) !! s ∧
  POS_TO_OBJECT (sample_row op batch i st).2 !! s = POS_TO_OBJECT st !! s.
Proof.
  intros Hs. apply sample_row_frame.
  destruct (choose_pos_below_capacity op st); [by left|right; lia].
Qed.

Lemma run_rows_frame_capacity op batch rows st (s : nat) :
  numToCollect_ op ≤ Z.of_nat s →
  r_slots (RESERVOIR (run_rows op batch rows st).2) !! s
    = r_slots (RESERVOIR st) !! s ∧
  POS_TO_OBJECT (run_rows op batch rows st).2 !! s = POS_TO_OBJECT st !! s.
Proof.
  intros Hs. revert st. induction rows as [|i rows IH]; intros st; [done|].
  simpl. pose proof (sample_row_frame_capacity op batch i st s Hs) as [Hr Hp].
  destruct (sample_row op batch i st) as [[|e] st1]; simpl in *.
  - destruct (IH st1) as [-> ->]. done.
  - done.
Qed.

Lemma Reserve_frame_capacity (d : list Z) (r : Reservoir) (s : nat) :
  dim d 0 ≤ Z.of_nat s →
  r_slots (Reserve d r) !! s = r_slots r !! s.
Proof.
  intros Hs. unfold Reserve. simpl.
  destruct (decide (s < length (r_slots r))%nat) as [Hlt|Hge].
  - by rewrite lookup_app_l.
  - rewrite lookup_app_r by lia. rewrite (lookup_ge_None_2 (r_slots r)) by lia.
    apply lookup_ge_None_2. rewrite length_replicate. lia.
Qed.

Lemma dim_insert_0 (d : list Z) (x : Z) :
  d ≠ [] → dim (<[0%nat := x]> d) 0 = x.
Proof. by destruct d. Qed.

(** Where a call can stop: before the loop, with the storage of the state
    or the reserved one, or in the state the loop returns. *)
Lemma RunOnDevice_cases op batch st :
  ∃ st0,
    NUM_VISITED st0 = NUM_VISITED st ∧
    OBJECT_TO_POS_MAP st0 = OBJECT_TO_POS_MAP st ∧
    POS_TO_OBJECT st0 = POS_TO_OBJECT st ∧
    RandGen st0 = RandGen st ∧
    (r_slots (RESERVOIR st0) = r_slots (RESERVOIR st) ∨
     (1 ≤ ndim (DATA batch) ∧
      r_slots (RESERVOIR st0) =
      r_slots (Reserve (<[0%nat := numToCollect_ op]> (dims (DATA batch)))
                       (RESERVOIR st)))) ∧
    ((RunOnDevice op batch st).2 = st0 ∨
     (RunOnDevice op batch st).2 =
       (run_rows op batch (seqZ 0 (dim (dims (DATA batch)) 0)) st0).2).
Proof.
  unfold RunOnDevice.
  case_decide as Hnd; [exists st; by repeat split; auto|].
  destruct (_ && _); [exists st; by repeat split; auto|].
  cbv zeta.
  destruct (decide (dim (dims (DATA batch)) 0 = 0)) as [Hzero|Hnz].
  { eexists. split_and!; [..|left; reflexivity]; try by destruct (bool_decide _).
    right. split; [lia|]. by destruct (bool_decide _). }
  rewrite countNewEntries_set_RESERVOIR.
  destruct (countNewEntries op batch st) as [e0|cnt].
  { eexists. split_and!; [..|left; reflexivity]; try done. right. split; [lia|done]. }
  set (R := Reserve _ (RESERVOIR st)).
  set (bs := output_batch_size _ _).
  set (st1 := if decide (bs < numToCollect_ op) then _ else _).
  assert (Hst1 : NUM_VISITED st1 = NUM_VISITED st ∧
                 OBJECT_TO_POS_MAP st1 = OBJECT_TO_POS_MAP st ∧
                 POS_TO_OBJECT st1 = POS_TO_OBJECT st ∧
                 RandGen st1 = RandGen st ∧
                 r_slots (RESERVOIR st1) = r_slots R).
  { subst st1. by destruct (decide (bs < numToCollect_ op)). }
  destruct Hst1 as (Hn1 & Hm1 & Hp1 & Hg1 & Hs1).
  set (st2 := set_RESERVOIR (raw_mutable_data _ (RESERVOIR st1)) st1).
  case_decide.
  { exists st2. split_and!; [done..| |by left]. right. split; [lia|done]. }
  case_decide.
  { exists st2. split_and!; [done..| |by left]. right. split; [lia|done]. }
  set (st3 := if key_tracking op && bool_decide (bs < numToCollect_ op)
              then _ else _).
  assert (Hst3 : NUM_VISITED st3 = NUM_VISITED st ∧
                 OBJECT_TO_POS_MAP st3 = OBJECT_TO_POS_MAP st ∧
                 POS_TO_OBJECT st3 = POS_TO_OBJECT st ∧
                 RandGen st3 = RandGen st ∧
                 r_slots (RESERVOIR st3) = r_slots R).
  { subst st3. by destruct (key_tracking op && bool_decide (bs < numToCollect_ op)). }
  destruct Hst3 as (Hn3 & Hm3 & Hp3 & Hg3 & Hs3).
  exists st3. split_and!; [done..| |].
  { right. split; [lia|done]. }
  destruct (key_tracking op && negb (bool_decide (oid_ndim _ = 1))); [by left|].
  destruct (key_tracking op && negb (bool_decide (oid_size _ = _))); [by left|].
  right. destruct (run_rows op batch _ st3) as [[|e1] st4]; [|done].
  by destruct (decide (num_visited st4 = _)).
Qed.

Lemma sample_row_lengths op batch i st :
  length (r_slots (RESERVOIR (sample_row op batch i st).2))
    = length (r_slots (RESERVOIR st)) ∧
  length (POS_TO_OBJECT (sample_row op batch i st).2)
    = length (POS_TO_OBJECT st).
Proof.
  unfold sample_row. destruct (already_in_pool op batch i st); [done|].
  destruct (choose_pos op st) as [pos g].
  destruct (decide (pos < 0)); [by case_decide|].
  cbn [snd set_num_visited RESERVOIR POS_TO_OBJECT].
  rewrite bind_slot_RESERVOIR. cbn [writeBlock r_slots RESERVOIR set_RESERVOIR].
  rewrite length_insert. split; [done|].
  unfold bind_slot. destruct (binds_owners op _); [|done].
  cbn. by rewrite length_insert.
Qed.

Lemma copy_target_in_capacity op batch i st (pos : Z) :
  copy_target op batch i st = Some pos → 0 ≤ pos ∧ pos < numToCollect_ op.
Proof.
  unfold copy_target. destruct (already_in_pool op batch i st); [done|].
  pose proof (choose_pos_below_capacity op st) as Hcap. cbv zeta.
  destruct (decide ((choose_pos op st).1 < 0)); [done|].
  intros [= <-]. lia.
Qed.

Lemma owner_target_copy_target op batch i st (pos : Z) :
  owner_target op batch i st = Some pos →
  copy_target op batch i st = Some pos ∧ binds_owners op st = true.
Proof. unfold owner_target. by destruct (binds_owners op st). Qed.

Lemma sample_row_frame_target op batch i st (s : nat) :
  copy_target op batch i st ≠ Some (Z.of_nat s) →
  r_slots (RESERVOIR (sample_row op batch i st).2) !! s
    = r_slots (RESERVOIR st) !! s ∧
  POS_TO_OBJECT (sample_row op batch i st).2 !! s = POS_TO_OBJECT st !! s.
Proof.
  unfold copy_target. intros Hs.
  destruct (already_in_pool op batch i st) eqn:Hin.
  { by rewrite sample_row_in_pool. }
  apply sample_row_frame. cbv zeta in Hs.
  destruct (decide ((choose_pos op st).1 < 0)); [by left|].
  right. intros Heq. apply Hs. by rewrite Heq.
Qed.

(** The targets of the loop lie in [0, capacity), in a storage and an owner
    array that keep their lengths. *)
Lemma loop_targets_in_capacity op batch rows st :
  Forall (λ t, (∀ pos, t.1 = Some pos → 0 ≤ pos ∧ pos < numToCollect_ op) ∧
               (∀ pos, t.2 = Some pos →
                  t.1 = Some pos ∧ key_tracking op = true))
         (loop_targets op batch rows st).
Proof.
  revert st. induction rows as [|i rows IH]; intros st; [constructor|].
  cbn [loop_targets]. constructor.
  - split; cbn [fst snd]; intros pos Hpos.
    + by eapply copy_target_in_capacity.
    + apply owner_target_copy_target in Hpos as [? Hb].
      by apply binds_owners_inv in Hb as [? _].
  - destruct (sample_row op batch i st) as [[|e] st1]; [apply IH|constructor].
Qed.


End Frame.


(** ** Streams of rows with new keys *)

Lemma reserve_num_visited {G} (op : ReservoirSamplingOp) (st : State G) :
  num_visited (reserve op st) = num_visited st.
Proof. done. Qed.

(** Goals on the visit count of a state that was only reserved. *)
Ltac reserved_count := rewrite ?reserve_num_visited; lia.

Section Stream.
Context {G : Type} `{RandGenerator G}.
Implicit Types (op : ReservoirSamplingOp) (batch : Batch) (st : State G).
Implicit Types (row : Z * Block) (rows : list (Z * Block)).

Arguments stream_rows : simpl never.
Arguments batch_rows : simpl never.

Lemma after_row_accept op batch i st :
  after_row op batch i st =
  accept_row op (cell (oid_data (OBJECT_ID batch)) i, block_at (DATA batch) i) st.
Proof. done. Qed.

Lemma bind_key_num_visited op k pos st :
  NUM_VISITED (bind_key op k pos st) = NUM_VISITED st.
Proof. unfold bind_key. by destruct (binds_owners op st). Qed.

Lemma bind_key_RESERVOIR op k pos st :
  RESERVOIR (bind_key op k pos st) = RESERVOIR st.
Proof. unfold bind_key. by destruct (binds_owners op st). Qed.

Lemma bind_key_RandGen op k pos st :
  RandGen (bind_key op k pos st) = RandGen st.
Proof. unfold bind_key. by destruct (binds_owners op st). Qed.

Lemma accept_row_num_visited op row st :
  num_visited (accept_row op row st) = num_visited st + 1.
Proof. unfold accept_row. by case_decide. Qed.

Lemma accept_row_nv_ndim op row st :
  nv_ndim (NUM_VISITED (accept_row op row st)) = nv_ndim (NUM_VISITED st).
Proof.
  unfold accept_row. case_decide; [done|]. simpl. by rewrite bind_key_num_visited.
Qed.

Lemma accept_rows_cons op row rows st :
  accept_rows op (row :: rows) st = accept_rows op rows (accept_row op row st).
Proof. done. Qed.

Lemma accept_rows_num_visited op rows st :
  num_visited (accept_rows op rows st) = num_visited st + Z.of_nat (length rows).
Proof.
  revert st. induction rows as [|row rows IH]; intros st.
  - simpl. lia.
  - rewrite accept_rows_cons, IH, accept_row_num_visited, length_cons. lia.
Qed.

Lemma accept_rows_nv_ndim op rows st :
  nv_ndim (NUM_VISITED (accept_rows op rows st)) = nv_ndim (NUM_VISITED st).
Proof.
  revert st. induction rows as [|row rows IH]; intros st; [done|].
  by rewrite accept_rows_cons, IH, accept_row_nv_ndim.
Qed.

Lemma accept_rows_app op rows1 rows2 st :
  accept_rows op (rows1 ++ rows2) st = accept_rows op rows2 (accept_rows op rows1 st).
Proof. apply foldl_app. Qed.

Lemma accept_row_shape op row st :
  r_dims (RESERVOIR (accept_row op row st)) = r_dims (RESERVOIR st) ∧
  r_meta (RESERVOIR (accept_row op row st)) = r_meta (RESERVOIR st).
Proof.
  unfold accept_row. case_decide; [done|]. simpl. by rewrite bind_key_RESERVOIR.
Qed.

Lemma accept_row_lengths op row st :
  length (r_slots (RESERVOIR (accept_row op row st)))
    = length (r_slots (RESERVOIR st)) ∧
  length (POS_TO_OBJECT (accept_row op row st)) = length (POS_TO_OBJECT st).
Proof.
  unfold accept_row. case_decide; [done|]. simpl.
  rewrite bind_key_RESERVOIR. simpl. rewrite length_insert. split; [done|].
  unfold bind_key. destruct (binds_owners op _); simpl; [|done].
  by rewrite length_insert.
Qed.

Lemma accept_rows_lengths op rows st :
  length (r_slots (RESERVOIR (accept_rows op rows st)))
    = length (r_slots (RESERVOIR st)) ∧
  length (POS_TO_OBJECT (accept_rows op rows st)) = length (POS_TO_OBJECT st).
Proof.
  revert st. induction rows as [|row rows IH]; intros st; [done|].
  rewrite accept_rows_cons. destruct (IH (accept_row op row st)) as [-> ->].
  apply accept_row_lengths.
Qed.

Lemma emplace_lookup_ne (k k' v : Z) (m : gmap Z Z) :
  k ≠ k' → emplace k v m !! k' = m !! k'.
Proof.
  intros Hne. unfold emplace. destruct (m !! k); [done|].
  by rewrite lookup_insert_ne.
Qed.

Lemma accept_row_absent op row st (k : Z) :
  k ≠ row.1 →
  OBJECT_TO_POS_MAP st !! k = None →
  OBJECT_TO_POS_MAP (accept_row op row st) !! k = None.
Proof.
  intros Hne Hk. unfold accept_row. case_decide; [done|]. simpl.
  unfold bind_key. destruct (binds_owners op _); simpl; [|done].
  rewrite emplace_lookup_ne by done.
  apply lookup_delete_None. by right.
Qed.

Lemma accept_row_set_shape op row sh st :
  accept_row op row (set_shape sh st) = set_shape sh (accept_row op row st).
Proof.
  unfold accept_row.
  change (choose_pos op (set_shape sh st)) with (choose_pos op st).
  change (num_visited (set_shape sh st)) with (num_visited st).
  case_decide; [done|].
  unfold bind_key, binds_owners. simpl.
  by destruct (key_tracking op && bool_decide (POS_TO_OBJECT st ≠ [])).
Qed.

Lemma accept_rows_set_shape op rows sh st :
  accept_rows op rows (set_shape sh st) = set_shape sh (accept_rows op rows st).
Proof.
  revert st. induction rows as [|row rows IH]; intros st; [done|].
  by rewrite !accept_rows_cons, accept_row_set_shape, IH.
Qed.

(** The loop over rows whose keys are new and pairwise distinct accepts
    every row. *)
Lemma run_rows_fresh op batch (idx : list Z) st :
  0 ≤ num_visited st →
  (key_tracking op = true →
   NoDup (cell (oid_data (OBJECT_ID batch)) <$> idx) ∧
   Forall (λ i, OBJECT_TO_POS_MAP st !! cell (oid_data (OBJECT_ID batch)) i = None)
          idx) →
  run_rows op batch idx st =
    (Done,
     accept_rows op
       ((λ i, (cell (oid_data (OBJECT_ID batch)) i, block_at (DATA batch) i)) <$> idx)
       st).
Proof.
  revert st. induction idx as [|i idx IH]; intros st Hv Hfresh; [done|].
  rewrite fmap_cons, accept_rows_cons. simpl. rewrite sample_row_new; [|done|].
  - rewrite after_row_accept. apply IH.
    + rewrite accept_row_num_visited. lia.
    + intros Hk. destruct (Hfresh Hk) as [Hnd Hall].
      apply NoDup_cons in Hnd as [Hi Hnd]. split; [done|].
      apply Forall_cons in Hall as [_ Hall].
      apply Forall_forall. intros j Hj.
      apply accept_row_absent.
      * simpl. intros Heq. apply Hi. rewrite <- Heq.
        by apply list_elem_of_fmap_2.
      * by eapply (proj1 (Forall_forall _ _) Hall).
  - unfold already_in_pool. destruct (key_tracking op) eqn:Hk; [|done].
    destruct (Hfresh eq_refl) as [_ Hall].
    apply Forall_cons in Hall as [Hi _]. simpl.
    apply bool_decide_eq_false. rewrite Hi. by intros [? ?].
Qed.

Lemma cell_seqZ (p : list Z) : cell p <$> seqZ 0 (Z.of_nat (length p)) = p.
Proof.
  apply list_eq. intros i. rewrite list_lookup_fmap.
  destruct (decide (i < length p)%nat) as [Hlt|Hge].
  - rewrite lookup_seqZ_lt by lia. simpl.
    destruct (lookup_lt_is_Some_2 p i Hlt) as [x Hx]. rewrite Hx.
    unfold cell. replace (Z.to_nat (0 + Z.of_nat i)) with i by lia.
    by rewrite Hx.
  - rewrite lookup_seqZ_ge by lia. simpl. symmetry. apply lookup_ge_None_2. lia.
Qed.

Lemma count_absent_all_absent (m : gmap Z Z) (ids : list Z) :
  Forall (λ k, m !! k = None) ids → count_absent m ids = Z.of_nat (length ids).
Proof.
  unfold count_absent. induction 1 as [|k ids Hk _ IH]; [done|].
  rewrite filter_cons_True by done. simpl. lia.
Qed.

Lemma to_int32_small (n : Z) : 0 ≤ n → n < 2147483648 → to_int32 n = n.
Proof. intros ??. unfold to_int32. rewrite Z.mod_small; lia. Qed.

Lemma to_size_t_small (n : Z) :
  0 ≤ n → n < 18446744073709551616 → to_size_t n = n.
Proof. intros ??. unfold to_size_t. by rewrite Z.mod_small. Qed.

Lemma prepare_shape op batch st :
  dim (dims (DATA batch)) 0 ≠ 0 →
  prepare op batch (to_int32 (dim (dims (DATA batch)) 0)) st =
  set_shape (shape_after op batch st) (reserve op st).
Proof.
  intros Hne. unfold prepare, shape_after, set_shape, reserve.
  rewrite (decide_False (P := dim _ 0 = 0)) by done. cbv zeta.
  assert (Hd : dims (DATA batch) ≠ []).
  { intros Hd. apply Hne. by rewrite Hd. }
  set (init := bool_decide (0 < r_size (RESERVOIR st))).
  change (output_batch_size init (RESERVOIR (set_RESERVOIR _ st)))
    with (output_batch_size init (RESERVOIR st)).
  set (bs := output_batch_size init (RESERVOIR st)).
  unfold Reserve. rewrite dim_insert_0 by done.
  destruct (decide (bs < numToCollect_ op)) as [Hlt|Hge].
  - rewrite (bool_decide_eq_true_2 _ Hlt). by destruct (key_tracking op).
  - rewrite (bool_decide_eq_false_2 _ Hge). by destruct (key_tracking op).
Qed.

(** A call on a well-formed batch of rows with new, pairwise distinct keys
    succeeds and accepts every row. *)
Lemma RunOnDevice_fresh op batch st shape :
  well_formed_batch op shape batch →
  (0 < r_size (RESERVOIR st) →
   row_shape_matches (RESERVOIR st) (DATA batch) = true) →
  nv_ndim (NUM_VISITED st) = 0 →
  0 ≤ num_visited st →
  (key_tracking op = true →
   NoDup (oid_data (OBJECT_ID batch)) ∧
   Forall (λ k, OBJECT_TO_POS_MAP st !! k = None) (oid_data (OBJECT_ID batch))) →
  RunOnDevice op batch st =
    (Done, set_shape (shape_after op batch st)
             (accept_rows op (batch_rows batch) (reserve op st))).
Proof.
  intros (n & Hn0 & Hn31 & Hdims & Hids) Hshape Hnv Hv Hfresh.
  assert (Hdim : dim (dims (DATA batch)) 0 = n) by by rewrite Hdims.
  assert (Hnd : 1 ≤ ndim (DATA batch)).
  { unfold ndim. rewrite Hdims. simpl. lia. }
  destruct (decide (n = 0)) as [->|Hne].
  - unfold RunOnDevice, batch_rows, shape_after, set_shape, reserve.
    rewrite decide_False by lia.
    assert (Hsh : bool_decide (0 < r_size (RESERVOIR st)) &&
                  negb (row_shape_matches (RESERVOIR st) (DATA batch)) = false).
    { case_bool_decide as Hinit; [|done]. by rewrite (Hshape Hinit). }
    rewrite Hsh, Hdim. cbv zeta. rewrite !decide_True by done.
    unfold Reserve. rewrite dim_insert_0 by by rewrite Hdims.
    simpl. f_equal. by destruct (bool_decide _), st.
  - assert (Hcount : countNewEntries op batch st = inr (to_int32 n)).
    { unfold countNewEntries. destruct (key_tracking op) eqn:Hk; [|by rewrite Hdim].
      destruct (Hids eq_refl) as [Hid1 Hid2]. rewrite decide_True by done.
      destruct (Hfresh eq_refl) as [_ Hall].
      rewrite count_absent_all_absent by done. by rewrite <- Hid2. }
    rewrite (RunOnDevice_valid op batch st (to_int32 n)); [| |by rewrite Hdim|done].
    + pose proof (prepare_shape op batch st) as Hprep.
      rewrite Hdim in Hprep. rewrite (Hprep Hne).
      rewrite run_rows_fresh.
      * fold (batch_rows batch).
        rewrite decide_True.
        { by rewrite accept_rows_set_shape. }
        rewrite accept_rows_num_visited. unfold batch_rows.
        rewrite length_fmap, length_seqZ, Hdim, to_int32_small by lia.
        change (num_visited (set_shape _ (reserve op st))) with (num_visited st).
        lia.
      * done.
      * intros Hk. destruct (Hfresh Hk) as [Hnd' Hall].
        destruct (Hids Hk) as [_ Hsize]. unfold oid_size in Hsize.
        rewrite Hdim, <- Hsize, cell_seqZ. split; [done|].
        apply Forall_forall. intros i Hi. apply elem_of_seqZ in Hi.
        eapply (proj1 (Forall_forall _ _) Hall).
        apply cell_elem_of; lia.
    + split_and!; try done. intros Hk. destruct (Hids Hk) as [? ?].
      by rewrite Hdim.
Qed.

Lemma same_row_shape_cons (a b : Z) (shape : list Z) :
  same_row_shape (a :: shape) (b :: shape) = true.
Proof.
  unfold same_row_shape. apply forallb_forall. intros i Hi.
  apply in_seq in Hi. apply bool_decide_eq_true.
  destruct i as [|i]; [lia|]. done.
Qed.

Lemma row_shape_matches_cons (r : Reservoir) (input : Tensor) (a b : Z)
    (shape : list Z) :
  r_dims r = Some (a :: shape) → dims input = b :: shape →
  row_shape_matches r input = true.
Proof.
  intros Hr Hi. unfold row_shape_matches, r_ndim, ndim. rewrite Hr, Hi. simpl.
  rewrite bool_decide_eq_true_2 by done. apply same_row_shape_cons.
Qed.

Lemma accept_rows_absent op rows st (k : Z) :
  k ∉ rows.*1 →
  OBJECT_TO_POS_MAP st !! k = None →
  OBJECT_TO_POS_MAP (accept_rows op rows st) !! k = None.
Proof.
  revert st. induction rows as [|row rows IH]; intros st Hk Hm; [done|].
  rewrite accept_rows_cons. rewrite fmap_cons in Hk.
  apply not_elem_of_cons in Hk as [Hne Hk].
  apply IH; [done|]. by apply accept_row_absent.
Qed.

Lemma accept_rows_shape op rows st :
  r_dims (RESERVOIR (accept_rows op rows st)) = r_dims (RESERVOIR st) ∧
  r_meta (RESERVOIR (accept_rows op rows st)) = r_meta (RESERVOIR st).
Proof.
  revert st. induction rows as [|row rows IH]; intros st; [done|].
  rewrite accept_rows_cons. destruct (IH (accept_row op row st)) as [-> ->].
  apply accept_row_shape.
Qed.

Lemma batch_rows_keys op shape batch :
  well_formed_batch op shape batch → key_tracking op = true →
  (batch_rows batch).*1 = oid_data (OBJECT_ID batch).
Proof.
  intros (n & _ & _ & Hdims & Hids) Hk. destruct (Hids Hk) as [_ Hsize].
  unfold batch_rows. rewrite <- list_fmap_compose.
  rewrite Hdims. change (dim (n :: shape) 0) with n. rewrite <- Hsize.
  apply cell_seqZ.
Qed.

Lemma batch_rows_length op shape batch :
  well_formed_batch op shape batch →
  Z.of_nat (length (batch_rows batch)) = dim (dims (DATA batch)) 0 ∧
  dims (DATA batch) = dim (dims (DATA batch)) 0 :: shape ∧
  0 ≤ dim (dims (DATA batch)) 0 < 2147483648.
Proof.
  intros (n & ? & ? & Hdims & _). unfold batch_rows.
  rewrite length_fmap, length_seqZ, Hdims. change (dim (n :: shape) 0) with n.
  split_and!; [lia|done|lia|lia].
Qed.

Lemma reserve_reserved op st :
  numToCollect_ op ≤ Z.of_nat (length (r_slots (RESERVOIR st))) →
  reserve op st = st.
Proof.
  intros Hlen. unfold reserve, Reserve.
  change (dim [numToCollect_ op] 0) with (numToCollect_ op).
  replace (Z.to_nat (numToCollect_ op) - length (r_slots (RESERVOIR st)))%nat
    with 0%nat by lia.
  simpl. rewrite app_nil_r. by destruct st as [[] ? ? ? ?].
Qed.

Lemma reserve_length op st :
  numToCollect_ op ≤ Z.of_nat (length (r_slots (RESERVOIR (reserve op st)))).
Proof.
  unfold reserve, Reserve. simpl. rewrite length_app, length_replicate.
  change (dim [numToCollect_ op] 0) with (numToCollect_ op). lia.
Qed.

(** One more call keeps the invariants of the stream. *)
Lemma RunOnDevice_fresh_inv op batch st shape :
  0 < numToCollect_ op →
  well_formed_batch op shape batch →
  stream_inv shape st →
  (key_tracking op = true →
   NoDup (oid_data (OBJECT_ID batch)) ∧
   Forall (λ k, OBJECT_TO_POS_MAP st !! k = None) (oid_data (OBJECT_ID batch))) →
  ∃ st',
    RunOnDevice op batch st = (Done, st') ∧
    st' = set_shape (shape_after op batch st)
            (accept_rows op (batch_rows batch) (reserve op st)) ∧
    stream_inv shape st' ∧
    (0 < product shape → numToCollect_ op < 2147483648 →
     occupancy_inv op shape st → occupancy_inv op shape st').
Proof.
  intros HC Hwf (Hnv & Hv & Hsh) Hfresh.
  destruct (batch_rows_length op shape batch Hwf) as (Hlen & Hdims & Hn0 & Hn31).
  remember (dim (dims (DATA batch)) 0) as n eqn:Hn.
  eexists. split; [|split; [reflexivity|]].
  { eapply RunOnDevice_fresh; try done.
    intros Hinit. destruct (Hsh Hinit) as [d0 Hd0].
    by eapply row_shape_matches_cons. }
  assert (Hv' : num_visited (set_shape (shape_after op batch st)
                  (accept_rows op (batch_rows batch) (reserve op st)))
                = num_visited st + n).
  { change (num_visited (set_shape ?sh ?s)) with (num_visited s).
    rewrite accept_rows_num_visited. unfold reserve.
    rewrite num_visited_set_RESERVOIR. lia. }
  assert (Hd' : r_dims (RESERVOIR (set_shape (shape_after op batch st)
                  (accept_rows op (batch_rows batch) (reserve op st))))
                = (shape_after op batch st).1) by done.
  split.
  - split_and!.
    + change (nv_ndim (NUM_VISITED (set_shape ?sh ?s)))
        with (nv_ndim (NUM_VISITED s)).
      by rewrite accept_rows_nv_ndim.
    + rewrite Hv'. lia.
    + intros _. rewrite Hd'. unfold shape_after. rewrite <- Hn.
      destruct (decide (n = 0)) as [Hz|Hnz].
      * case_bool_decide as Hinit; simpl; [by apply Hsh|].
        rewrite Hdims. eauto.
      * simpl. unfold output_batch_size.
        case_bool_decide as Hinit.
        -- destruct (Hsh Hinit) as [d0 Hd0].
           case_decide; [|by eauto]. unfold grown_dims. rewrite Hdims. simpl.
           eauto.
        -- rewrite decide_True by lia. unfold grown_dims. rewrite Hdims. simpl.
           eauto.
  - intros Hpos HC31 Hocc. unfold occupancy_inv. rewrite Hv', Hd'.
    unfold shape_after. rewrite <- Hn.
    destruct (decide (n = 0)) as [Hz|Hnz].
    + rewrite Hz, Z.add_0_r.
      destruct Hocc as [[Hv0 Hinit]|[Hvpos Hd]].
      * left. split; [done|].
        rewrite (bool_decide_eq_false_2 _ Hinit). simpl.
        unfold r_size. simpl. rewrite Hdims, Hz. simpl. lia.
      * right. split; [done|].
        assert (Hinit : 0 < r_size (RESERVOIR st)).
        { unfold r_size. rewrite Hd. simpl. fold (product shape). nia. }
        by rewrite (bool_decide_eq_true_2 _ Hinit).
    + right. split; [lia|]. simpl.
      assert (Hbs : output_batch_size (bool_decide (0 < r_size (RESERVOIR st)))
                      (RESERVOIR st) = Z.min (numToCollect_ op) (num_visited st)).
      { unfold output_batch_size.
        destruct Hocc as [[Hv0 Hinit]|[Hvpos Hd]].
        - rewrite (bool_decide_eq_false_2 _ Hinit). lia.
        - assert (Hinit : 0 < r_size (RESERVOIR st)).
          { unfold r_size. rewrite Hd. simpl. fold (product shape). nia. }
          rewrite (bool_decide_eq_true_2 _ Hinit). unfold r_dim. by rewrite Hd. }
      rewrite Hbs.
      destruct (decide (Z.min (numToCollect_ op) (num_visited st)
                        < numToCollect_ op)) as [Hlt|Hlt].
      * unfold grown_dims. rewrite Hdims. simpl.
        rewrite to_int32_small by lia.
        rewrite !to_size_t_small by lia.
        do 2 f_equal. lia.
      * destruct Hocc as [[Hv0 Hinit]|[Hvpos Hd]]; [lia|].
        rewrite Hd. do 2 f_equal. lia.
Qed.

Lemma stream_rows_cons (b : Batch) (rest : list Batch) :
  stream_rows (b :: rest) = batch_rows b ++ stream_rows rest.
Proof. done. Qed.

(** Successive calls on well-formed batches whose keys are new and pairwise
    distinct all succeed; the state they leave is the one in which every row
    of the stream was accepted in order, up to the shape of the reservoir. *)
Lemma feed_fresh op batches st shape :
  0 < numToCollect_ op →
  Forall (well_formed_batch op shape) batches →
  stream_inv shape st →
  (key_tracking op = true →
   NoDup (stream_rows batches).*1 ∧
   Forall (λ k, OBJECT_TO_POS_MAP st !! k = None) (stream_rows batches).*1) →
  ∃ st',
    feed op batches st = (Done, st') ∧
    stream_inv shape st' ∧
    (batches ≠ [] →
     ∃ sh, st' = set_shape sh
                   (accept_rows op (stream_rows batches) (reserve op st))) ∧
    (0 < product shape → numToCollect_ op < 2147483648 →
     occupancy_inv op shape st → occupancy_inv op shape st').
Proof.
  intros HC Hwf. revert st.
  induction Hwf as [|b rest Hb Hrest IH]; intros st Hinv Hfresh.
  { exists st. by split_and!. }
  rewrite stream_rows_cons, fmap_app in Hfresh.
  destruct (RunOnDevice_fresh_inv op b st shape HC Hb Hinv)
    as (st1 & Hrun & Hst1 & Hinv1 & Hocc1).
  { intros Hk. destruct (Hfresh Hk) as [Hnd Hall].
    rewrite (batch_rows_keys op shape b Hb Hk) in Hnd, Hall.
    apply NoDup_app in Hnd as (Hnd & _ & _).
    apply Forall_app in Hall as [Hall _]. done. }
  destruct (IH st1 Hinv1) as (st' & Hfeed & Hinv' & Hst' & Hocc').
  { intros Hk. destruct (Hfresh Hk) as [Hnd Hall].
    apply NoDup_app in Hnd as (_ & Hdisj & Hnd).
    apply Forall_app in Hall as [_ Hall]. split; [done|].
    apply Forall_forall. intros k Hkin. rewrite Hst1.
    change (OBJECT_TO_POS_MAP (set_shape ?sh ?s)) with (OBJECT_TO_POS_MAP s).
    apply accept_rows_absent.
    - intros Hin. by apply (Hdisj k).
    - by eapply (proj1 (Forall_forall _ _) Hall). }
  exists st'. cbn [feed]. rewrite Hrun. split_and!; [done|done| |by auto].
  intros _. rewrite stream_rows_cons, accept_rows_app.
  destruct rest as [|b' rest'].
  { simpl in Hfeed. injection Hfeed as <-. rewrite Hst1. by eauto. }
  destruct Hst' as [sh ->]; [done|]. exists sh.
  rewrite reserve_reserved.
  - rewrite Hst1, accept_rows_set_shape. done.
  - rewrite Hst1.
    change (r_slots (RESERVOIR (set_shape ?sh ?s))) with (r_slots (RESERVOIR s)).
    rewrite (proj1 (accept_rows_lengths _ _ _)). apply reserve_length.
Qed.

(** Below the capacity a row is appended at the visit count, without a
    draw. *)
Lemma accept_row_append op row st :
  0 ≤ num_visited st → num_visited st < numToCollect_ op →
  r_slots (RESERVOIR (accept_row op row st))
    = <[Z.to_nat (num_visited st) := Some row.2]> (r_slots (RESERVOIR st)) ∧
  RandGen (accept_row op row st) = RandGen st ∧
  (key_tracking op = true →
   POS_TO_OBJECT (accept_row op row st)
     = <[Z.to_nat (num_visited st) := row.1]> (POS_TO_OBJECT st)).
Proof.
  intros Hv Hlt. unfold accept_row. rewrite choose_pos_append by done. simpl.
  rewrite decide_False by lia. simpl.
  rewrite bind_key_RESERVOIR, bind_key_RandGen. split_and!; [done|done|].
  intros Hk. unfold bind_key. destruct (binds_owners op _) eqn:Hb; [done|].
  apply binds_owners_none in Hb; [|done]. simpl in Hb |- *. by rewrite Hb.
Qed.

Lemma accept_rows_append op rows st :
  0 ≤ num_visited st →
  num_visited st + Z.of_nat (length rows) ≤ numToCollect_ op →
  numToCollect_ op ≤ Z.of_nat (length (r_slots (RESERVOIR st))) →
  r_slots (RESERVOIR (accept_rows op rows st))
    = take (Z.to_nat (num_visited st)) (r_slots (RESERVOIR st)) ++
      ((λ row, Some row.2) <$> rows) ++
      drop (Z.to_nat (num_visited st) + length rows) (r_slots (RESERVOIR st)) ∧
  RandGen (accept_rows op rows st) = RandGen st ∧
  (key_tracking op = true →
   numToCollect_ op ≤ Z.of_nat (length (POS_TO_OBJECT st)) →
   POS_TO_OBJECT (accept_rows op rows st)
     = take (Z.to_nat (num_visited st)) (POS_TO_OBJECT st) ++
       rows.*1 ++
       drop (Z.to_nat (num_visited st) + length rows) (POS_TO_OBJECT st)).
Proof.
  revert st. induction rows as [|row rows IH]; intros st Hv Hle Hlen.
  { simpl. rewrite Nat.add_0_r, !take_drop. done. }
  rewrite accept_rows_cons. rewrite length_cons in Hle.
  destruct (accept_row_append op row st Hv) as (Hs1 & Hg1 & Hp1); [lia|].
  destruct (accept_row_lengths op row st) as [Hl1 Hl2].
  destruct (IH (accept_row op row st)) as (Hs & Hg & Hp).
  { rewrite accept_row_num_visited. lia. }
  { rewrite accept_row_num_visited. lia. }
  { rewrite Hl1. lia. }
  rewrite accept_row_num_visited in Hs, Hp.
  replace (Z.to_nat (num_visited st + 1)) with (S (Z.to_nat (num_visited st)))
    in Hs, Hp by lia.
  split_and!.
  - rewrite Hs, Hs1.
    destruct (lookup_lt_is_Some_2 (r_slots (RESERVOIR st))
                (Z.to_nat (num_visited st))) as [x Hx]; [lia|].
    rewrite (take_S_r _ _ (Some row.2))
      by (rewrite list_lookup_insert_eq; [done|lia]).
    rewrite take_insert_ge by lia.
    rewrite drop_insert_lt by lia.
    rewrite fmap_cons, length_cons. rewrite <- app_assoc. simpl.
    by rewrite Nat.add_succ_r.
  - by rewrite Hg, Hg1.
  - intros Hk Hlp. rewrite Hp, (Hp1 Hk); [|done|rewrite Hl2; lia].
    destruct (lookup_lt_is_Some_2 (POS_TO_OBJECT st)
                (Z.to_nat (num_visited st))) as [x Hx]; [lia|].
    rewrite (take_S_r _ _ row.1)
      by (rewrite list_lookup_insert_eq; [done|lia]).
    rewrite take_insert_ge by lia.
    rewrite drop_insert_lt by lia.
    rewrite fmap_cons, length_cons. rewrite <- app_assoc. simpl.
    by rewrite Nat.add_succ_r.
Qed.


End Stream.

(** ** Replaying a tape of draws *)

Section Replay.
Implicit Types (op : ReservoirSamplingOp) (st : State (list Z)).
Implicit Types (row : Z * Block) (rows : list (Z * Block)) (t : list Z).

Lemma accept_row_tape op row (r : Z) t st :
  numToCollect_ op ≤ num_visited st → 0 ≤ r → r ≤ num_visited st →
  accept_row op row (set_RandGen (r :: t) st) =
  set_RandGen t (accept_with_draw op row r st).
Proof.
  intros Hv Hr0 Hr. unfold accept_row, accept_with_draw.
  rewrite choose_pos_draw by done. simpl.
  change (num_visited (set_RandGen (r :: t) st)) with (num_visited st).
  rewrite (decide_True (P := 0 ≤ r ∧ r ≤ num_visited st)) by done.
  destruct (decide (numToCollect_ op ≤ r)) as [Hge|Hlt].
  - by rewrite decide_True by lia.
  - rewrite decide_False by lia.
    unfold bind_key, binds_owners. simpl.
    by destruct (key_tracking op && bool_decide (POS_TO_OBJECT st ≠ [])).
Qed.

Lemma accept_with_draw_num_visited op row (r : Z) st :
  num_visited (accept_with_draw op row r st) = num_visited st + 1.
Proof. unfold accept_with_draw. by case_decide. Qed.

Lemma accept_rows_replay op rows t (e : list Z) st :
  numToCollect_ op ≤ num_visited st →
  length t = length rows →
  (∀ (i : nat) x, t !! i = Some x → 0 ≤ x ∧ x ≤ num_visited st + Z.of_nat i) →
  accept_rows op rows (set_RandGen (t ++ e) st) = set_RandGen e (replay op rows t st).
Proof.
  revert t st. induction rows as [|row rows IH]; intros t st Hv Hlen Hfit.
  { by destruct t. }
  destruct t as [|r t]; [done|].
  rewrite accept_rows_cons. simpl.
  destruct (Hfit 0%nat r eq_refl) as [Hr0 Hr].
  rewrite accept_row_tape by lia.
  apply IH.
  - rewrite accept_with_draw_num_visited. lia.
  - simpl in Hlen. lia.
  - intros i x Hx. rewrite accept_with_draw_num_visited.
    destruct (Hfit (S i) x Hx). lia.
Qed.

Lemma replay_snoc op rows row t (r : Z) st :
  length t = length rows →
  replay op (rows ++ [row]) (t ++ [r]) st =
  accept_with_draw op row r (replay op rows t st).
Proof.
  revert t st. induction rows as [|row0 rows IH]; intros t st Hlen.
  { by destruct t. }
  destruct t as [|r0 t]; [done|]. simpl. apply IH. simpl in Hlen. lia.
Qed.

Lemma replay_num_visited op rows t st :
  length t = length rows →
  num_visited (replay op rows t st) = num_visited st + Z.of_nat (length rows).
Proof.
  revert t st. induction rows as [|row rows IH]; intros t st Hlen.
  { simpl. lia. }
  destruct t as [|r t]; [done|]. simpl.
  rewrite IH by (simpl in Hlen; lia).
  rewrite accept_with_draw_num_visited. lia.
Qed.

Lemma tapes_spec (v : Z) (k : nat) t :
  t ∈ tapes v k →
  length t = k ∧
  ∀ (i : nat) x, t !! i = Some x → 0 ≤ x ∧ x ≤ v + Z.of_nat i.
Proof.
  revert t. induction k as [|k IH]; intros t Ht.
  { apply list_elem_of_singleton in Ht as ->. split; [done|]. by intros i x. }
  simpl in Ht. apply list_elem_of_bind in Ht as (t0 & Ht & Ht0).
  apply list_elem_of_fmap in Ht as (r & -> & Hr).
  apply elem_of_seqZ in Hr. destruct (IH t0 Ht0) as [Hlen Hfit].
  split; [rewrite length_app; simpl; lia|].
  intros i x Hx. apply lookup_app_Some in Hx as [Hx|[Hge Hx]].
  - by apply Hfit.
  - apply list_lookup_singleton_Some in Hx as [Hi <-]. lia.
Qed.

Lemma length_tapes_S (v : Z) (k : nat) :
  0 ≤ v →
  length (tapes v (S k)) = (length (tapes v k) * (Z.to_nat v + k + 1))%nat.
Proof.
  intros Hv. simpl. induction (tapes v k) as [|t ts IH]; [done|].
  rewrite bind_cons, length_app, IH, length_fmap, length_seqZ. simpl. lia.
Qed.

End Replay.

(** ** Counting *)

Section Counting.
Context {A B : Type}.

Lemma filter_ext_elem (P Q : A → Prop) `{!∀ x, Decision (P x), !∀ x, Decision (Q x)}
    (l : list A) :
  (∀ x, x ∈ l → P x ↔ Q x) → filter P l = filter Q l.
Proof.
  induction l as [|a l IH]; intros Hiff; [done|].
  rewrite !filter_cons.
  rewrite IH by (intros x Hx; apply Hiff; by right).
  destruct (decide (P a)) as [HP|HP], (decide (Q a)) as [HQ|HQ]; try done.
  - destruct HQ. by apply (Hiff a); [left|].
  - destruct HP. by apply (Hiff a); [left|].
Qed.

Lemma filter_all (P : A → Prop) `{!∀ x, Decision (P x)} (l : list A) :
  Forall P l → filter P l = l.
Proof.
  induction 1 as [|a l Ha _ IH]; [done|].
  by rewrite filter_cons_True, IH.
Qed.

Lemma filter_none (P : A → Prop) `{!∀ x, Decision (P x)} (l : list A) :
  Forall (λ x, ¬ P x) l → filter P l = [].
Proof.
  induction 1 as [|a l Ha _ IH]; [done|].
  by rewrite filter_cons_False, IH.
Qed.

Lemma length_filter_ne `{!EqDecision A} (l : list A) (x : A) :
  NoDup l → x ∈ l → length (filter (λ y, y ≠ x) l) = pred (length l).
Proof.
  induction 1 as [|a l Ha Hnd IH]; intros Hx; [by apply elem_of_nil in Hx|].
  apply elem_of_cons in Hx as [->|Hx].
  - rewrite filter_cons_False by (by intros []).
    rewrite filter_all; [done|].
    apply Forall_forall. intros y Hy ->. done.
  - rewrite filter_cons_True by (intros ->; done).
    simpl. rewrite IH by done.
    destruct l; [by apply elem_of_nil in Hx|done].
Qed.

Lemma length_filter_fmap (P : B → Prop) `{!∀ x, Decision (P x)} (g : A → B)
    (l : list A) :
  length (filter P (g <$> l)) = length (filter (λ x, P (g x)) l).
Proof.
  induction l as [|a l IH]; [done|].
  rewrite fmap_cons, !filter_cons. destruct (decide (P (g a))); simpl; by rewrite IH.
Qed.

Lemma length_filter_bind_indicator (P : B → Prop) (Q : A → Prop)
    `{!∀ x, Decision (P x), !∀ x, Decision (Q x)} (f : A → list B) (l : list A)
    (c : nat) :
  (∀ x, x ∈ l → length (filter P (f x)) = if decide (Q x) then c else 0%nat) →
  length (filter P (l ≫= f)) = (c * length (filter Q l))%nat.
Proof.
  induction l as [|a l IH]; intros Hc; [simpl; lia|].
  rewrite bind_cons, filter_app, length_app, IH by (intros x Hx; apply Hc; by right).
  rewrite (Hc a) by by left. rewrite filter_cons.
  destruct (decide (Q a)); simpl; lia.
Qed.

Lemma length_filter_bind_const (P : B → Prop) `{!∀ x, Decision (P x)}
    (f : A → list B) (l : list A) (c : nat) :
  (∀ x, x ∈ l → length (filter P (f x)) = c) →
  length (filter P (l ≫= f)) = (c * length l)%nat.
Proof.
  induction l as [|a l IH]; intros Hc; [simpl; lia|].
  rewrite bind_cons, filter_app, length_app, IH by (intros x Hx; apply Hc; by right).
  rewrite (Hc a) by by left. simpl. lia.
Qed.

End Counting.

Lemma length_filter_seqZ_lt (c m : Z) :
  0 ≤ c → c ≤ m → length (filter (λ r, r < c) (seqZ 0 m)) = Z.to_nat c.
Proof.
  intros Hc Hm. replace m with (c + (m - c)) by lia.
  rewrite seqZ_app, filter_app by lia.
  rewrite filter_all, filter_none.
  - rewrite app_nil_r, length_seqZ. done.
  - apply Forall_forall. intros r Hr. apply elem_of_seqZ in Hr. lia.
  - apply Forall_forall. intros r Hr. apply elem_of_seqZ in Hr. lia.
Qed.

Lemma length_filter_seqZ_ne (s m : Z) :
  0 ≤ s → s < m → length (filter (λ r, r ≠ s) (seqZ 0 m)) = pred (Z.to_nat m).
Proof.
  intros Hs Hm. rewrite length_filter_ne.
  - by rewrite length_seqZ.
  - apply NoDup_seqZ.
  - apply elem_of_seqZ. lia.
Qed.

(** ** The rows the slots hold *)

Section Held.
Context {G : Type}.
Implicit Types (op : ReservoirSamplingOp) (st : State G).
Implicit Types (row : Z * Block) (held : list (Z * Block)).

Lemma held_rows_lookup op st (s : nat) :
  (s < Z.to_nat (numToCollect_ op))%nat →
  held_rows op st !! s = Some (slot_row st s).
Proof.
  intros Hs. unfold held_rows. by rewrite list_lookup_fmap, lookup_seq_lt.
Qed.

Lemma holds_length op st held :
  holds op st held → length held = Z.to_nat (numToCollect_ op).
Proof.
  intros Hh. apply (f_equal length) in Hh. unfold held_rows in Hh.
  by rewrite !length_fmap, length_seq in Hh.
Qed.

Lemma holds_slot op st held (s : nat) :
  holds op st held → (s < Z.to_nat (numToCollect_ op))%nat →
  slot_row st s = held !! s.
Proof.
  intros Hh Hs. apply (f_equal (λ l, l !! s)) in Hh.
  rewrite held_rows_lookup, list_lookup_fmap in Hh by done.
  destruct (held !! s) as [x|] eqn:Hx; simpl in Hh; by simplify_eq.
Qed.

Lemma row_present_holds op st held row :
  holds op st held → row_present op row st = true ↔ row ∈ held.
Proof.
  intros Hh. unfold row_present. rewrite bool_decide_eq_true, Hh.
  apply (list_elem_of_fmap_inj Some).
Qed.

Lemma slot_row_no_row_processed st st' (s : nat) :
  no_row_processed st st' → slot_row st' s = slot_row st s.
Proof.
  intros (_ & _ & Hp & _ & k & Hs). unfold slot_row. rewrite Hp, Hs.
  destruct (POS_TO_OBJECT st !! s) as [key|]; [|done].
  destruct (decide (s < length (r_slots (RESERVOIR st)))%nat) as [Hlt|Hge].
  - by rewrite lookup_app_l.
  - rewrite lookup_app_r by lia.
    rewrite (lookup_ge_None_2 (r_slots (RESERVOIR st))) by lia.
    destruct (replicate k None !! _) as [x|] eqn:Hx; [|done].
    by apply lookup_replicate in Hx as [-> _].
Qed.

Lemma row_present_no_row_processed op st st' row :
  no_row_processed st st' → row_present op row st' = row_present op row st.
Proof.
  intros Hno. unfold row_present, held_rows.
  rewrite (list_fmap_ext (slot_row st') (slot_row st)); [done|].
  intros _ s _. by apply slot_row_no_row_processed.
Qed.

Lemma slot_row_accept_with_draw op st row (r : Z) (s : nat) :
  key_tracking op = true → 0 ≤ r → r < numToCollect_ op →
  is_Some (slot_row st (Z.to_nat r)) →
  slot_row (accept_with_draw op row r st) s =
    if decide (s = Z.to_nat r) then Some row else slot_row st s.
Proof.
  intros Hk Hr0 Hr [x Hx]. unfold accept_with_draw.
  rewrite decide_False by lia. unfold slot_row in Hx.
  destruct (POS_TO_OBJECT st !! Z.to_nat r) as [k0|] eqn:Hp; [|done].
  destruct (r_slots (RESERVOIR st) !! Z.to_nat r) as [b0|] eqn:Hs; [|done].
  unfold bind_key. rewrite binds_owners_true; [|done|].
  2:{ simpl. intros Hnil. by rewrite Hnil in Hp. }
  unfold slot_row. simpl.
  apply lookup_lt_Some in Hp, Hs.
  case_decide as Heq.
  - subst s. rewrite !list_lookup_insert_eq by done. by destruct row.
  - by rewrite !list_lookup_insert_ne by done.
Qed.

Lemma holds_accept_with_draw op st held row (r : Z) :
  key_tracking op = true → 0 ≤ r →
  holds op st held →
  holds op (accept_with_draw op row r st)
    (if decide (numToCollect_ op ≤ r) then held else <[Z.to_nat r := row]> held).
Proof.
  intros Hk Hr0 Hh. case_decide as Hr.
  - unfold accept_with_draw. by rewrite decide_True by done.
  - pose proof (holds_length _ _ _ Hh) as Hlen.
    assert (Hsome : is_Some (slot_row st (Z.to_nat r))).
    { rewrite (holds_slot op st held) by (done || lia).
      apply lookup_lt_is_Some_2. lia. }
    unfold holds. apply list_eq. intros s.
    destruct (decide (s < Z.to_nat (numToCollect_ op))%nat) as [Hs|Hs].
    + rewrite held_rows_lookup by done.
      rewrite slot_row_accept_with_draw by (done || lia).
      rewrite list_lookup_fmap. case_decide as Heq.
      * subst s. by rewrite list_lookup_insert_eq by lia.
      * rewrite list_lookup_insert_ne by done.
        rewrite (holds_slot op st held) by done.
        destruct (lookup_lt_is_Some_2 held s) as [y ->]; [lia|done].
    + rewrite !lookup_ge_None_2; [done|..].
      * rewrite length_fmap, length_insert. lia.
      * unfold held_rows. rewrite length_fmap, length_seq. lia.
Qed.

End Held.

(** ** Inclusion counts *)

Section Inclusion.
Implicit Types (op : ReservoirSamplingOp) (st : State (list Z)).
Implicit Types (row : Z * Block) (rows held : list (Z * Block)) (t : list Z).

Lemma not_elem_of_insert {A} (l : list A) (i : nat) (x y : A) :
  y ∉ l → y ≠ x → y ∉ <[i := x]> l.
Proof.
  intros Hl Hne Hin. apply list_elem_of_lookup in Hin as [j Hj].
  apply list_lookup_insert_Some in Hj as [(_ & -> & _)|[_ Hj]]; [done|].
  apply Hl. by eapply list_elem_of_lookup_2.
Qed.

Lemma NoDup_insert_fresh {A} (l : list A) (i : nat) (x : A) :
  NoDup l → x ∉ l → NoDup (<[i := x]> l).
Proof.
  intros Hnd. revert i. induction Hnd as [|a l Ha Hnd IH]; intros i Hx;
    [apply NoDup_nil_2|].
  apply not_elem_of_cons in Hx as [Hxa Hx].
  destruct i as [|i]; simpl.
  - by constructor.
  - constructor; [|by apply IH]. by apply not_elem_of_insert.
Qed.

Lemma elem_of_insert_other {A} (l : list A) (i s : nat) (x y : A) :
  NoDup l → l !! s = Some y → y ≠ x → (i < length l)%nat →
  y ∈ <[i := x]> l ↔ i ≠ s.
Proof.
  intros Hnd Hs Hne Hi. split.
  - intros Hin ->. apply list_elem_of_lookup in Hin as [j Hj].
    apply list_lookup_insert_Some in Hj as [(_ & -> & _)|[Hsj Hj]]; [done|].
    apply Hsj. by eapply NoDup_lookup.
  - intros His. apply (list_elem_of_lookup_2 _ s).
    by rewrite list_lookup_insert_ne.
Qed.

Lemma fresh_key rows1 rows2 (k : nat) row :
  NoDup (rows1 ++ rows2).*1 → rows2 !! k = Some row →
  row.1 ∉ (rows1 ++ take k rows2).*1.
Proof.
  intros Hnd Hk. rewrite <- (take_drop_middle rows2 k row Hk) in Hnd.
  rewrite app_assoc, fmap_app, fmap_cons in Hnd.
  apply NoDup_app in Hnd as (_ & Hdisj & _).
  intros Hin. apply (Hdisj _ Hin). by left.
Qed.

(** After [k] draws the slots hold [capacity] rows of the stream seen so
    far, with pairwise distinct keys. *)
Lemma replay_inv op rows1 rows2 st (k : nat) t :
  key_tracking op = true →
  holds op st rows1 →
  NoDup (rows1 ++ rows2).*1 →
  (k ≤ length rows2)%nat →
  t ∈ tapes (numToCollect_ op) k →
  ∃ held,
    holds op (replay op (take k rows2) t st) held ∧
    NoDup held.*1 ∧
    (∀ x, x ∈ held → x ∈ rows1 ++ take k rows2).
Proof.
  intros Hk Hh Hnd. revert t. induction k as [|k IH]; intros t Hle Ht.
  { apply list_elem_of_singleton in Ht as ->. exists rows1. simpl.
    split_and!; [done| |by intros x; rewrite app_nil_r].
    rewrite fmap_app in Hnd. by apply NoDup_app in Hnd as (? & _ & _). }
  simpl in Ht. apply list_elem_of_bind in Ht as (t0 & Ht & Ht0).
  apply list_elem_of_fmap in Ht as (r & -> & Hr). apply elem_of_seqZ in Hr.
  destruct (lookup_lt_is_Some_2 rows2 k) as [row Hrow]; [lia|].
  destruct (IH t0) as (held & Hheld & Hndh & Hsub); [lia|done|].
  destruct (tapes_spec _ _ _ Ht0) as [Hlen _].
  rewrite (take_S_r _ _ _ Hrow), replay_snoc
    by (rewrite length_take; lia).
  eexists. split; [by apply holds_accept_with_draw; [|lia|]|].
  pose proof (fresh_key rows1 rows2 k row Hnd Hrow) as Hfresh.
  case_decide.
  - split; [done|]. intros x Hx. rewrite app_assoc. apply elem_of_app. left. auto.
  - split.
    + rewrite list_fmap_insert. apply NoDup_insert_fresh; [done|].
      intros Hin. apply Hfresh. apply list_elem_of_fmap in Hin as (y & Hy & Hyin).
      rewrite Hy. apply list_elem_of_fmap_2. auto.
    + intros x Hx. rewrite app_assoc. apply elem_of_app.
      apply list_elem_of_lookup in Hx as [j Hj].
      apply list_lookup_insert_Some in Hj as [(_ & <- & _)|[_ Hj]].
      * right. by left.
      * left. apply Hsub. by eapply list_elem_of_lookup_2.
Qed.

(** The draws that keep a row the slots hold, and those that keep another
    row out. *)
Lemma count_old op st held row new (m : Z) :
  key_tracking op = true →
  holds op st held → NoDup held →
  row ≠ new → 0 < numToCollect_ op → numToCollect_ op ≤ m →
  length (filter (λ r, row_present op row (accept_with_draw op new r st) = true)
                 (seqZ 0 m))
  = if decide (row_present op row st = true) then pred (Z.to_nat m) else 0%nat.
Proof.
  intros Hk Hh Hnd Hne HC Hm.
  pose proof (holds_length _ _ _ Hh) as Hlen.
  assert (Hstep : ∀ r, 0 ≤ r →
    row_present op row (accept_with_draw op new r st) = true ↔
    row ∈ (if decide (numToCollect_ op ≤ r) then held
           else <[Z.to_nat r := new]> held)).
  { intros r Hr. apply row_present_holds. by apply holds_accept_with_draw. }
  case_decide as Hin.
  - apply (row_present_holds op st held) in Hin; [|done].
    apply list_elem_of_lookup in Hin as [s Hs].
    pose proof (lookup_lt_Some _ _ _ Hs) as Hslt.
    rewrite (filter_ext_elem _ (λ r, r ≠ Z.of_nat s)).
    + apply length_filter_seqZ_ne; lia.
    + intros r Hr. apply elem_of_seqZ in Hr. rewrite Hstep by lia.
      case_decide as Hge.
      * split; [lia|]. intros _. by eapply list_elem_of_lookup_2.
      * rewrite (elem_of_insert_other held (Z.to_nat r) s) by (done || lia). lia.
  - rewrite filter_none; [done|].
    apply Forall_forall. intros r Hr. apply elem_of_seqZ in Hr.
    rewrite Hstep by lia.
    assert (Hout : row ∉ held).
    { intros Hrow. apply Hin. by apply (row_present_holds op st held). }
    case_decide; [done|]. by apply not_elem_of_insert.
Qed.

Lemma count_new op st held new (m : Z) :
  key_tracking op = true →
  holds op st held → new ∉ held →
  0 < numToCollect_ op → numToCollect_ op ≤ m →
  length (filter (λ r, row_present op new (accept_with_draw op new r st) = true)
                 (seqZ 0 m))
  = Z.to_nat (numToCollect_ op).
Proof.
  intros Hk Hh Hout HC Hm.
  pose proof (holds_length _ _ _ Hh) as Hlen.
  rewrite (filter_ext_elem _ (λ r, r < numToCollect_ op)).
  - apply length_filter_seqZ_lt; lia.
  - intros r Hr. apply elem_of_seqZ in Hr.
    rewrite (row_present_holds op _ _ new
               (holds_accept_with_draw op st held new r Hk ltac:(lia) Hh)).
    case_decide as Hge; [split; [done|lia]|].
    split; [lia|]. intros _. apply list_elem_of_insert. lia.
Qed.

(** Of the equally likely sequences of [k] draws, the share that leaves a
    given row of the stream in the reservoir is capacity : capacity + k. *)
Lemma inclusion_count op rows1 rows2 st (k : nat) row :
  key_tracking op = true →
  0 < numToCollect_ op →
  holds op st rows1 →
  num_visited st = numToCollect_ op →
  NoDup (rows1 ++ rows2).*1 →
  (k ≤ length rows2)%nat →
  row ∈ rows1 ++ take k rows2 →
  (length (filter (λ t, row_present op row (replay op (take k rows2) t st) = true)
                  (tapes (numToCollect_ op) k))
   * (Z.to_nat (numToCollect_ op) + k)
   = Z.to_nat (numToCollect_ op) * length (tapes (numToCollect_ op) k))%nat.
Proof.
  intros Hk HC Hh Hv Hnd. revert row. induction k as [|k IH]; intros row Hle Hrow.
  { simpl in *. rewrite app_nil_r in Hrow.
    rewrite filter_cons_True by by apply (row_present_holds op st rows1).
    simpl. lia. }
  destruct (lookup_lt_is_Some_2 rows2 k) as [new Hnew]; [lia|].
  pose proof (fresh_key rows1 rows2 k new Hnd Hnew) as Hfresh.
  rewrite length_tapes_S by lia.
  assert (Hcalc : ∀ t, t ∈ tapes (numToCollect_ op) k →
    ∃ held, holds op (replay op (take k rows2) t st) held ∧ NoDup held ∧
            (new ∉ held) ∧
    (filter (λ t', row_present op row (replay op (take (S k) rows2) t' st) = true)
            ((λ r, t ++ [r]) <$> seqZ 0 (numToCollect_ op + Z.of_nat k + 1))
     = ((λ r, t ++ [r]) <$>
        filter (λ r, row_present op row
                       (accept_with_draw op new r (replay op (take k rows2) t st))
                     = true)
               (seqZ 0 (numToCollect_ op + Z.of_nat k + 1))))).
  { intros t Ht.
    destruct (replay_inv op rows1 rows2 st k t) as (held & Hheld & Hndh & Hsub);
      [done|done|done|lia|done|].
    destruct (tapes_spec _ _ _ Ht) as [Hlen _].
    exists held. split_and!; [done|by eapply NoDup_fmap_1| |].
    - intros Hin. apply Hfresh. apply list_elem_of_fmap_2. auto.
    - induction (seqZ 0 (numToCollect_ op + Z.of_nat k + 1)) as [|r l IHl]; [done|].
      rewrite fmap_cons, !filter_cons, IHl.
      rewrite (take_S_r _ _ _ Hnew), replay_snoc by (rewrite length_take; lia).
      by case_decide. }
  simpl tapes.
  rewrite (take_S_r _ _ _ Hnew), app_assoc in Hrow.
  apply elem_of_app in Hrow as [Hold|Hisnew].
  - assert (Hne : row ≠ new).
    { intros ->. apply Hfresh. by apply list_elem_of_fmap_2. }
    rewrite (length_filter_bind_indicator _
               (λ t, row_present op row (replay op (take k rows2) t st) = true)
               _ _ (Z.to_nat (numToCollect_ op) + k)%nat).
    + specialize (IH row ltac:(lia) Hold). nia.
    + intros t Ht. destruct (Hcalc t Ht) as (held & Hheld & Hndh & _ & ->).
      rewrite length_fmap.
      rewrite (count_old op _ held) by (done || lia).
      case_decide; [|done]. lia.
  - apply list_elem_of_singleton in Hisnew as ->.
    rewrite (length_filter_bind_const _ _ _ (Z.to_nat (numToCollect_ op))).
    + nia.
    + intros t Ht. destruct (Hcalc t Ht) as (held & Hheld & _ & Hout & ->).
      rewrite length_fmap. by rewrite (count_new op _ held) by (done || lia).
Qed.

Lemma accept_row_append_set_RandGen op row (g : list Z) st :
  0 ≤ num_visited st → num_visited st < numToCollect_ op →
  accept_row op row (set_RandGen g st) = set_RandGen g (accept_row op row st).
Proof.
  intros Hv Hlt. unfold accept_row. rewrite !choose_pos_append by done.
  cbn [fst snd].
  change (num_visited (set_RandGen g st)) with (num_visited st).
  rewrite !decide_False by lia.
  unfold bind_key, binds_owners. simpl.
  by destruct (key_tracking op && bool_decide (POS_TO_OBJECT st ≠ [])).
Qed.

Lemma accept_rows_append_set_RandGen op rows (g : list Z) st :
  0 ≤ num_visited st →
  num_visited st + Z.of_nat (length rows) ≤ numToCollect_ op →
  accept_rows op rows (set_RandGen g st) = set_RandGen g (accept_rows op rows st).
Proof.
  revert st. induction rows as [|row rows IH]; intros st Hv Hle; [done|].
  rewrite length_cons in Hle.
  rewrite !accept_rows_cons, accept_row_append_set_RandGen by lia.
  apply IH; rewrite accept_row_num_visited; lia.
Qed.

Lemma replay_row_present op rows t (g : list Z) st row :
  row_present op row (set_RandGen g (replay op rows t st))
  = row_present op row (replay op rows t st).
Proof. done. Qed.

(** Once the first [capacity] rows are in, the slots hold them in order. *)
Lemma holds_after_fill op rows st :
  key_tracking op = true →
  0 < numToCollect_ op →
  num_visited st = 0 →
  Z.of_nat (length rows) = numToCollect_ op →
  numToCollect_ op ≤ Z.of_nat (length (POS_TO_OBJECT st)) →
  holds op (accept_rows op rows (reserve op st)) rows.
Proof.
  intros Hk HC Hv Hlen Hown.
  destruct (accept_rows_append op rows (reserve op st)) as (Hs & _ & Hp).
  { reserved_count. }
  { reserved_count. }
  { apply reserve_length. }
  specialize (Hp Hk Hown).
  unfold reserve in Hs at 2, Hp at 2.
  rewrite num_visited_set_RESERVOIR, Hv in Hs, Hp. simpl in Hs, Hp.
  unfold holds. apply list_eq. intros s. rewrite list_lookup_fmap.
  destruct (decide (s < length rows)%nat) as [Hlt|Hge].
  - rewrite held_rows_lookup by lia.
    destruct (lookup_lt_is_Some_2 rows s Hlt) as [[k b] Hrow]. rewrite Hrow.
    unfold slot_row. rewrite Hs, Hp.
    rewrite !lookup_app_l by (rewrite length_fmap; lia).
    by rewrite !list_lookup_fmap, Hrow.
  - rewrite (lookup_ge_None_2 rows) by lia.
    apply lookup_ge_None_2. unfold held_rows. rewrite length_fmap, length_seq. lia.
Qed.


End Inclusion.

(** ** The sanity check and the index on concrete streams *)

(** C2.  A batch whose two rows carry the same key 7, unknown to the map:
    countNewEntries counts both rows against the map as it stood before the
    batch, the loop appends the first and skips the second as already in the
    pool, and the sanity check of line 135 throws with the counter at
    1 instead of 0 + 2. *)
Theorem repeated_new_key_fails_sanity_check :
  countNewEntries (tracking_op 2) (byte_batch ["001"; "002"]%byte [7; 7])
                  (initial_state 2 []) = inr 2 ∧
  num_visited (initial_state 2 []) = 0 ∧
  (RunOnDevice (tracking_op 2) (byte_batch ["001"; "002"]%byte [7; 7])
               (initial_state 2 [])).1
    = EnforceNotMet InternalConsistencyFault ∧
  num_visited
    (RunOnDevice (tracking_op 2) (byte_batch ["001"; "002"]%byte [7; 7])
                 (initial_state 2 [])).2 = 1.
Proof. by vm_compute. Qed.

(** C3.  Keys 0 and 5 fed to a reservoir of two slots whose owner array is
    zero-filled: binding slot 1 reads the never-assigned owner 0 of that
    slot and erases key 0 from the map.  The call succeeds, slot 0 is
    occupied and owned by key 0, and the map has no entry for key 0. *)
Theorem fresh_slot_unbinds_key_zero :
  (RunOnDevice (tracking_op 2) (byte_batch ["001"; "002"]%byte [0; 5])
               (initial_state 2 [])).1 = Done ∧
  occupied_size
    (RunOnDevice (tracking_op 2) (byte_batch ["001"; "002"]%byte [0; 5])
                 (initial_state 2 [])).2 = 2 ∧
  r_slots (RESERVOIR
    (RunOnDevice (tracking_op 2) (byte_batch ["001"; "002"]%byte [0; 5])
                 (initial_state 2 [])).2) !! 0%nat = Some (Some ["001"%byte]) ∧
  POS_TO_OBJECT
    (RunOnDevice (tracking_op 2) (byte_batch ["001"; "002"]%byte [0; 5])
                 (initial_state 2 [])).2 !! 0%nat = Some 0 ∧
  OBJECT_TO_POS_MAP
    (RunOnDevice (tracking_op 2) (byte_batch ["001"; "002"]%byte [0; 5])
                 (initial_state 2 [])).2 !! 0 = None.
Proof. by vm_compute. Qed.

(** C4.  The state the call of C3 leaves: key 0 occupies slot 0 (the owner
    array names it, the slot holds its row) and the map has no entry for it.
    A row with key 0 fed again is not found in the map (line 93), so it is
    sampled as a new row: the call succeeds, the visit count goes from 2 to
    3, and with the draw 0 the row of slot 0 is overwritten. *)
Theorem refed_key_of_a_slot_is_sampled_again :
  slot_row
    (RunOnDevice (tracking_op 2) (byte_batch ["001"; "002"]%byte [0; 5])
                 (initial_state 2 [0])).2 0
    = Some (0, ["001"%byte]) ∧
  num_visited
    (RunOnDevice (tracking_op 2) (byte_batch ["001"; "002"]%byte [0; 5])
                 (initial_state 2 [0])).2 = 2 ∧
  (RunOnDevice (tracking_op 2) (byte_batch ["003"%byte] [0])
     (RunOnDevice (tracking_op 2) (byte_batch ["001"; "002"]%byte [0; 5])
                  (initial_state 2 [0])).2).1 = Done ∧
  num_visited
    (RunOnDevice (tracking_op 2) (byte_batch ["003"%byte] [0])
       (RunOnDevice (tracking_op 2) (byte_batch ["001"; "002"]%byte [0; 5])
                    (initial_state 2 [0])).2).2 = 3 ∧
  slot_row
    (RunOnDevice (tracking_op 2) (byte_batch ["003"%byte] [0])
       (RunOnDevice (tracking_op 2) (byte_batch ["001"; "002"]%byte [0; 5])
                    (initial_state 2 [0])).2).2 0
    = Some (0, ["003"%byte]).
Proof. by vm_compute. Qed.





(** ** The schema *)

Lemma schema_accepts_spec (n_in n_out : Z) :
  schema_accepts n_in n_out = true ↔
  (n_in = 3 ∧ n_out = 2) ∨ (n_in = 6 ∧ n_out = 4).
Proof.
  unfold schema_accepts, NumInputs, NumOutputs, NumInputsOutputs.
  rewrite !andb_true_iff, !bool_decide_eq_true.
  rewrite !elem_of_cons, !elem_of_nil. split.
  - intros [[[->|[->|[]]] [->|[->|[]]]] Hq]; vm_compute in Hq; auto; done.
  - intros [[-> ->]|[-> ->]]; split_and!; auto.
Qed.

(** The schema accepts two arities only, 3 inputs with 2 outputs and
    6 inputs with 4 outputs; so the three tests of the arity that
    RunOnDevice and countNewEntries make (an object id input, a map output,
    an owner output) agree, the map input that countNewEntries reads is
    there whenever an object id input is, and every pair of EnforceInplace
    lies within the arity or wholly beyond it. *)
Theorem schema_key_tracking (n_in n_out : Z) :
  schema_accepts n_in n_out = true →
  ((n_in = 3 ∧ n_out = 2) ∨ (n_in = 6 ∧ n_out = 4)) ∧
  (OBJECT_ID_TAG < n_in ↔ OBJECT_TO_POS_MAP_TAG < n_out) ∧
  (OBJECT_ID_TAG < n_in ↔ POS_TO_OBJECT_TAG < n_out) ∧
  (OBJECT_ID_TAG < n_in → OBJECT_TO_POS_MAP_IN < n_in) ∧
  Forall (λ p, (p.1 < n_in ∧ p.2 < n_out) ∨ (n_in ≤ p.1 ∧ n_out ≤ p.2))
         EnforceInplace.
Proof.
  intros Hs. apply schema_accepts_spec in Hs. split; [done|].
  unfold OBJECT_ID_TAG, OBJECT_TO_POS_MAP_TAG, POS_TO_OBJECT_TAG,
    OBJECT_TO_POS_MAP_IN, EnforceInplace.
  destruct Hs as [[-> ->]|[-> ->]]; split_and!; try lia;
    repeat constructor; simpl; lia.
Qed.

Lemma schema_key_tracking_witness :
  ((6 = 3 ∧ 4 = 2) ∨ (6 = 6 ∧ 4 = 4)) ∧
  (OBJECT_ID_TAG < 6 ↔ OBJECT_TO_POS_MAP_TAG < 4) ∧
  (OBJECT_ID_TAG < 6 ↔ POS_TO_OBJECT_TAG < 4) ∧
  (OBJECT_ID_TAG < 6 → OBJECT_TO_POS_MAP_IN < 6) ∧
  Forall (λ p, (p.1 < 6 ∧ p.2 < 4) ∨ (6 ≤ p.1 ∧ 4 ≤ p.2)) EnforceInplace.
Proof. apply (schema_key_tracking 6 4). reflexivity. Defined.

(** ** The check of the row shape *)

Lemma same_row_shape_spec (out_dims in_dims : list Z) :
  length out_dims = length in_dims →
  same_row_shape out_dims in_dims = true ↔ drop 1 out_dims = drop 1 in_dims.
Proof.
  intros Hlen. unfold same_row_shape. rewrite forallb_forall. split.
  - intros Hall. apply list_eq. intros i. rewrite !lookup_drop.
    destruct (decide (1 + i < length in_dims)%nat) as [Hlt|Hge].
    + specialize (Hall (1 + i)%nat). rewrite bool_decide_eq_true in Hall.
      unfold dim in Hall.
      destruct (lookup_lt_is_Some_2 out_dims (1 + i)) as [x Hx]; [lia|].
      destruct (lookup_lt_is_Some_2 in_dims (1 + i)) as [y Hy]; [lia|].
      rewrite Hx, Hy in *. simpl in Hall. f_equal. apply Hall.
      apply in_seq. lia.
    + rewrite !lookup_ge_None_2; [done|lia|lia].
  - intros Heq i Hi. apply in_seq in Hi. apply bool_decide_eq_true.
    unfold dim. destruct i as [|i]; [lia|].
    apply (f_equal (λ l, l !! i)) in Heq. rewrite !lookup_drop in Heq.
    simpl in Heq. by rewrite Heq.
Qed.

Section ShapeCheck.
Context {G : Type} `{RandGenerator G}.
Implicit Types (op : ReservoirSamplingOp) (batch : Batch) (st : State G).

(** The check of lines 30-33 passes exactly when reservoir and batch have
    the same number of dimensions and the same dimensions after the first;
    a batch without dimensions, and a batch that fails the check on a
    reservoir that holds data, are rejected with ShapeMismatch and the state
    is left exactly as it was. *)
Theorem row_shape_check op batch st :
  (row_shape_matches (RESERVOIR st) (DATA batch) = true ↔
   r_ndim (RESERVOIR st) = ndim (DATA batch) ∧
   drop 1 (default [] (r_dims (RESERVOIR st))) = drop 1 (dims (DATA batch))) ∧
  (ndim (DATA batch) < 1 ∨
   (0 < r_size (RESERVOIR st) ∧
    row_shape_matches (RESERVOIR st) (DATA batch) = false) →
   RunOnDevice op batch st = (EnforceNotMet ShapeMismatch, st)).
Proof.
  split.
  - unfold row_shape_matches. rewrite andb_true_iff, bool_decide_eq_true.
    split; intros [Hnd Hs]; (split; [done|]);
      apply same_row_shape_spec; try done;
      unfold r_ndim, ndim in Hnd; destruct (r_dims (RESERVOIR st)); simpl in *; lia.
  - intros [Hnd|[Hinit Hm]]; unfold RunOnDevice.
    + by rewrite decide_True.
    + case_decide; [done|].
      by rewrite (bool_decide_eq_true_2 _ Hinit), Hm.
Qed.

End ShapeCheck.

Lemma row_shape_check_witness :
  RunOnDevice (plain_op 2) (zero_width_batch 1)
    (RunOnDevice (plain_op 2) (byte_batch ["001"%byte] [])
                 (initial_state 2 [])).2
  = (EnforceNotMet ShapeMismatch,
     (RunOnDevice (plain_op 2) (byte_batch ["001"%byte] [])
                  (initial_state 2 [])).2).
Proof.
  apply (row_shape_check (plain_op 2) (zero_width_batch 1)
           (RunOnDevice (plain_op 2) (byte_batch ["001"%byte] [])
                        (initial_state 2 [])).2).
  right. split; vm_compute; reflexivity.
Defined.

(** ** The loop and the counter *)

Section LoopFacts.
Context {G : Type} `{RandGenerator G}.
Implicit Types (op : ReservoirSamplingOp) (batch : Batch) (st : State G).

Lemma sample_row_counter op batch i st :
  nv_ndim (NUM_VISITED (sample_row op batch i st).2) = nv_ndim (NUM_VISITED st) ∧
  num_visited st ≤ num_visited (sample_row op batch i st).2 ∧
  num_visited (sample_row op batch i st).2 ≤ num_visited st + 1.
Proof.
  unfold sample_row. destruct (already_in_pool op batch i st); [simpl; lia|].
  destruct (choose_pos op st) as [pos g].
  destruct (decide (pos < 0)).
  - case_decide; simpl; unfold num_visited; simpl; lia.
  - cbn [snd]. unfold num_visited at 2 4. cbn [set_num_visited NUM_VISITED nv_value nv_ndim].
    rewrite bind_slot_num_visited.
    unfold bind_slot. destruct (binds_owners op _); simpl;
      unfold num_visited; simpl; lia.
Qed.

Lemma run_rows_counter op batch rows st :
  nv_ndim (NUM_VISITED (run_rows op batch rows st).2) = nv_ndim (NUM_VISITED st) ∧
  num_visited st ≤ num_visited (run_rows op batch rows st).2 ∧
  num_visited (run_rows op batch rows st).2
    ≤ num_visited st + Z.of_nat (length rows).
Proof.
  revert st. induction rows as [|i rows IH]; intros st; [simpl; lia|].
  cbn [run_rows]. pose proof (sample_row_counter op batch i st) as (Hn & Hlo & Hhi).
  destruct (sample_row op batch i st) as [[|e] st1]; cbn [snd] in *.
  - destruct (IH st1) as (-> & ? & ?). rewrite length_cons. lia.
  - rewrite length_cons. lia.
Qed.

(** The loop of lines 91-133 never throws when it starts at a non-negative
    visit count: the check of line 114 cannot fail. *)
Lemma run_rows_Done op batch rows st :
  0 ≤ num_visited st → (run_rows op batch rows st).1 = Done.
Proof.
  revert st. induction rows as [|i rows IH]; intros st Hv; [done|].
  cbn [run_rows].
  destruct (already_in_pool op batch i st) eqn:Hin.
  - rewrite sample_row_in_pool by done. by apply IH.
  - rewrite sample_row_new by done. apply IH.
    rewrite after_row_num_visited. lia.
Qed.

Lemma RunOnDevice_past_checks op batch st o st' :
  RunOnDevice op batch st = (o, st') →
  dim (dims (DATA batch)) 0 ≠ 0 →
  o = Done ∨ o = EnforceNotMet InternalConsistencyFault →
  valid_call op batch st.
Proof.
  intros Hrun Hne Ho.
  assert (Hno : ∀ (P : Prop) e s, e ≠ InternalConsistencyFault →
                                  (EnforceNotMet e, s) = (o, st') → P).
  { intros P e s He [= <- _]. by destruct Ho as [|[=]]. }
  revert Hrun. unfold RunOnDevice, valid_call.
  case_decide as Hnd; [by apply Hno|].
  destruct (bool_decide (0 < r_size (RESERVOIR st)) &&
            negb (row_shape_matches (RESERVOIR st) (DATA batch))) eqn:Hsh;
    [by apply Hno|].
  cbv zeta. rewrite decide_False by done.
  rewrite countNewEntries_set_RESERVOIR.
  destruct (countNewEntries op batch st) as [e|n] eqn:Hcount.
  { apply Hno. apply countNewEntries_error in Hcount. by subst. }
  set (bs := output_batch_size _ _).
  set (st1 := if decide (bs < numToCollect_ op) then _ else _).
  assert (Hst1 : NUM_VISITED st1 = NUM_VISITED st).
  { subst st1. by destruct (decide (bs < numToCollect_ op)). }
  cbn [set_RESERVOIR NUM_VISITED]. rewrite !num_visited_set_RESERVOIR.
  unfold num_visited. rewrite Hst1.
  destruct (decide (nv_ndim (NUM_VISITED st) ≠ 0)) as [Hnv|Hnv]; [by apply Hno|].
  destruct (decide (nv_value (NUM_VISITED st) < 0)) as [Hv|Hv]; [by apply Hno|].
  assert (Hshape : 0 < r_size (RESERVOIR st) →
                   row_shape_matches (RESERVOIR st) (DATA batch) = true).
  { intros Hinit. rewrite (bool_decide_eq_true_2 _ Hinit) in Hsh.
    by destruct (row_shape_matches _ _). }
  assert (Hrank : nv_ndim (NUM_VISITED st) = 0).
  { by destruct (decide (nv_ndim (NUM_VISITED st) = 0)). }
  destruct (key_tracking op) eqn:Hk; cbn [andb].
  - destruct (decide (oid_ndim (OBJECT_ID batch) = 1)) as [Hid1|Hid1];
      [rewrite (bool_decide_eq_true_2 _ Hid1)
      |rewrite (bool_decide_eq_false_2 _ Hid1); by apply Hno].
    destruct (decide (oid_size (OBJECT_ID batch) = dim (dims (DATA batch)) 0))
      as [Hid2|Hid2];
      [rewrite (bool_decide_eq_true_2 _ Hid2)
      |rewrite (bool_decide_eq_false_2 _ Hid2); by apply Hno].
    intros _. split_and!; [lia|done|done|lia|done].
  - intros _. split_and!; [lia|done|done|lia|done].
Qed.

Lemma valid_call_count op batch st :
  valid_call op batch st → ∃ n, countNewEntries op batch st = inr n.
Proof.
  intros (_ & _ & _ & _ & Hids). unfold countNewEntries.
  destruct (key_tracking op); [|by eauto].
  destruct (Hids eq_refl) as [Hid _]. rewrite decide_True by done. eauto.
Qed.

Lemma valid_call_run_rows op batch st n rows :
  valid_call op batch st →
  (run_rows op batch rows (prepare op batch n st)).1 = Done.
Proof.
  intros (_ & _ & _ & Hv & _). apply run_rows_Done.
  unfold num_visited. by rewrite prepare_num_visited.
Qed.

(** The only internal consistency fault a call can raise is the sanity check
    of line 135: the inputs passed every check, the loop ran to its end
    (the check of line 114 never fails), and the counter did not advance by
    the number [countNewEntries] announced.  The rows of the call must not
    take the int64_t counter beyond INT64_MAX. *)
Theorem internal_fault_is_the_sanity_check op batch st st' :
  num_visited st + Z.max 0 (dim (dims (DATA batch)) 0) ≤ INT64_MAX →
  RunOnDevice op batch st = (EnforceNotMet InternalConsistencyFault, st') →
  dim (dims (DATA batch)) 0 ≠ 0 ∧
  valid_call op batch st ∧
  ∃ n, countNewEntries op batch st = inr n ∧
       run_rows op batch (seqZ 0 (dim (dims (DATA batch)) 0))
                (prepare op batch n st) = (Done, st') ∧
       num_visited st' ≠ num_visited st + n.
Proof.
  intros _ Hrun.
  assert (Hne : dim (dims (DATA batch)) 0 ≠ 0).
  { intros Hz. revert Hrun. unfold RunOnDevice.
    case_decide; [done|]. destruct (_ && _); [done|].
    cbv zeta. by rewrite decide_True. }
  assert (Hvalid : valid_call op batch st).
  { eapply RunOnDevice_past_checks; eauto. }
  split_and!; [done..|].
  destruct (valid_call_count _ _ _ Hvalid) as [n Hcount].
  exists n. split; [done|].
  rewrite (RunOnDevice_valid op batch st n Hvalid Hne Hcount) in Hrun.
  pose proof (valid_call_run_rows op batch st n
                (seqZ 0 (dim (dims (DATA batch)) 0)) Hvalid) as Hdone.
  destruct (run_rows op batch _ (prepare op batch n st)) as [o st1].
  cbn [fst] in Hdone. subst o.
  case_decide; [done|]. by simplify_eq.
Qed.

(** Whatever a call does, and whether it succeeds or throws, NUM_VISITED
    keeps its rank and never decreases, and it grows by at most the number
    of rows of the batch, as long as these rows do not take the int64_t
    counter beyond INT64_MAX. *)
Theorem call_counter op batch st :
  num_visited st + Z.max 0 (dim (dims (DATA batch)) 0) ≤ INT64_MAX →
  nv_ndim (NUM_VISITED (RunOnDevice op batch st).2) = nv_ndim (NUM_VISITED st) ∧
  num_visited st ≤ num_visited (RunOnDevice op batch st).2 ∧
  num_visited (RunOnDevice op batch st).2
    ≤ num_visited st + Z.max 0 (dim (dims (DATA batch)) 0).
Proof.
  intros _.
  destruct (RunOnDevice_cases op batch st)
    as (st0 & Hn & _ & _ & _ & _ & [->| ->]).
  - unfold num_visited. rewrite Hn. lia.
  - pose proof (run_rows_counter op batch
                  (seqZ 0 (dim (dims (DATA batch)) 0)) st0) as (Hr & Hlo & Hhi).
    rewrite length_seqZ in Hhi. unfold num_visited in *.
    rewrite Hn in *. split; [done|]. lia.
Qed.

End LoopFacts.

Lemma internal_fault_is_the_sanity_check_witness :
  valid_call (tracking_op 2) (byte_batch ["001"; "002"]%byte [7; 7])
             (initial_state 2 []).
Proof.
  destruct (internal_fault_is_the_sanity_check (tracking_op 2)
              (byte_batch ["001"; "002"]%byte [7; 7]) (initial_state 2 [])
              (RunOnDevice (tracking_op 2)
                 (byte_batch ["001"; "002"]%byte [7; 7])
                 (initial_state 2 [])).2)
    as (_ & Hvalid & _).
  - by vm_compute.
  - by vm_compute.
  - exact Hvalid.
Defined.

Lemma call_counter_witness :
  num_visited (RunOnDevice (tracking_op 2)
                 (byte_batch ["001"; "002"]%byte [7; 7])
                 (initial_state 2 [])).2 ≤ 0 + Z.max 0 2.
Proof.
  apply (call_counter (tracking_op 2)
           (byte_batch ["001"; "002"]%byte [7; 7]) (initial_state 2 [])).
  by vm_compute.
Defined.

(** ** Invariants of a call *)

Section Invariants.
Context {G : Type} `{RandGenerator G}.
Implicit Types (op : ReservoirSamplingOp) (batch : Batch) (st : State G).

Lemma run_rows_invariant (Q : State G → Prop) op batch rows st :
  (∀ i s, i ∈ rows → Q s → Q (sample_row op batch i s).2) →
  Q st → Q (run_rows op batch rows st).2.
Proof.
  revert st. induction rows as [|i rows IH]; intros st Hrow HQ; [done|].
  cbn [run_rows]. pose proof (Hrow i st ltac:(left) HQ) as HQ1.
  destruct (sample_row op batch i st) as [[|e] st1]; cbn [snd] in *; [|done].
  apply IH; [|done]. intros j s Hj. apply Hrow. by right.
Qed.

(** A property of the counter, the index and the generator that every row
    of the batch preserves holds after the call, however the call ends. *)
Lemma RunOnDevice_invariant (Q : State G → Prop) op batch st :
  (∀ s1 s2, NUM_VISITED s2 = NUM_VISITED s1 →
            OBJECT_TO_POS_MAP s2 = OBJECT_TO_POS_MAP s1 →
            POS_TO_OBJECT s2 = POS_TO_OBJECT s1 →
            RandGen s2 = RandGen s1 → Q s1 → Q s2) →
  (∀ i s, 0 ≤ i → i < dim (dims (DATA batch)) 0 →
          Q s → Q (sample_row op batch i s).2) →
  Q st → Q (RunOnDevice op batch st).2.
Proof.
  intros Hblobs Hrow HQ.
  destruct (RunOnDevice_cases op batch st)
    as (st0 & Hn & Hm & Hp & Hg & _ & [->| ->]).
  - by apply (Hblobs st).
  - apply run_rows_invariant; [|by apply (Hblobs st)].
    intros i s Hi. apply elem_of_seqZ in Hi. apply Hrow; lia.
Qed.

Lemma sample_row_plain op batch ids i st :
  key_tracking op = false →
  sample_row op {| DATA := DATA batch; OBJECT_ID := ids |} i st
    = sample_row op batch i st.
Proof.
  intros Hk. unfold sample_row, already_in_pool, bind_slot, binds_owners.
  by rewrite Hk.
Qed.

Lemma run_rows_plain op batch ids rows st :
  key_tracking op = false →
  run_rows op {| DATA := DATA batch; OBJECT_ID := ids |} rows st
    = run_rows op batch rows st.
Proof.
  intros Hk. revert st. induction rows as [|i rows IH]; intros st; [done|].
  cbn [run_rows]. rewrite sample_row_plain by done.
  destruct (sample_row op batch i st) as [[|e] st1]; [apply IH|done].
Qed.

Lemma RunOnDevice_plain op batch ids st :
  key_tracking op = false →
  RunOnDevice op {| DATA := DATA batch; OBJECT_ID := ids |} st
    = RunOnDevice op batch st.
Proof.
  intros Hk. unfold RunOnDevice, countNewEntries. rewrite Hk.
  cbn [andb DATA]. cbv zeta. by rewrite run_rows_plain.
Qed.

Lemma run_rows_plain_counter op batch rows st :
  key_tracking op = false →
  0 ≤ num_visited st →
  num_visited (run_rows op batch rows st).2
    = num_visited st + Z.of_nat (length rows).
Proof.
  intros Hk. revert st. induction rows as [|i rows IH]; intros st Hv.
  { simpl. lia. }
  cbn [run_rows]. rewrite sample_row_new; [|done|].
  - rewrite IH by (rewrite after_row_num_visited; lia).
    rewrite after_row_num_visited, length_cons. lia.
  - unfold already_in_pool. by rewrite Hk.
Qed.

Lemma sample_row_plain_index op batch i st :
  key_tracking op = false →
  OBJECT_TO_POS_MAP (sample_row op batch i st).2 = OBJECT_TO_POS_MAP st ∧
  POS_TO_OBJECT (sample_row op batch i st).2 = POS_TO_OBJECT st.
Proof.
  intros Hk. unfold sample_row, already_in_pool, bind_slot, binds_owners.
  rewrite Hk.
  cbn [andb]. destruct (choose_pos op st) as [pos g].
  destruct (decide (pos < 0)); [by case_decide|done].
Qed.

(** Without key tracking (3 inputs, 2 outputs) a call whose inputs pass the
    checks always succeeds: every row is visited, NUM_VISITED advances by
    the number of rows, the index blobs are left alone, and whatever sits
    in the OBJECT_ID blob has no effect on the result.  The number of rows
    has to fit [int32_t], the type [countNewEntries] returns, and the rows
    must not take the int64_t counter beyond INT64_MAX. *)
Theorem plain_call_visits_every_row op batch st :
  key_tracking op = false →
  valid_call op batch st →
  0 ≤ dim (dims (DATA batch)) 0 →
  dim (dims (DATA batch)) 0 < 2147483648 →
  num_visited st + dim (dims (DATA batch)) 0 ≤ INT64_MAX →
  (RunOnDevice op batch st).1 = Done ∧
  num_visited (RunOnDevice op batch st).2
    = num_visited st + dim (dims (DATA batch)) 0 ∧
  OBJECT_TO_POS_MAP (RunOnDevice op batch st).2 = OBJECT_TO_POS_MAP st ∧
  POS_TO_OBJECT (RunOnDevice op batch st).2 = POS_TO_OBJECT st ∧
  ∀ ids, RunOnDevice op {| DATA := DATA batch; OBJECT_ID := ids |} st
         = RunOnDevice op batch st.
Proof.
  intros Hk Hvalid Hn0 Hn31 _.
  assert (Hdone : ∃ st', RunOnDevice op batch st = (Done, st') ∧
            num_visited st' = num_visited st + dim (dims (DATA batch)) 0).
  { destruct (decide (dim (dims (DATA batch)) 0 = 0)) as [Hz|Hne].
    - destruct Hvalid as (Hnd & Hshape & _). unfold RunOnDevice.
      rewrite decide_False by lia. rewrite Hz.
      destruct (decide (0 < r_size (RESERVOIR st))) as [Hinit|Hinit].
      + rewrite (bool_decide_eq_true_2 _ Hinit), (Hshape Hinit).
        cbn [andb negb]. cbv zeta. rewrite decide_True by done.
        eexists. split; [done|]. unfold num_visited. simpl. lia.
      + rewrite (bool_decide_eq_false_2 _ Hinit).
        cbn [andb]. cbv zeta. rewrite decide_True by done.
        eexists. split; [done|]. unfold num_visited. simpl. lia.
    - rewrite (RunOnDevice_valid op batch st (dim (dims (DATA batch)) 0));
        [|done|done|].
      + pose proof (valid_call_run_rows op batch st (dim (dims (DATA batch)) 0)
                      (seqZ 0 (dim (dims (DATA batch)) 0)) Hvalid) as Hdone.
        pose proof (run_rows_plain_counter op batch
                      (seqZ 0 (dim (dims (DATA batch)) 0))
                      (prepare op batch (dim (dims (DATA batch)) 0) st) Hk)
          as Hcount.
        destruct (run_rows op batch _ (prepare op batch _ st)) as [o st1].
        cbn [fst snd] in *. subst o.
        assert (Hst1 : num_visited st1
                       = num_visited st + dim (dims (DATA batch)) 0).
        { rewrite Hcount.
          - unfold num_visited. rewrite prepare_num_visited, length_seqZ. lia.
          - unfold num_visited. rewrite prepare_num_visited.
            by destruct Hvalid as (_ & _ & _ & ? & _). }
        rewrite decide_True by done. eauto.
      + unfold countNewEntries. rewrite Hk. by rewrite to_int32_small. }
  destruct Hdone as (st' & Hrun & Hcount). split_and!.
  - by rewrite Hrun.
  - by rewrite Hrun.
  - apply (RunOnDevice_invariant
             (λ s, OBJECT_TO_POS_MAP s = OBJECT_TO_POS_MAP st)); [congruence| |done].
    intros i s _ _ <-. by apply sample_row_plain_index.
  - apply (RunOnDevice_invariant
             (λ s, POS_TO_OBJECT s = POS_TO_OBJECT st)); [congruence| |done].
    intros i s _ _ <-. by apply sample_row_plain_index.
  - intros ids. by apply RunOnDevice_plain.
Qed.

End Invariants.

(** ** The index of keys *)

Section Index.
Context {G : Type} `{RandGenerator G}.
Implicit Types (op : ReservoirSamplingOp) (batch : Batch) (st : State G).

Lemma emplace_absent (k v : Z) (m : gmap Z Z) :
  m !! k = None → emplace k v m = <[k := v]> m.
Proof. intros Hk. unfold emplace. by rewrite Hk. Qed.

(** What one row does to the index: nothing, or it binds the key of the row
    to a slot inside the capacity after unbinding the owner of that slot. *)
Lemma sample_row_index_cases op batch i st :
  (OBJECT_TO_POS_MAP (sample_row op batch i st).2 = OBJECT_TO_POS_MAP st ∧
   POS_TO_OBJECT (sample_row op batch i st).2 = POS_TO_OBJECT st ∧
   (num_visited (sample_row op batch i st).2 = num_visited st ∨
    num_visited (sample_row op batch i st).2 = num_visited st + 1 ∧
    (binds_owners op st = false ∨ numToCollect_ op ≤ num_visited st))) ∨
  (∃ pos,
     key_tracking op = true ∧
     OBJECT_TO_POS_MAP st !! cell (oid_data (OBJECT_ID batch)) i = None ∧
     0 ≤ pos ∧ pos < numToCollect_ op ∧
     (num_visited st < numToCollect_ op → pos = num_visited st) ∧
     OBJECT_TO_POS_MAP (sample_row op batch i st).2
       = <[cell (oid_data (OBJECT_ID batch)) i := pos]>
           (delete (cell (POS_TO_OBJECT st) pos) (OBJECT_TO_POS_MAP st)) ∧
     POS_TO_OBJECT (sample_row op batch i st).2
       = <[Z.to_nat pos := cell (oid_data (OBJECT_ID batch)) i]>
           (POS_TO_OBJECT st) ∧
     num_visited (sample_row op batch i st).2 = num_visited st + 1).
Proof.
  unfold sample_row.
  destruct (already_in_pool op batch i st) eqn:Hin; [left; simpl; auto|].
  pose proof (choose_pos_below_capacity op st) as Hcap.
  pose proof (choose_pos_append op st) as Happ.
  destruct (choose_pos op st) as [pos g]. cbn [fst] in Hcap.
  change (num_visited (set_RandGen g st)) with (num_visited st).
  destruct (decide (pos < 0)) as [Hneg|Hpos].
  { left. destruct (decide (numToCollect_ op ≤ num_visited st)); cbn [snd].
    - split_and!; [done..|]. right. split; [done|by right].
    - split_and!; [done..|]. by left. }
  unfold bind_slot.
  change (binds_owners op (set_RESERVOIR _ (set_RandGen g st)))
    with (binds_owners op st).
  destruct (binds_owners op st) eqn:Hb; cbn [snd].
  - apply binds_owners_inv in Hb as [Hk _].
    unfold already_in_pool in Hin. rewrite Hk in Hin. cbn [andb] in Hin.
    apply bool_decide_eq_false in Hin. apply eq_None_not_Some in Hin.
    right. exists pos. split_and!; [done|done|lia|lia| | |done|done].
    + intros Hv. specialize (Happ Hv). by simplify_eq.
    + cbn. apply emplace_absent. by apply lookup_delete_None; right.
  - left. split_and!; [done..|]. right. split; [done|by left].
Qed.

Lemma index_sound_bind op st (key pos : Z) :
  numToCollect_ op ≤ Z.of_nat (length (POS_TO_OBJECT st)) →
  0 ≤ pos → pos < numToCollect_ op →
  index_sound op st →
  ∀ k s,
    <[key := pos]> (delete (cell (POS_TO_OBJECT st) pos) (OBJECT_TO_POS_MAP st))
      !! k = Some s →
    0 ≤ s ∧ s < numToCollect_ op ∧
    <[Z.to_nat pos := key]> (POS_TO_OBJECT st) !! Z.to_nat s = Some k.
Proof.
  intros Hlen H0 Hcap Hsound k s Hk.
  destruct (decide (k = key)) as [->|Hne].
  - rewrite lookup_insert_eq in Hk. simplify_eq. split_and!; [done..|].
    apply list_lookup_insert_eq. lia.
  - rewrite lookup_insert_ne in Hk by done.
    apply lookup_delete_Some in Hk as [Hold Hk].
    destruct (Hsound k s Hk) as (Hs0 & Hs1 & Hown). split_and!; [done..|].
    rewrite list_lookup_insert_ne; [done|].
    intros Heq. apply Hold. assert (s = pos) as -> by lia.
    by apply cell_lookup.
Qed.

(** Whatever a call does, and whether it succeeds or throws: if the owner
    array has a cell for every slot and every entry of the map points at a
    slot that names its key as owner, the same holds afterwards.  Hence two
    keys never share a slot, and a key found in the map (a row skipped as
    already in the pool) does own a slot of the reservoir. *)
Theorem index_sound_preserved op batch st :
  numToCollect_ op ≤ Z.of_nat (length (POS_TO_OBJECT st)) →
  index_sound op st →
  index_sound op (RunOnDevice op batch st).2 ∧
  length (POS_TO_OBJECT (RunOnDevice op batch st).2)
    = length (POS_TO_OBJECT st) ∧
  ∀ k1 k2 s,
    OBJECT_TO_POS_MAP (RunOnDevice op batch st).2 !! k1 = Some s →
    OBJECT_TO_POS_MAP (RunOnDevice op batch st).2 !! k2 = Some s →
    k1 = k2.
Proof.
  intros Hlen Hsound.
  assert (Hinv : index_sound op (RunOnDevice op batch st).2 ∧
                 length (POS_TO_OBJECT (RunOnDevice op batch st).2)
                   = length (POS_TO_OBJECT st)).
  { apply (RunOnDevice_invariant
             (λ s, index_sound op s ∧
                   length (POS_TO_OBJECT s) = length (POS_TO_OBJECT st)));
      [| |done].
    - intros s1 s2 _ Hm Hp _ [Hs Hl]. unfold index_sound.
      rewrite Hm, Hp. done.
    - intros i s _ _ [Hs Hl].
      destruct (sample_row_index_cases op batch i s)
        as [(Hm & Hp & _)|(pos & _ & _ & H0 & Hcap & _ & Hm & Hp & _)].
      + unfold index_sound. rewrite Hm, Hp. done.
      + split; [|by rewrite Hp, length_insert].
        unfold index_sound. rewrite Hm, Hp.
        apply index_sound_bind; [lia|done..]. }
  destruct Hinv as [Hsound' Hlen']. split_and!; [done..|].
  intros k1 k2 s H1 H2.
  destruct (Hsound' k1 s H1) as (_ & _ & Ho1).
  destruct (Hsound' k2 s H2) as (_ & _ & Ho2). congruence.
Qed.

Lemma written_slots_nonneg op st : 0 ≤ written_slots op st.
Proof. unfold written_slots. lia. Qed.

Lemma elem_of_stale_cells op st (x : Z) :
  x ∈ stale_cells op st ↔
  ∃ j, written_slots op st ≤ j ∧ j < numToCollect_ op ∧
       POS_TO_OBJECT st !! Z.to_nat j = Some x.
Proof.
  pose proof (written_slots_nonneg op st) as Hw.
  unfold stale_cells. rewrite list_elem_of_lookup. split.
  - intros [n Hn]. rewrite lookup_drop in Hn.
    apply lookup_take_Some in Hn as [Hx Hlt].
    exists (Z.of_nat (Z.to_nat (written_slots op st) + n)).
    rewrite Nat2Z.id. split_and!; [lia|lia|done].
  - intros (j & Hj & Hc & Hx).
    exists (Z.to_nat j - Z.to_nat (written_slots op st))%nat.
    rewrite lookup_drop, lookup_take_lt by lia.
    by replace (Z.to_nat (written_slots op st) +
                (Z.to_nat j - Z.to_nat (written_slots op st)))%nat
      with (Z.to_nat j) by lia.
Qed.

Lemma index_complete_bind op (s s' : State G) (key pos : Z) :
  numToCollect_ op ≤ Z.of_nat (length (POS_TO_OBJECT s)) →
  OBJECT_TO_POS_MAP s !! key = None →
  0 ≤ pos → pos < numToCollect_ op →
  (num_visited s < numToCollect_ op → pos = num_visited s) →
  OBJECT_TO_POS_MAP s'
    = <[key := pos]> (delete (cell (POS_TO_OBJECT s) pos) (OBJECT_TO_POS_MAP s)) →
  POS_TO_OBJECT s' = <[Z.to_nat pos := key]> (POS_TO_OBJECT s) →
  num_visited s' = num_visited s + 1 →
  key ∉ stale_cells op s →
  index_complete op s →
  (∀ x, x ∈ stale_cells op s → OBJECT_TO_POS_MAP s !! x = None) →
  index_complete op s' ∧
  (∀ x, x ∈ stale_cells op s' → OBJECT_TO_POS_MAP s' !! x = None) ∧
  stale_cells op s' ⊆ stale_cells op s.
Proof.
  intros Hlen Hkey H0 Hcap Hpos Hm Hp Hv Hfresh Hcomplete Hstale.
  destruct (lookup_lt_is_Some_2 (POS_TO_OBJECT s) (Z.to_nat pos)) as [old Hold];
    [lia|].
  rewrite (cell_lookup _ _ _ Hold) in Hm.
  assert (Hw : written_slots op s ≤ written_slots op s' ∧
               written_slots op s' ≤ written_slots op s + 1 ∧
               (written_slots op s' = written_slots op s + 1 →
                pos = written_slots op s) ∧
               (written_slots op s' = written_slots op s →
                pos < written_slots op s)).
  { unfold written_slots. rewrite Hv. lia. }
  destruct Hw as (Hw1 & Hw2 & Hw3 & Hw4).
  assert (Hsub : stale_cells op s' ⊆ stale_cells op s).
  { intros x. rewrite !elem_of_stale_cells. intros (j & Hj & Hc & Hx).
    exists j. split_and!; [lia|done|].
    rewrite Hp, list_lookup_insert_ne in Hx; [done|].
    destruct (decide (written_slots op s' = written_slots op s)); lia. }
  assert (Hother : ∀ s0 k, 0 ≤ s0 → s0 < written_slots op s → s0 ≠ pos →
                     OBJECT_TO_POS_MAP s !! k = Some s0 → k ≠ old).
  { intros s0 k Hs0 Hs1 Hs2 Hk ->.
    destruct (decide (pos < written_slots op s)) as [Hin|Hout].
    - destruct (Hcomplete pos H0 Hin) as (k' & Hk' & Hmk'). simplify_eq.
    - assert (OBJECT_TO_POS_MAP s !! old = None); [|congruence].
      apply Hstale, elem_of_stale_cells. exists pos. split_and!; [lia|done..]. }
  split_and!; [| |done].
  - intros s0 Hs0 Hs1. destruct (decide (s0 = pos)) as [->|Hne].
    + exists key. rewrite Hp, Hm. split.
      * apply list_lookup_insert_eq. lia.
      * apply lookup_insert_eq.
    + destruct (Hcomplete s0 Hs0) as (k & Hk & Hmk).
      { destruct (decide (written_slots op s' = written_slots op s)); lia. }
      exists k. rewrite Hp, Hm. split.
      * rewrite list_lookup_insert_ne; [done|lia].
      * rewrite lookup_insert_ne by congruence.
        rewrite lookup_delete_ne; [done|].
        intros Heq. eapply (Hother s0 k); try done.
        destruct (decide (written_slots op s' = written_slots op s)); lia.
  - intros x Hx. rewrite Hm.
    rewrite lookup_insert_ne.
    + apply lookup_delete_None. right. by apply Hstale, Hsub.
    + intros <-. by apply Hfresh, Hsub.
Qed.

(** With key tracking, the map and the owner array stay inverse of each
    other over the written slots, provided the keys of the batch (one per
    row) avoid the values that the caller left in the owner cells not yet
    written (the loop reads such a cell as the previous owner of the slot
    and erases that key from the map).  The precondition is kept: the
    leftover values only become fewer.  The written slots are counted by
    NUM_VISITED, an int64_t that the rows of the call must not overflow. *)
Theorem index_stays_inverse op batch st :
  key_tracking op = true →
  num_visited st + dim (dims (DATA batch)) 0 ≤ INT64_MAX →
  numToCollect_ op ≤ Z.of_nat (length (POS_TO_OBJECT st)) →
  index_sound op st →
  index_complete op st →
  (∀ x, x ∈ stale_cells op st → OBJECT_TO_POS_MAP st !! x = None) →
  oid_size (OBJECT_ID batch) = dim (dims (DATA batch)) 0 →
  (∀ k, k ∈ oid_data (OBJECT_ID batch) → k ∉ stale_cells op st) →
  index_sound op (RunOnDevice op batch st).2 ∧
  index_complete op (RunOnDevice op batch st).2 ∧
  (∀ x, x ∈ stale_cells op (RunOnDevice op batch st).2 →
        OBJECT_TO_POS_MAP (RunOnDevice op batch st).2 !! x = None) ∧
  stale_cells op (RunOnDevice op batch st).2 ⊆ stale_cells op st.
Proof.
  intros Hk _ Hlen Hsound Hcomplete Hstale Hsize Hids.
  set (Q := λ s : State G,
         length (POS_TO_OBJECT s) = length (POS_TO_OBJECT st) ∧
         index_sound op s ∧ index_complete op s ∧
         (∀ x, x ∈ stale_cells op s → OBJECT_TO_POS_MAP s !! x = None) ∧
         stale_cells op s ⊆ stale_cells op st).
  assert (Hblobs : ∀ s1 s2 : State G,
            written_slots op s2 = written_slots op s1 →
            OBJECT_TO_POS_MAP s2 = OBJECT_TO_POS_MAP s1 →
            POS_TO_OBJECT s2 = POS_TO_OBJECT s1 → Q s1 → Q s2).
  { intros s1 s2 Hw Hm Hp (Hl & Hs & Hc & Hst & Hsub).
    unfold Q, index_sound, index_complete, stale_cells.
    rewrite Hw, Hm, Hp. done. }
  assert (HQ : Q (RunOnDevice op batch st).2).
  { apply RunOnDevice_invariant.
    - intros s1 s2 Hn Hm Hp _. apply Hblobs; [|done..].
      unfold written_slots, num_visited. by rewrite Hn.
    - intros i s Hi0 Hi1 HQ.
      destruct (sample_row_index_cases op batch i s)
        as [(Hm & Hp & Hv)
           |(pos & _ & Hkey & H0 & Hcap & Hpos & Hm & Hp & Hv)].
      + assert (Hw : written_slots op (sample_row op batch i s).2
                     = written_slots op s).
        { unfold written_slots. destruct Hv as [->|[-> [Hf|Hfull]]]; [done| |lia].
          apply binds_owners_none in Hf; [|done].
          destruct HQ as (Hl & _). rewrite Hf in Hl. simpl in Hl. lia. }
        revert HQ. by apply Hblobs.
      + destruct HQ as (Hl & Hs & Hc & Hst & Hsub).
        destruct (index_complete_bind op s (sample_row op batch i s).2
                    (cell (oid_data (OBJECT_ID batch)) i) pos)
          as (Hc' & Hst' & Hsub'); try done.
        * lia.
        * intros Hin. apply (Hids (cell (oid_data (OBJECT_ID batch)) i)).
          -- apply cell_elem_of; [done|]. unfold oid_size in Hsize. lia.
          -- by apply Hsub.
        * split_and!; [by rewrite Hp, length_insert| |done|done|].
          -- unfold index_sound. rewrite Hm, Hp.
             apply index_sound_bind; [lia|done..].
          -- by etrans.
    - by split_and!. }
  by destruct HQ as (_ & ? & ? & ? & ?).
Qed.

(** No random number is drawn before the reservoir is full: a call that
    leaves NUM_VISITED at most at the capacity has not touched the
    generator of the context (its rows not taking the int64_t counter
    beyond INT64_MAX, where a counter that wrapped would be small again). *)
Theorem no_draw_before_full op batch st :
  num_visited st + Z.max 0 (dim (dims (DATA batch)) 0) ≤ INT64_MAX →
  num_visited (RunOnDevice op batch st).2 ≤ numToCollect_ op →
  RandGen (RunOnDevice op batch st).2 = RandGen st.
Proof.
  intros _.
  apply (RunOnDevice_invariant
           (λ s, num_visited s ≤ numToCollect_ op → RandGen s = RandGen st));
    [| |done].
  - intros s1 s2 Hn _ _ Hg HQ. unfold num_visited. rewrite Hn, Hg. exact HQ.
  - intros i s _ _ HQ.
    pose proof (sample_row_counter op batch i s) as (_ & Hlo & _).
    unfold sample_row.
    destruct (already_in_pool op batch i s); [done|].
    pose proof (choose_pos_append op s) as Happ.
    destruct (choose_pos op s) as [pos g].
    change (num_visited (set_RandGen g s)) with (num_visited s).
    assert (Hcases : ∀ s' : State G,
              RandGen s' = g →
              num_visited s ≤ num_visited s' →
              (numToCollect_ op ≤ num_visited s →
               num_visited s' = num_visited s + 1) →
              num_visited s' ≤ numToCollect_ op → RandGen s' = RandGen st).
    { intros s' Hg Hmono Hfull Hle.
      destruct (decide (num_visited s < numToCollect_ op)) as [Hlt|Hge].
      - injection (Happ Hlt) as _ Hgen. rewrite Hg, Hgen. apply HQ. lia.
      - lia. }
    destruct (decide (pos < 0)).
    + destruct (decide (numToCollect_ op ≤ num_visited s)); cbn [snd];
        apply Hcases; try done; unfold num_visited; simpl; lia.
    + cbn [snd]. apply Hcases.
      * cbn. by rewrite bind_slot_RandGen.
      * unfold num_visited at 2. cbn. rewrite bind_slot_num_visited.
        unfold num_visited. simpl. lia.
      * intros _. unfold num_visited at 1. cbn. by rewrite bind_slot_num_visited.
Qed.

End Index.

Lemma plain_call_visits_every_row_witness :
  (RunOnDevice (plain_op 2) (byte_batch ["001"; "002"; "003"]%byte [])
               (initial_state 0 [1])).1 = Done ∧
  num_visited (RunOnDevice (plain_op 2)
                 (byte_batch ["001"; "002"; "003"]%byte [])
                 (initial_state 0 [1])).2 = 3.
Proof.
  destruct (plain_call_visits_every_row (plain_op 2)
              (byte_batch ["001"; "002"; "003"]%byte []) (initial_state 0 [1]))
    as (Hdone & Hcount & _).
  - reflexivity.
  - vm_compute. by repeat split.
  - by vm_compute.
  - by vm_compute.
  - by vm_compute.
  - split; [exact Hdone|exact Hcount].
Defined.

Lemma index_sound_preserved_witness :
  index_sound (tracking_op 2)
    (RunOnDevice (tracking_op 2) (byte_batch ["001"; "002"; "003"]%byte [0; 5; 7])
                 (initial_state 2 [1])).2.
Proof.
  destruct (index_sound_preserved (tracking_op 2)
              (byte_batch ["001"; "002"; "003"]%byte [0; 5; 7])
              (initial_state 2 [1]))
    as (Hsound & _).
  - by vm_compute.
  - intros k s Hk. cbn in Hk. by rewrite lookup_empty in Hk.
  - exact Hsound.
Defined.

Lemma index_stays_inverse_witness :
  index_complete (tracking_op 2)
    (RunOnDevice (tracking_op 2) (byte_batch ["001"; "002"; "003"]%byte [4; 5; 7])
                 (initial_state 2 [1])).2.
Proof.
  destruct (index_stays_inverse (tracking_op 2)
              (byte_batch ["001"; "002"; "003"]%byte [4; 5; 7])
              (initial_state 2 [1]))
    as (_ & Hcomplete & _).
  - reflexivity.
  - by vm_compute.
  - by vm_compute.
  - intros k s Hk. cbn in Hk. by rewrite lookup_empty in Hk.
  - intros s H0 Hs. change (s < 0) in Hs. lia.
  - intros x _. apply lookup_empty.
  - reflexivity.
  - apply Forall_forall. compute_done.
  - exact Hcomplete.
Defined.

Lemma no_draw_before_full_witness :
  RandGen (RunOnDevice (tracking_op 2) (byte_batch ["001"; "002"]%byte [4; 5])
                       (initial_state 2 [1; 0])).2 = [1; 0].
Proof.
  apply (no_draw_before_full (tracking_op 2)
           (byte_batch ["001"; "002"]%byte [4; 5]) (initial_state 2 [1; 0])).
  - by vm_compute.
  - by vm_compute.
Defined.

(** ** The content of the reservoir *)

Section Content.
Context {G : Type} `{RandGenerator G}.
Implicit Types (op : ReservoirSamplingOp) (batch : Batch) (st : State G).

(** Where a call can stop, with the storage the loop starts from: the one of
    the state, grown by [Reserve] to the capacity. *)
Lemma RunOnDevice_loop_cases op batch st :
  ∃ st0,
    NUM_VISITED st0 = NUM_VISITED st ∧
    OBJECT_TO_POS_MAP st0 = OBJECT_TO_POS_MAP st ∧
    POS_TO_OBJECT st0 = POS_TO_OBJECT st ∧
    RandGen st0 = RandGen st ∧
    (∃ k : nat, r_slots (RESERVOIR st0)
                = r_slots (RESERVOIR st) ++ replicate k None) ∧
    ((RunOnDevice op batch st).2 = st0 ∨
     numToCollect_ op ≤ Z.of_nat (length (r_slots (RESERVOIR st0))) ∧
     (RunOnDevice op batch st).2 =
       (run_rows op batch (seqZ 0 (dim (dims (DATA batch)) 0)) st0).2).
Proof.
  unfold RunOnDevice.
  case_decide as Hnd.
  { exists st. split_and!; [done..| |by left]. exists 0%nat. by rewrite app_nil_r. }
  destruct (_ && _).
  { exists st. split_and!; [done..| |by left]. exists 0%nat. by rewrite app_nil_r. }
  cbv zeta.
  assert (Hd : dims (DATA batch) ≠ []).
  { intros Hd. apply Hnd. unfold ndim. rewrite Hd. simpl. lia. }
  set (R := Reserve _ (RESERVOIR st)).
  assert (HR : (∃ k : nat, r_slots R = r_slots (RESERVOIR st) ++ replicate k None) ∧
               numToCollect_ op ≤ Z.of_nat (length (r_slots R))).
  { subst R. unfold Reserve. cbn [r_slots]. rewrite dim_insert_0 by done.
    split; [by eexists|]. rewrite length_app, length_replicate. lia. }
  destruct HR as [Hext Hlen].
  destruct (decide (dim (dims (DATA batch)) 0 = 0)) as [Hzero|Hnz].
  { eexists. split_and!; [..|left; reflexivity]; by destruct (bool_decide _). }
  rewrite countNewEntries_set_RESERVOIR.
  destruct (countNewEntries op batch st) as [e0|cnt].
  { eexists. split_and!; [..|left; reflexivity]; done. }
  set (bs := output_batch_size _ _).
  set (st1 := if decide (bs < numToCollect_ op) then _ else _).
  assert (Hst1 : NUM_VISITED st1 = NUM_VISITED st ∧
                 OBJECT_TO_POS_MAP st1 = OBJECT_TO_POS_MAP st ∧
                 POS_TO_OBJECT st1 = POS_TO_OBJECT st ∧
                 RandGen st1 = RandGen st ∧
                 r_slots (RESERVOIR st1) = r_slots R).
  { subst st1. by destruct (decide (bs < numToCollect_ op)). }
  destruct Hst1 as (Hn1 & Hm1 & Hp1 & Hg1 & Hs1).
  set (st2 := set_RESERVOIR (raw_mutable_data _ (RESERVOIR st1)) st1).
  destruct (decide (nv_ndim (NUM_VISITED st2) ≠ 0)).
  { exists st2. split_and!; [done..| |by left]. cbn. by rewrite Hs1. }
  destruct (decide (num_visited st2 < 0)).
  { exists st2. split_and!; [done..| |by left]. cbn. by rewrite Hs1. }
  set (st3 := if key_tracking op && bool_decide (bs < numToCollect_ op)
              then _ else _).
  assert (Hst3 : NUM_VISITED st3 = NUM_VISITED st ∧
                 OBJECT_TO_POS_MAP st3 = OBJECT_TO_POS_MAP st ∧
                 POS_TO_OBJECT st3 = POS_TO_OBJECT st ∧
                 RandGen st3 = RandGen st ∧
                 r_slots (RESERVOIR st3) = r_slots R).
  { subst st3. by destruct (key_tracking op && bool_decide (bs < numToCollect_ op)). }
  destruct Hst3 as (Hn3 & Hm3 & Hp3 & Hg3 & Hs3).
  exists st3. split_and!; [done..|by rewrite Hs3|].
  destruct (key_tracking op && negb (bool_decide (oid_ndim _ = 1))); [by left|].
  destruct (key_tracking op && negb (bool_decide (oid_size _ = _))); [by left|].
  right. split; [by rewrite Hs3|].
  destruct (run_rows op batch _ st3) as [[|e1] st4]; [|done].
  by destruct (decide (num_visited st4 = _)).
Qed.

(** What one row does to the storage: nothing, or it writes the block of
    the row to the slot that the index binds to the key of the row. *)
Lemma sample_row_slots_cases op batch i st :
  (r_slots (RESERVOIR (sample_row op batch i st).2) = r_slots (RESERVOIR st) ∧
   OBJECT_TO_POS_MAP (sample_row op batch i st).2 = OBJECT_TO_POS_MAP st ∧
   POS_TO_OBJECT (sample_row op batch i st).2 = POS_TO_OBJECT st) ∨
  (∃ pos,
     0 ≤ pos ∧ pos < numToCollect_ op ∧
     r_slots (RESERVOIR (sample_row op batch i st).2)
       = <[Z.to_nat pos := Some (block_at (DATA batch) i)]>
           (r_slots (RESERVOIR st)) ∧
     (binds_owners op st = false ∧
      OBJECT_TO_POS_MAP (sample_row op batch i st).2 = OBJECT_TO_POS_MAP st ∧
      POS_TO_OBJECT (sample_row op batch i st).2 = POS_TO_OBJECT st ∨
      key_tracking op = true ∧
      OBJECT_TO_POS_MAP (sample_row op batch i st).2
        = <[cell (oid_data (OBJECT_ID batch)) i := pos]>
            (delete (cell (POS_TO_OBJECT st) pos) (OBJECT_TO_POS_MAP st)) ∧
      POS_TO_OBJECT (sample_row op batch i st).2
        = <[Z.to_nat pos := cell (oid_data (OBJECT_ID batch)) i]>
            (POS_TO_OBJECT st))).
Proof.
  unfold sample_row.
  destruct (already_in_pool op batch i st) eqn:Hin; [by left|].
  pose proof (choose_pos_below_capacity op st) as Hcap.
  destruct (choose_pos op st) as [pos g]. cbn [fst] in Hcap.
  destruct (decide (pos < 0)) as [Hneg|Hpos].
  { left. by destruct (decide (numToCollect_ op ≤ _)). }
  right. exists pos. split_and!; [lia|lia| |].
  { cbn [snd set_num_visited RESERVOIR]. by rewrite bind_slot_RESERVOIR. }
  unfold bind_slot.
  change (binds_owners op (set_RESERVOIR _ (set_RandGen g st)))
    with (binds_owners op st).
  destruct (binds_owners op st) eqn:Hb; cbn [snd]; [right|by left].
  apply binds_owners_inv in Hb as [Hk _].
  unfold already_in_pool in Hin. rewrite Hk in Hin. cbn [andb] in Hin.
  apply bool_decide_eq_false in Hin. apply eq_None_not_Some in Hin.
  cbn. split_and!; [done| |done].
  apply emplace_absent. by apply lookup_delete_None; right.
Qed.

(** Where the blocks in the storage come from: a block found in a slot
    after a call, however the call ended, was in that slot before the call
    or is a row of the batch, written to a slot below the capacity.  The
    storage never shrinks. *)
Theorem stored_block_provenance op batch st :
  (length (r_slots (RESERVOIR st))
     ≤ length (r_slots (RESERVOIR (RunOnDevice op batch st).2)))%nat ∧
  ∀ (s : nat) (b : Block),
    r_slots (RESERVOIR (RunOnDevice op batch st).2) !! s = Some (Some b) →
    r_slots (RESERVOIR st) !! s = Some (Some b) ∨
    Z.of_nat s < numToCollect_ op ∧
    ∃ i, 0 ≤ i ∧ i < dim (dims (DATA batch)) 0 ∧ b = block_at (DATA batch) i.
Proof.
  set (Q := λ s0 : State G,
         (length (r_slots (RESERVOIR st)) ≤ length (r_slots (RESERVOIR s0)))%nat ∧
         ∀ (s : nat) (b : Block),
           r_slots (RESERVOIR s0) !! s = Some (Some b) →
           r_slots (RESERVOIR st) !! s = Some (Some b) ∨
           Z.of_nat s < numToCollect_ op ∧
           ∃ i, 0 ≤ i ∧ i < dim (dims (DATA batch)) 0 ∧
                b = block_at (DATA batch) i).
  change (Q (RunOnDevice op batch st).2).
  destruct (RunOnDevice_loop_cases op batch st)
    as (st0 & _ & _ & _ & _ & [k Hext] & Hst').
  assert (HQ0 : Q st0).
  { split.
    - rewrite Hext, length_app. lia.
    - intros s b Hs. left. rewrite Hext in Hs.
      apply lookup_app_Some in Hs as [Hs|[_ Hs]]; [done|].
      apply lookup_replicate in Hs as [[=] _]. }
  destruct Hst' as [->|[_ ->]]; [done|].
  apply run_rows_invariant; [|done].
  intros i s0 Hi [Hlen Hprov]. apply elem_of_seqZ in Hi.
  destruct (sample_row_slots_cases op batch i s0)
    as [(Hs & _)|(pos & H0 & Hcap & Hs & _)]; split.
  - by rewrite Hs.
  - intros s b. rewrite Hs. apply Hprov.
  - by rewrite Hs, length_insert.
  - intros s b. rewrite Hs. intros Hb.
    destruct (decide (s = Z.to_nat pos)) as [->|Hne].
    + apply list_lookup_insert_Some in Hb as [(_ & Hb & _)|[? _]]; [|done].
      right. split; [lia|]. exists i. split_and!; [lia|lia|congruence].
    + rewrite list_lookup_insert_ne in Hb by done. by apply Hprov.
Qed.

(** With key tracking, the slot that the map gives for a key holds a row
    that was fed with that key: if that is so before a call, for a relation
    [R] between keys and blocks that holds of every row of the batch, it is
    so after the call, however the call ended. *)
Theorem mapped_slot_holds_row_of_key (R : Z → Block → Prop) op batch st :
  key_tracking op = true →
  numToCollect_ op ≤ Z.of_nat (length (POS_TO_OBJECT st)) →
  index_sound op st →
  keyed_content R st →
  (∀ i, 0 ≤ i → i < dim (dims (DATA batch)) 0 →
        R (cell (oid_data (OBJECT_ID batch)) i) (block_at (DATA batch) i)) →
  keyed_content R (RunOnDevice op batch st).2.
Proof.
  intros Hk Hlen Hsound Hcontent Hrows.
  destruct (RunOnDevice_loop_cases op batch st)
    as (st0 & _ & Hm & Hp & _ & [n Hext] & Hst').
  assert (Hcontent0 : keyed_content R st0).
  { intros k s Hks. rewrite Hm in Hks.
    destruct (Hcontent k s Hks) as (b & Hb & HR). exists b. split; [|done].
    rewrite Hext. by apply lookup_app_l_Some. }
  destruct Hst' as [->|[Hcap ->]]; [done|].
  set (Q := λ s0 : State G,
         length (POS_TO_OBJECT s0) = length (POS_TO_OBJECT st) ∧
         numToCollect_ op ≤ Z.of_nat (length (r_slots (RESERVOIR s0))) ∧
         index_sound op s0 ∧ keyed_content R s0).
  assert (HQ : Q (run_rows op batch (seqZ 0 (dim (dims (DATA batch)) 0)) st0).2).
  { apply run_rows_invariant.
    - intros i s0 Hi (Hl & Hc & Hs & Hkc). apply elem_of_seqZ in Hi.
      destruct (sample_row_slots_cases op batch i s0)
        as [(Hsl & Hm' & Hp')
           |(pos & H0 & Hpos & Hsl & [(Hf & _)|(_ & Hm' & Hp')])].
      + unfold Q, index_sound, keyed_content. by rewrite Hsl, Hm', Hp'.
      + apply binds_owners_none in Hf; [|done].
        rewrite Hf in Hl. simpl in Hl. lia.
      + split_and!.
        * by rewrite Hp', length_insert.
        * by rewrite Hsl, length_insert.
        * unfold index_sound. rewrite Hm', Hp'.
          apply index_sound_bind; [lia|done..].
        * intros k s. rewrite Hm', Hsl. intros Hks.
          destruct (decide (k = cell (oid_data (OBJECT_ID batch)) i))
            as [->|Hne].
          -- rewrite lookup_insert_eq in Hks. simplify_eq.
             eexists. split; [apply list_lookup_insert_eq; lia|].
             apply Hrows; lia.
          -- rewrite lookup_insert_ne in Hks by done.
             apply lookup_delete_Some in Hks as [Hold Hks].
             destruct (Hkc k s Hks) as (b & Hb & HR). exists b. split; [|done].
             rewrite list_lookup_insert_ne; [done|].
             destruct (Hs k s Hks) as (Hs0 & _ & Hown).
             intros Heq. apply Hold. assert (s = pos) as -> by lia.
             by apply cell_lookup.
    - split_and!; [by rewrite Hp|done| |done].
      unfold index_sound. by rewrite Hm, Hp. }
  by destruct HQ as (_ & _ & _ & ?).
Qed.

End Content.

Lemma stored_block_provenance_witness :
  ∃ i, 0 ≤ i ∧ i < 3 ∧
       ["003"%byte]
       = block_at (DATA (byte_batch ["001"; "002"; "003"]%byte [4; 5; 7])) i.
Proof.
  destruct (stored_block_provenance (tracking_op 2)
              (byte_batch ["001"; "002"; "003"]%byte [4; 5; 7])
              (initial_state 2 [1])) as [_ Hprov].
  destruct (Hprov 1%nat ["003"%byte]) as [Hold|(_ & i & H0 & H3 & Hb)].
  - by vm_compute.
  - by vm_compute in Hold.
  - exists i. split_and!; [exact H0|exact H3|exact Hb].
Defined.

Lemma mapped_slot_holds_row_of_key_witness :
  keyed_content
    (λ k b, (k, b) ∈ batch_rows (byte_batch ["001"; "002"; "003"]%byte [4; 5; 7]))
    (RunOnDevice (tracking_op 2)
                 (byte_batch ["001"; "002"; "003"]%byte [4; 5; 7])
                 (initial_state 2 [1])).2.
Proof.
  apply mapped_slot_holds_row_of_key.
  - reflexivity.
  - by vm_compute.
  - intros k s Hk. cbn in Hk. by rewrite lookup_empty in Hk.
  - intros k s Hk. cbn in Hk. by rewrite lookup_empty in Hk.
  - intros i H0 H3. change (i < 3) in H3.
    assert (i = 0 ∨ i = 1 ∨ i = 2) as [->|[->| ->]] by lia; compute_done.
Defined.

(** ** The shape of the reservoir *)

Lemma product_dim_0 (d : list Z) :
  d ≠ [] → product d = dim d 0 * product (drop 1 d).
Proof. by destruct d. Qed.

Lemma drop_1_insert_0 (d : list Z) (x : Z) : drop 1 (<[0%nat := x]> d) = drop 1 d.
Proof. by destruct d. Qed.

Lemma insert_0_nonempty (d : list Z) (x : Z) : d ≠ [] → <[0%nat := x]> d ≠ [].
Proof. by destruct d. Qed.

Section Shape.
Context {G : Type} `{RandGenerator G}.
Implicit Types (op : ReservoirSamplingOp) (batch : Batch) (st : State G).

Lemma sample_row_shape op batch i st :
  r_dims (RESERVOIR (sample_row op batch i st).2) = r_dims (RESERVOIR st) ∧
  r_meta (RESERVOIR (sample_row op batch i st).2) = r_meta (RESERVOIR st).
Proof.
  unfold sample_row. destruct (already_in_pool op batch i st); [done|].
  destruct (choose_pos op st) as [pos g].
  destruct (decide (pos < 0)); [by case_decide|].
  cbn [snd set_num_visited RESERVOIR]. by rewrite bind_slot_RESERVOIR.
Qed.

Lemma run_rows_shape op batch rows st :
  r_dims (RESERVOIR (run_rows op batch rows st).2) = r_dims (RESERVOIR st) ∧
  r_meta (RESERVOIR (run_rows op batch rows st).2) = r_meta (RESERVOIR st).
Proof.
  apply (run_rows_invariant
           (λ s, r_dims (RESERVOIR s) = r_dims (RESERVOIR st) ∧
                 r_meta (RESERVOIR s) = r_meta (RESERVOIR st))); [|done].
  intros i s _ [<- <-]. apply sample_row_shape.
Qed.

(** The shape and the element type of the reservoir after a call that
    succeeds on a batch with rows: the rows have the shape of the rows of
    the batch, the element type is the one of the batch, and the first
    dimension is the one before the call, or has grown towards the capacity
    by the number of new entries.  On a reservoir that holds data, a first
    dimension that equals min(capacity, NUM_VISITED) before the call does so
    after it.  The rows of the call must not take the int64_t counter beyond
    INT64_MAX. *)
Theorem shape_after_successful_call op batch st st' :
  0 < numToCollect_ op →
  numToCollect_ op < 2147483648 →
  0 ≤ occupied_size st →
  num_visited st + Z.max 0 (dim (dims (DATA batch)) 0) ≤ INT64_MAX →
  RunOnDevice op batch st = (Done, st') →
  dim (dims (DATA batch)) 0 ≠ 0 →
  r_meta (RESERVOIR st') = Some (meta (DATA batch)) ∧
  drop 1 (default [] (r_dims (RESERVOIR st'))) = drop 1 (dims (DATA batch)) ∧
  (∃ n, countNewEntries op batch st = inr n ∧ 0 ≤ n ∧
     occupied_size st' =
       if bool_decide (0 < r_size (RESERVOIR st))
       then Z.max (occupied_size st)
                  (Z.min (numToCollect_ op) (occupied_size st + n))
       else Z.min (numToCollect_ op) n) ∧
  (0 < r_size (RESERVOIR st) →
   occupied_size st = Z.min (numToCollect_ op) (num_visited st) →
   0 < r_size (RESERVOIR st') ∧
   occupied_size st' = Z.min (numToCollect_ op) (num_visited st')).
Proof.
  intros HC0 HC31 Hocc _ Hrun Hne.
  assert (Hvalid : valid_call op batch st).
  { eapply RunOnDevice_past_checks; eauto. }
  destruct (valid_call_count _ _ _ Hvalid) as [n Hcount].
  rewrite (RunOnDevice_valid op batch st n Hvalid Hne Hcount) in Hrun.
  pose proof (run_rows_shape op batch (seqZ 0 (dim (dims (DATA batch)) 0))
                (prepare op batch n st)) as [Hdims Hmeta].
  pose proof (run_rows_counter op batch (seqZ 0 (dim (dims (DATA batch)) 0))
                (prepare op batch n st)) as (_ & Hmono & _).
  destruct (run_rows op batch _ (prepare op batch n st)) as [[|e] st1]; [|done].
  cbn [snd] in *. case_decide as Hsanity; [|done]. simplify_eq.
  unfold num_visited in Hmono at 1. rewrite prepare_num_visited in Hmono.
  fold (num_visited st) in Hmono.
  assert (Hn : 0 ≤ n) by lia.
  destruct Hvalid as (Hnd & Hshape & _ & Hv & _).
  assert (Hd : dims (DATA batch) ≠ []).
  { intros Hd. unfold ndim in Hnd. rewrite Hd in Hnd. simpl in Hnd. lia. }
  rewrite Hmeta, prepare_meta. split; [done|].
  unfold occupied_size, r_dim, r_size in *. rewrite Hdims, prepare_dims.
  unfold output_batch_size, grown_dims.
  destruct (decide (0 < match r_dims (RESERVOIR st) with
                        | Some d => product d | None => -1 end))
    as [Hinit|Hinit].
  - rewrite (bool_decide_eq_true_2 _ Hinit). specialize (Hshape Hinit).
    unfold row_shape_matches in Hshape. apply andb_true_iff in Hshape as [Hr Hs].
    apply bool_decide_eq_true in Hr. unfold r_ndim, r_dim in *.
    destruct (r_dims (RESERVOIR st)) as [d|] eqn:Hrd; [|lia].
    change (same_row_shape d (dims (DATA batch)) = true) in Hs.
    apply same_row_shape_spec in Hs; [|apply Nat2Z.inj, Hr].
    assert (Hdne : d ≠ []).
    { intros ->. unfold ndim in Hr. destruct (dims (DATA batch)); done. }
    pose proof (product_dim_0 d Hdne) as Hprod.
    rewrite ?(bool_decide_eq_true_2 (0 < product d)) by done.
    destruct (decide (dim d 0 < numToCollect_ op)) as [Hlt|Hge].
    + match goal with |- context [default [] (Some ?x)] =>
        change (default [] (Some x)) with x end.
      rewrite drop_1_insert_0. split; [done|].
      rewrite dim_insert_0 by done.
      rewrite !to_size_t_small by lia. split.
      * exists n. split_and!; [done..|]. lia.
      * intros _ Hfill.
        rewrite (product_dim_0 _ (insert_0_nonempty _ _ Hd)).
        rewrite dim_insert_0, drop_1_insert_0, <- Hs by done.
        assert (Hd0 : 0 < dim d 0).
        { destruct (decide (dim d 0 = 0)) as [Hz|]; [|lia].
          rewrite Hz in Hprod. lia. }
        assert (Hrest : 0 < product (drop 1 d)).
        { apply (Z.mul_pos_cancel_l (dim d 0)); [done|lia]. }
        split; [apply Z.mul_pos_pos; lia|lia].
    + change (default [] (Some d)) with d. split; [done|]. split.
      * exists n. split_and!; [done..|]. lia.
      * intros _ Hfill. split; [done|lia].
  - rewrite (bool_decide_eq_false_2 _ Hinit).
    rewrite decide_True by lia.
    match goal with |- context [default [] (Some ?x)] =>
      change (default [] (Some x)) with x end.
    rewrite drop_1_insert_0.
    split; [done|]. rewrite dim_insert_0 by done.
    rewrite !to_size_t_small by lia. split; [|done].
    exists n. split_and!; [done..|].
    rewrite (bool_decide_eq_false_2 _ Hinit). lia.
Qed.

End Shape.

Lemma shape_after_successful_call_witness :
  occupied_size
    (RunOnDevice (tracking_op 2) (byte_batch ["002"; "003"]%byte [5; 7])
       (RunOnDevice (tracking_op 2) (byte_batch ["001"]%byte [4])
                    (initial_state 2 [1])).2).2
  = Z.min 2 3.
Proof.
  destruct (shape_after_successful_call (tracking_op 2)
              (byte_batch ["002"; "003"]%byte [5; 7])
              (RunOnDevice (tracking_op 2) (byte_batch ["001"]%byte [4])
                           (initial_state 2 [1])).2
              (RunOnDevice (tracking_op 2) (byte_batch ["002"; "003"]%byte [5; 7])
                 (RunOnDevice (tracking_op 2) (byte_batch ["001"]%byte [4])
                              (initial_state 2 [1])).2).2)
    as (_ & _ & _ & Hfill).
  - by vm_compute.
  - by vm_compute.
  - by vm_compute.
  - by vm_compute.
  - by vm_compute.
  - by vm_compute.
  - destruct Hfill as [_ Hocc].
    + by vm_compute.
    + by vm_compute.
    + exact Hocc.
Defined.

(** ** The rows of a batch *)

Lemma product_nonneg (d : list Z) : Forall (λ x, 0 ≤ x) d → 0 ≤ product d.
Proof.
  induction 1 as [|x d Hx _ IH]; [done|].
  change (product (x :: d)) with (x * product d). by apply Z.mul_nonneg_nonneg.
Qed.

Lemma concat_chunks {A} (l : list A) (bb n : nat) :
  mjoin ((λ i, take bb (drop (i * bb) l)) <$> seq 0 n) = take (n * bb) l.
Proof.
  induction n as [|n IH]; [done|].
  rewrite seq_S, fmap_app, join_app, IH. simpl. rewrite app_nil_r.
  rewrite take_take_drop. f_equal. lia.
Qed.

(** The rows the loop copies tile the input buffer: with the stride of
    lines 60-61 ([size_from_dim(1) * itemsize]) every row of a tensor that
    holds its data has exactly that many bytes, and the rows, in order, are
    the whole buffer. *)
Theorem rows_tile_the_input (input : Tensor) :
  1 ≤ ndim input →
  tensor_filled input →
  (∀ i, 0 ≤ i → i < dim (dims input) 0 →
        Z.of_nat (length (block_at input i)) = block_bytesize input) ∧
  mjoin (block_at input <$> seqZ 0 (dim (dims input) 0)) = raw_data input.
Proof.
  intros Hnd (Hdims & Hitem & Hlen).
  assert (Hd : dims input ≠ []).
  { intros Hd. unfold ndim in Hnd. rewrite Hd in Hnd. simpl in Hnd. lia. }
  assert (Hd0 : 0 ≤ dim (dims input) 0).
  { destruct (dims input) as [|x d]; [done|]. by inversion Hdims. }
  assert (Hbb : 0 ≤ block_bytesize input).
  { unfold block_bytesize, size_from_dim.
    apply Z.mul_nonneg_nonneg; [|done]. apply product_nonneg.
    by apply Forall_drop. }
  assert (Htotal : Z.of_nat (length (raw_data input))
                   = dim (dims input) 0 * block_bytesize input).
  { rewrite Hlen, (product_dim_0 _ Hd). unfold block_bytesize, size_from_dim. lia. }
  split.
  - intros i Hi0 Hi1. unfold block_at.
    rewrite length_take, length_drop. nia.
  - unfold seqZ. rewrite <- list_fmap_compose.
    rewrite (list_fmap_ext _
               (λ i, take (Z.to_nat (block_bytesize input))
                          (drop (i * Z.to_nat (block_bytesize input))
                                (raw_data input)))).
    + rewrite concat_chunks. apply take_ge. nia.
    + intros _ i _. unfold block_at. simpl. do 2 f_equal. nia.
Qed.

Lemma rows_tile_the_input_witness :
  mjoin (block_at (DATA (byte_batch ["001"; "002"; "003"]%byte [4; 5; 7]))
           <$> seqZ 0 3)
  = ["001"; "002"; "003"]%byte.
Proof.
  apply (rows_tile_the_input
           (DATA (byte_batch ["001"; "002"; "003"]%byte [4; 5; 7]))).
  - by vm_compute.
  - split_and!; [repeat constructor; lia|by vm_compute|reflexivity].
Defined.

(** ** Successive calls *)

Section Batching.
Context {G : Type} `{RandGenerator G}.
Implicit Types (op : ReservoirSamplingOp) (batch : Batch) (st : State G).


End Batching.


(** ** Filling the reservoir with keyed rows *)

Lemma count_absent_insert (m : gmap Z Z) (k v : Z) (l : list Z) :
  m !! k = None →
  count_absent (<[k := v]> m) l ≤ count_absent m l ∧
  (count_absent (<[k := v]> m) l = count_absent m l → k ∉ l) ∧
  (k ∉ l → filter (λ x, <[k := v]> m !! x = None) l
           = filter (λ x, m !! x = None) l).
Proof.
  intros Hk. unfold count_absent.
  induction l as [|x l (IH1 & IH2 & IH3)].
  { split_and!; [done| |done]. intros _. apply not_elem_of_nil. }
  destruct (decide (x = k)) as [->|Hne].
  - rewrite (filter_cons_False (λ x, <[k := v]> m !! x = None))
      by (by rewrite lookup_insert_eq).
    rewrite (filter_cons_True (λ x, m !! x = None)) by done.
    cbn [length]. split_and!; [lia|lia|].
    intros Hnot. exfalso. apply Hnot. left.
  - destruct (m !! x) as [y|] eqn:Hx.
    + rewrite (filter_cons_False (λ x, <[k := v]> m !! x = None))
        by (by rewrite lookup_insert_ne, Hx).
      rewrite (filter_cons_False (λ x, m !! x = None)) by (by rewrite Hx).
      split_and!; [done| |].
      * intros Heq. apply not_elem_of_cons. split; [done|]. by apply IH2.
      * intros Hnot. apply IH3. by apply not_elem_of_cons in Hnot as [_ ?].
    + rewrite (filter_cons_True (λ x, <[k := v]> m !! x = None))
        by (by rewrite lookup_insert_ne, Hx).
      rewrite (filter_cons_True (λ x, m !! x = None)) by done.
      cbn [length]. split_and!; [lia| |].
      * intros Heq. apply not_elem_of_cons. split; [done|]. apply IH2. lia.
      * intros Hnot. f_equal. apply IH3.
        by apply not_elem_of_cons in Hnot as [_ ?].
Qed.

Lemma count_absent_le (m : gmap Z Z) (l : list Z) :
  0 ≤ count_absent m l ∧ count_absent m l ≤ Z.of_nat (length l).
Proof.
  unfold count_absent. pose proof (length_filter (λ x, m !! x = None) l). lia.
Qed.

Section Filling.
Context {G : Type} `{RandGenerator G}.
Implicit Types (op : ReservoirSamplingOp) (batch : Batch) (st : State G).

(** A row with a new key at a visit count below the capacity is appended. *)
Lemma sample_row_append_index op batch i st :
  key_tracking op = true →
  OBJECT_TO_POS_MAP st !! cell (oid_data (OBJECT_ID batch)) i = None →
  0 ≤ num_visited st → num_visited st < numToCollect_ op →
  num_visited st < Z.of_nat (length (POS_TO_OBJECT st)) →
  ∃ st1,
    sample_row op batch i st = (Done, st1) ∧
    num_visited st1 = num_visited st + 1 ∧
    OBJECT_TO_POS_MAP st1
      = <[cell (oid_data (OBJECT_ID batch)) i := num_visited st]>
          (delete (cell (POS_TO_OBJECT st) (num_visited st))
                  (OBJECT_TO_POS_MAP st)) ∧
    POS_TO_OBJECT st1
      = <[Z.to_nat (num_visited st) := cell (oid_data (OBJECT_ID batch)) i]>
          (POS_TO_OBJECT st).
Proof.
  intros Hk Hkey Hv Hlt Hcells. eexists. split.
  - apply sample_row_new; [done|].
    unfold already_in_pool. rewrite Hk, Hkey. cbn [andb].
    apply bool_decide_eq_false_2. by intros [? [=]].
  - rewrite after_row_append by done. unfold bind_slot.
    rewrite (binds_owners_cells op _ (num_visited st)) by done. cbn.
    split_and!; [done| |done].
    apply emplace_absent. by apply lookup_delete_None; right.
Qed.

Lemma run_rows_filling op batch (idx : list Z) st :
  key_tracking op = true →
  0 ≤ num_visited st →
  num_visited st + Z.of_nat (length idx) ≤ numToCollect_ op →
  numToCollect_ op ≤ Z.of_nat (length (POS_TO_OBJECT st)) →
  (∀ x, x ∈ stale_cells op st → OBJECT_TO_POS_MAP st !! x = None) →
  (∀ i, i ∈ idx → cell (oid_data (OBJECT_ID batch)) i ∉ stale_cells op st) →
  num_visited (run_rows op batch idx st).2 - num_visited st
    ≤ count_absent (OBJECT_TO_POS_MAP st)
                   (cell (oid_data (OBJECT_ID batch)) <$> idx) ∧
  (num_visited (run_rows op batch idx st).2 - num_visited st
     = count_absent (OBJECT_TO_POS_MAP st)
                    (cell (oid_data (OBJECT_ID batch)) <$> idx) ↔
   NoDup (filter (λ k, OBJECT_TO_POS_MAP st !! k = None)
                 (cell (oid_data (OBJECT_ID batch)) <$> idx))).
Proof.
  intros Hk. revert st.
  induction idx as [|i idx IH]; intros st Hv Hroom Hlen Hstale Hids.
  { change (num_visited st - num_visited st ≤ 0 ∧
            (num_visited st - num_visited st = 0 ↔ NoDup (@nil Z))).
    split; [lia|]. split; [intros _; constructor|lia]. }
  rewrite length_cons in Hroom. rewrite fmap_cons. cbn [run_rows].
  set (key := cell (oid_data (OBJECT_ID batch)) i).
  set (keys := cell (oid_data (OBJECT_ID batch)) <$> idx).
  destruct (OBJECT_TO_POS_MAP st !! key) as [s|] eqn:Hkey.
  - rewrite sample_row_in_pool.
    2:{ unfold already_in_pool. fold key. rewrite Hk, Hkey. cbn [andb].
        by apply bool_decide_eq_true_2. }
    unfold count_absent.
    rewrite (filter_cons_False (λ k, OBJECT_TO_POS_MAP st !! k = None))
      by (by rewrite Hkey).
    apply IH; [done|lia|done|done|].
    intros j Hj. apply Hids. by right.
  - destruct (sample_row_append_index op batch i st Hk Hkey Hv)
      as (st1 & -> & Hv1 & Hm1 & Hp1); [lia|lia|].
    fold key in Hm1, Hp1.
    destruct (lookup_lt_is_Some_2 (POS_TO_OBJECT st) (Z.to_nat (num_visited st)))
      as [old Hold]; [lia|].
    assert (Hw : written_slots op st = num_visited st ∧
                 written_slots op st1 = num_visited st + 1).
    { unfold written_slots. rewrite Hv1. lia. }
    destruct Hw as [Hw Hw1].
    assert (Hunmapped : OBJECT_TO_POS_MAP st !! old = None).
    { apply Hstale, elem_of_stale_cells. exists (num_visited st).
      split_and!; [lia|lia|done]. }
    rewrite (cell_lookup _ _ _ Hold), (delete_id _ _ Hunmapped) in Hm1.
    assert (Hsub : ∀ x, x ∈ stale_cells op st1 → x ∈ stale_cells op st).
    { intros x. rewrite !elem_of_stale_cells. intros (j & Hj & Hc & Hx).
      exists j. split_and!; [lia|done|].
      rewrite Hp1, list_lookup_insert_ne in Hx; [done|lia]. }
    destruct (IH st1) as [IHle IHiff].
    + lia.
    + lia.
    + by rewrite Hp1, length_insert.
    + intros x Hx. rewrite Hm1, lookup_insert_ne.
      * by apply Hstale, Hsub.
      * intros <-. apply (Hids i); [left|by apply Hsub].
    + intros j Hj Hin. apply (Hids j); [by right|by apply Hsub].
    + fold keys in IHle, IHiff. rewrite Hm1 in IHle, IHiff.
      destruct (count_absent_insert (OBJECT_TO_POS_MAP st) key
                  (num_visited st) keys Hkey) as (Hle & Heq & Hfilter).
      assert (Hcons : count_absent (OBJECT_TO_POS_MAP st) (key :: keys)
                      = 1 + count_absent (OBJECT_TO_POS_MAP st) keys).
      { unfold count_absent.
        rewrite (filter_cons_True (λ k, OBJECT_TO_POS_MAP st !! k = None))
          by done.
        cbn [length]. lia. }
      rewrite Hcons.
      rewrite (filter_cons_True (λ k, OBJECT_TO_POS_MAP st !! k = None))
        by done.
      cbn [snd] in *. split; [lia|]. split.
      * intros Htight.
        assert (Hnot : key ∉ keys) by (apply Heq; lia).
        constructor.
        -- intros Hin. apply Hnot.
           by apply list_elem_of_filter in Hin as [_ ?].
        -- rewrite <- (Hfilter Hnot). apply IHiff. lia.
      * intros Hnodup. apply NoDup_cons in Hnodup as [Hnotin Hnodup].
        assert (Hnot : key ∉ keys).
        { intros Hin. apply Hnotin. by apply list_elem_of_filter. }
        rewrite <- (Hfilter Hnot) in Hnodup. apply IHiff in Hnodup.
        unfold count_absent in *. rewrite (Hfilter Hnot) in Hnodup. lia.
Qed.

(** While the reservoir is being filled (the counter stays at or below the
    capacity), with key tracking and owner cells whose leftover values are
    neither mapped nor used as keys by the batch, a call that passes the
    input checks succeeds exactly when the keys of the batch that the map
    does not hold are pairwise distinct: [countNewEntries] counts every
    occurrence of a new key, the loop visits the first one only. *)
Theorem filling_call_succeeds_iff_new_keys_distinct op batch st :
  key_tracking op = true →
  numToCollect_ op < 2147483648 →
  valid_call op batch st →
  dim (dims (DATA batch)) 0 ≠ 0 →
  num_visited st + dim (dims (DATA batch)) 0 ≤ numToCollect_ op →
  numToCollect_ op ≤ Z.of_nat (length (POS_TO_OBJECT st)) →
  (∀ x, x ∈ stale_cells op st → OBJECT_TO_POS_MAP st !! x = None) →
  (∀ k, k ∈ oid_data (OBJECT_ID batch) → k ∉ stale_cells op st) →
  (RunOnDevice op batch st).1 = Done ↔
  NoDup (filter (λ k, OBJECT_TO_POS_MAP st !! k = None)
                (oid_data (OBJECT_ID batch))).
Proof.
  intros Hk HC31 Hvalid Hne Hroom Hlen Hstale Hids.
  pose proof Hvalid as (_ & _ & _ & Hv & Hoid).
  destruct (Hoid Hk) as [Hnd Hsize]. unfold oid_size in Hsize.
  pose proof (count_absent_le (OBJECT_TO_POS_MAP st) (oid_data (OBJECT_ID batch)))
    as [Hc0 Hc1].
  set (n := count_absent (OBJECT_TO_POS_MAP st) (oid_data (OBJECT_ID batch))) in *.
  assert (Hcount : countNewEntries op batch st = inr n).
  { unfold countNewEntries. rewrite Hk, decide_True by done.
    by rewrite to_int32_small by lia. }
  rewrite (RunOnDevice_valid op batch st n Hvalid Hne Hcount).
  pose proof (valid_call_run_rows op batch st n
                (seqZ 0 (dim (dims (DATA batch)) 0)) Hvalid) as Hdone.
  assert (Hst0 : stale_cells op (prepare op batch n st) = stale_cells op st).
  { unfold stale_cells, written_slots, num_visited.
    by rewrite prepare_num_visited, prepare_POS_TO_OBJECT. }
  destruct (run_rows_filling op batch (seqZ 0 (dim (dims (DATA batch)) 0))
              (prepare op batch n st)) as [_ Hiff].
  - done.
  - unfold num_visited. by rewrite prepare_num_visited.
  - unfold num_visited. rewrite prepare_num_visited, length_seqZ.
    fold (num_visited st). lia.
  - by rewrite prepare_POS_TO_OBJECT.
  - intros x. rewrite Hst0, prepare_OBJECT_TO_POS_MAP. apply Hstale.
  - intros i Hi. apply elem_of_seqZ in Hi. rewrite Hst0.
    apply Hids, cell_elem_of; lia.
  - rewrite prepare_OBJECT_TO_POS_MAP in Hiff.
    rewrite <- Hsize, cell_seqZ in Hiff. fold n in Hiff.
    unfold num_visited in Hiff at 2. rewrite prepare_num_visited in Hiff.
    fold (num_visited st) in Hiff. rewrite <- Hsize. rewrite <- Hsize in Hdone.
    destruct (run_rows op batch _ (prepare op batch n st)) as [o st1].
    cbn [fst snd] in *. subst o. rewrite <- Hiff.
    destruct (decide (num_visited st1 = num_visited st + n)); cbn [fst];
      split; intros; try done; lia.
Qed.

End Filling.

Lemma filling_call_succeeds_iff_new_keys_distinct_witness :
  (RunOnDevice (tracking_op 3) (byte_batch ["002"; "003"]%byte [4; 5])
     (RunOnDevice (tracking_op 3) (byte_batch ["001"]%byte [4])
                  (initial_state 3 [])).2).1 = Done.
Proof.
  apply filling_call_succeeds_iff_new_keys_distinct.
  - reflexivity.
  - reflexivity.
  - vm_compute. by repeat split.
  - by vm_compute.
  - by vm_compute.
  - by vm_compute.
  - apply Forall_forall. compute_done.
  - apply Forall_forall. compute_done.
  - compute_done.
Defined.
